(** * QueryWave: schema-aware SQL validation and repair orchestration

    A shallow embedding of [schema_parser.py], [validator.py] and the
    controller part of [app.py], and the properties of the specification
    that were checked against it.

    Modelling conventions.
    - Python [str] values are [string]s over an alphabet of 256
      characters with the properties Python gives them: ASCII, the
      Latin-1 supplement from U+0085 on, the four letters outside
      ASCII that [re.IGNORECASE] takes for ASCII letters (U+0130,
      U+0131, U+017F and U+212A), and the combining dot U+0307 that
      the lower case of U+0130 ends with.  The alphabet has letters,
      numbers and white space outside ASCII, and [lower] can make a
      text longer.  Text with other characters is outside the model.
    - Python [dict]s are association lists in insertion order ([PyDict]);
      Python [set]s that are only tested for membership are lists.
    - The [re] module is modelled by a backtracking matcher ([Re]) with
      the priorities of Python's engine: alternatives left to right,
      greedy repetition longest first, lazy repetition shortest first.
      Each pattern of the program is written as a term, with its source
      text above it.
    - The [json] module is modelled for the values a serialized schema
      holds ([PyJson]).
    - The external text generator is an oracle threaded through a small
      state-and-exception monad ([App]).
    - The endpoints work on an explicit module state ([Server]): the
      schema cache, the schema files and the usage counters; what a
      request draws from outside (the day, its cookie, fresh tokens and
      identifiers) is given with the request.

    The embedding comes first, module by module; then the vocabulary of
    the statements ([Spec], [Notions]); then the proofs. *)

From Stdlib Require Import Bool Arith Lia List NArith ZArith Ascii String.
From Stdlib Require Import DecimalString.
Import ListNotations.
Open Scope string_scope.
Open Scope list_scope.

(* ================================================================== *)
(** ** Python string primitives *)
(* ================================================================== *)

Module PyStr.

(** The alphabet.  [code c] is the number of [c] in the alphabet and
    [code_point c] the code point it stands for: the number itself for
    ASCII, five more for the Latin-1 supplement (which starts at
    U+0085), and then the five other characters.  The characters are
    numbered in the order of their code points, which is the order
    Python compares strings by. *)
Definition code (c : ascii) : N := N_of_ascii c.

Definition dotted_I : ascii := "251".   (* U+0130, capital I with dot above *)
Definition dotless_i : ascii := "252".  (* U+0131, small dotless i *)
Definition long_s : ascii := "253".     (* U+017F, small long s *)
Definition dot_above : ascii := "254".  (* U+0307, combining dot above *)
Definition kelvin : ascii := "255".     (* U+212A, kelvin sign *)

Definition code_point (c : ascii) : N :=
  let n := code c in
  if N.ltb n 128 then n
  else if N.ltb n 251 then n + 5
  else if N.eqb n 251 then 304
  else if N.eqb n 252 then 305
  else if N.eqb n 253 then 383
  else if N.eqb n 254 then 775
  else 8490.

(** [chr(p)], for a code point of the alphabet. *)
Definition of_code_point (p : N) : option ascii :=
  if N.ltb p 128 then Some (ascii_of_N p)
  else if (N.leb 133 p && N.leb p 255)%bool then Some (ascii_of_N (p - 5))
  else if N.eqb p 304 then Some dotted_I
  else if N.eqb p 305 then Some dotless_i
  else if N.eqb p 383 then Some long_s
  else if N.eqb p 775 then Some dot_above
  else if N.eqb p 8490 then Some kelvin
  else None.

Definition chr (p : N) : ascii :=
  match of_code_point p with Some c => c | None => "000"%char end.

Definition in_range (lo hi : N) (c : ascii) : bool :=
  (N.leb lo (code c) && N.leb (code c) hi)%bool.

(** The code point of [c] is [p], or lies between [lo] and [hi]. *)
Definition is_cp (p : N) (c : ascii) : bool := N.eqb (code_point c) p.

Definition between (lo hi : N) (c : ascii) : bool :=
  (N.leb lo (code_point c) && N.leb (code_point c) hi)%bool.

Definition is_upper (c : ascii) : bool := in_range 65 90 c.
Definition is_lower (c : ascii) : bool := in_range 97 122 c.
Definition is_digit (c : ascii) : bool := in_range 48 57 c.

(** [str.isspace], which is also what [strip] removes and what [\s]
    accepts: TAB, LF, VT, FF, CR, FS, GS, RS, US, SPACE, and outside
    ASCII U+0085 and U+00A0. *)
Definition is_space (c : ascii) : bool :=
  (in_range 9 13 c || in_range 28 32 c || is_cp 133 c || is_cp 160 c)%bool.

(** The upper-case letters of the Latin-1 supplement, U+00C0 to U+00DE
    without the multiplication sign; their lower-case letters are 32
    further. *)
Definition is_upper_high (c : ascii) : bool :=
  (between 192 214 c || between 216 222 c)%bool.

(** Outside ASCII, the letters (U+00AA, U+00B5, U+00BA, U+00C0 to U+00FF
    without the multiplication and division signs, and the four
    further letters) and the numbers (the superscripts 2, 3 and 1 and
    the three fractions). *)
Definition is_alnum_high (c : ascii) : bool :=
  (is_cp 170 c || is_cp 181 c || is_cp 186 c ||
   between 192 214 c || between 216 246 c || between 248 255 c ||
   between 178 179 c || is_cp 185 c || between 188 190 c ||
   is_cp 304 c || is_cp 305 c || is_cp 383 c || is_cp 8490 c)%bool.

(** [\w]: what [str.isalnum] accepts, and the underscore. *)
Definition is_word (c : ascii) : bool :=
  (is_upper c || is_lower c || is_digit c || Ascii.eqb c "_" ||
   is_alnum_high c)%bool.

(** The lower-case letter of a character, as the matcher takes it when
    it ignores case: one character, [i] for U+0130 and [k] for the
    kelvin sign. *)
Definition lower_char (c : ascii) : ascii :=
  if (is_upper c || is_upper_high c)%bool then ascii_of_N (code c + 32)
  else if Ascii.eqb c dotted_I then "i"%char
  else if Ascii.eqb c kelvin then "k"%char
  else c.

(** [c.lower()]: the same, except that U+0130 becomes [i] followed by
    the combining dot. *)
Definition lower_str (c : ascii) : string :=
  if Ascii.eqb c dotted_I then String "i" (String dot_above EmptyString)
  else String (lower_char c) EmptyString.

(** The upper-case letter of a lower-case one, where the alphabet has
    it: [I] for the dotless i and [S] for the long s.  The program
    never calls [upper]; the matcher uses this to compare characters
    without regard to case. *)
Definition upper_char (c : ascii) : ascii :=
  if (is_lower c || between 224 246 c || between 248 254 c)%bool
  then ascii_of_N (code c - 32)
  else if Ascii.eqb c dotless_i then "I"%char
  else if Ascii.eqb c long_s then "S"%char
  else c.

(** [s.lower()] *)
Fixpoint lower (s : string) : string :=
  match s with
  | EmptyString => EmptyString
  | String c s' => (lower_str c ++ lower s')%string
  end.

(** [s.lstrip()] *)
Fixpoint lstrip (s : string) : string :=
  match s with
  | EmptyString => EmptyString
  | String c s' => if is_space c then lstrip s' else s
  end.

(** [s.rstrip()] *)
Fixpoint rstrip (s : string) : string :=
  match s with
  | EmptyString => EmptyString
  | String c s' =>
      match rstrip s' with
      | EmptyString => if is_space c then EmptyString else String c EmptyString
      | r => String c r
      end
  end.

(** [s.strip()] *)
Definition strip (s : string) : string := rstrip (lstrip s).

(** [s.startswith(p)] *)
Fixpoint startswith (p s : string) : bool :=
  match p with
  | EmptyString => true
  | String a p' =>
      match s with
      | EmptyString => false
      | String b s' => (Ascii.eqb a b && startswith p' s')%bool
      end
  end.

(** [s.endswith(p)] for a one-character [p], and [s.startswith(p) and
    s.endswith(p)] as used by [_clean_ident] and [literal_type]. *)
Fixpoint last_char (s : string) : option ascii :=
  match s with
  | EmptyString => None
  | String c EmptyString => Some c
  | String _ s' => last_char s'
  end.

Definition first_char (s : string) : option ascii :=
  match s with
  | EmptyString => None
  | String c _ => Some c
  end.

Definition endswith_char (c : ascii) (s : string) : bool :=
  match last_char s with
  | Some d => Ascii.eqb c d
  | None => false
  end.

Definition startswith_char (c : ascii) (s : string) : bool :=
  match first_char s with
  | Some d => Ascii.eqb c d
  | None => false
  end.

(** [p in s] (substring test) *)
Fixpoint contains (p s : string) : bool :=
  (startswith p s ||
   match s with
   | EmptyString => false
   | String _ s' => contains p s'
   end)%bool.

(** [c in s] for a character [c] *)
Fixpoint has_char (c : ascii) (s : string) : bool :=
  match s with
  | EmptyString => false
  | String d s' => (Ascii.eqb c d || has_char c s')%bool
  end.

(** [s[:-1]] *)
Fixpoint drop_last (s : string) : string :=
  match s with
  | EmptyString => EmptyString
  | String _ EmptyString => EmptyString
  | String c s' => String c (drop_last s')
  end.

(** [s[1:-1]] *)
Definition inner (s : string) : string :=
  match s with
  | EmptyString => EmptyString
  | String _ s' => drop_last s'
  end.

(** [s[:n]] *)
Fixpoint take (n : nat) (s : string) : string :=
  match n, s with
  | S n', String c s' => String c (take n' s')
  | _, _ => EmptyString
  end.

(** [s.split(sep)] for a one-character separator: never empty. *)
Fixpoint split (sep : ascii) (s : string) : list string :=
  match s with
  | EmptyString => [EmptyString]
  | String c s' =>
      if Ascii.eqb c sep then EmptyString :: split sep s'
      else match split sep s' with
           | [] => [String c EmptyString]
           | p :: ps => String c p :: ps
           end
  end.

(** [bool(s)] *)
Definition truthy (s : string) : bool :=
  match s with EmptyString => false | _ => true end.

(** [sep.join(l)] is [String.concat sep l]. *)

(** [x in l] for a list (or set) of strings *)
Definition mem (x : string) (l : list string) : bool :=
  existsb (String.eqb x) l.

(** [sorted(set(l))]: insertion into a strictly increasing list. *)
Fixpoint insert_sorted (x : string) (l : list string) : list string :=
  match l with
  | [] => [x]
  | y :: l' =>
      match String.compare x y with
      | Lt => x :: l
      | Eq => l
      | Gt => y :: insert_sorted x l'
      end
  end.

Definition sorted_set (l : list string) : list string :=
  fold_right insert_sorted [] l.

(** [list(dict.fromkeys(l))]: first occurrences, in order. *)
Fixpoint dedup_from (seen l : list string) : list string :=
  match l with
  | [] => []
  | x :: l' =>
      if mem x seen then dedup_from seen l'
      else x :: dedup_from (x :: seen) l'
  end.

Definition dedup (l : list string) : list string := dedup_from [] l.

End PyStr.

(* ================================================================== *)
(** ** Python dictionaries with string keys *)
(* ================================================================== *)

Module PyDict.

Definition dict (V : Type) : Type := list (string * V).

Fixpoint get {V} (k : string) (d : dict V) : option V :=
  match d with
  | [] => None
  | (k', v) :: d' => if String.eqb k' k then Some v else get k d'
  end.

(** [d[k] = v]: an existing key keeps its position. *)
Fixpoint set {V} (k : string) (v : V) (d : dict V) : dict V :=
  match d with
  | [] => [(k, v)]
  | (k', v') :: d' =>
      if String.eqb k' k then (k', v) :: d' else (k', v') :: set k v d'
  end.

Definition keys {V} (d : dict V) : list string := map fst d.
Definition values {V} (d : dict V) : list V := map snd d.

Definition has_key {V} (k : string) (d : dict V) : bool :=
  match get k d with Some _ => true | None => false end.

(** A dict comprehension [{f(k): g(k, v) for k, v in d.items()}]. *)
Definition comprehension {V W} (f : string -> string) (g : string -> V -> W)
  (d : dict V) : dict W :=
  fold_left (fun acc kv => set (f (fst kv)) (g (fst kv) (snd kv)) acc) d [].

End PyDict.

(* ================================================================== *)
(** ** Python's json module, for the values a serialized schema holds

    [json.dumps(v, ensure_ascii=False)] and [json.loads(text)] on
    strings, lists, dicts with string keys, [None], [True] and [False].
    Numbers are not modelled: a serialized schema holds none. *)
(* ================================================================== *)

Module PyJson.
Import PyStr PyDict.

#[warnings="-register-all"]
Inductive value : Type :=
| Null
| Bool (b : bool)
| Str (s : string)
| Arr (items : list value)
| Obj (members : list (string * value)).

Definition dquote : ascii := "034".
Definition backslash : ascii := "\".

Definition hex_digit (n : N) : ascii :=
  if N.ltb n 10 then ascii_of_N (48 + n) else ascii_of_N (87 + n).

(** The entries of [ESCAPE_DCT]. *)
Definition escape_char (c : ascii) : string :=
  if Ascii.eqb c dquote then String backslash (String dquote EmptyString)
  else if Ascii.eqb c backslash then String backslash (String backslash EmptyString)
  else if Ascii.eqb c "010" then String backslash "n"
  else if Ascii.eqb c "013" then String backslash "r"
  else if Ascii.eqb c "009" then String backslash "t"
  else if Ascii.eqb c "008" then String backslash "b"
  else if Ascii.eqb c "012" then String backslash "f"
  else if N.ltb (code c) 32 then
    String backslash
      (String "u" (String "0" (String "0"
        (String (hex_digit (N.div (code c) 16))
          (String (hex_digit (N.modulo (code c) 16)) EmptyString)))))
  else String c EmptyString.

Fixpoint escape (s : string) : string :=
  match s with
  | EmptyString => EmptyString
  | String c s' => (escape_char c ++ escape s')%string
  end.

Definition quote (s : string) : string :=
  String dquote (escape s ++ String dquote EmptyString).

(** [json.dumps] with the default separators [", "] and [": "]. *)
Fixpoint dumps (v : value) : string :=
  match v with
  | Null => "null"
  | Bool true => "true"
  | Bool false => "false"
  | Str s => quote s
  | Arr [] => "[]"
  | Arr (x :: l) =>
      ("[" ++ dumps x ++
       (fix more (l : list value) : string :=
          match l with
          | [] => "]"
          | y :: l' => ", " ++ dumps y ++ more l'
          end) l)%string
  | Obj [] => "{}"
  | Obj ((k, x) :: l) =>
      ("{" ++ quote k ++ ": " ++ dumps x ++
       (fix more (l : list (string * value)) : string :=
          match l with
          | [] => "}"
          | (k', y) :: l' => ", " ++ quote k' ++ ": " ++ dumps y ++ more l'
          end) l)%string
  end.

(** The text after the first item of a list, and after the first
    member of a dict. *)
Fixpoint more_items (l : list value) : string :=
  match l with
  | [] => "]"
  | y :: l' => (", " ++ dumps y ++ more_items l')%string
  end.

Fixpoint more_members (l : list (string * value)) : string :=
  match l with
  | [] => "}"
  | (k, y) :: l' => (", " ++ quote k ++ ": " ++ dumps y ++ more_members l')%string
  end.

(** The white space the decoder skips. *)
Definition is_json_space (c : ascii) : bool :=
  (Ascii.eqb c " " || Ascii.eqb c "009" || Ascii.eqb c "010"
   || Ascii.eqb c "013")%bool.

Fixpoint skip_ws (s : string) : string :=
  match s with
  | EmptyString => EmptyString
  | String c s' => if is_json_space c then skip_ws s' else s
  end.

Definition hex_value (c : ascii) : option N :=
  if is_digit c then Some (code c - 48)%N
  else if in_range 97 102 c then Some (code c - 87)%N
  else if in_range 65 70 c then Some (code c - 55)%N
  else None.

(** The character of a [\uXXXX] escape; a code point that is not in
    the alphabet is outside the model. *)
Definition unicode_escape (h1 h2 h3 h4 : ascii) : option ascii :=
  match hex_value h1, hex_value h2, hex_value h3, hex_value h4 with
  | Some a, Some b, Some c, Some d =>
      of_code_point (((a * 16 + b) * 16 + c) * 16 + d)%N
  | _, _, _, _ => None
  end.

(** The entries of [BACKSLASH]. *)
Definition unescape (e : ascii) : option ascii :=
  if Ascii.eqb e dquote then Some dquote
  else if Ascii.eqb e backslash then Some backslash
  else if Ascii.eqb e "/" then Some "/"%char
  else if Ascii.eqb e "b" then Some "008"%char
  else if Ascii.eqb e "f" then Some "012"%char
  else if Ascii.eqb e "n" then Some "010"%char
  else if Ascii.eqb e "r" then Some "013"%char
  else if Ascii.eqb e "t" then Some "009"%char
  else None.

Definition cons_char (c : ascii) (r : option (string * string))
  : option (string * string) :=
  match r with
  | Some (s, rest) => Some (String c s, rest)
  | None => None
  end.

(** [scanstring] in strict mode, after the opening quote: the string
    and the text after its closing quote. *)
Fixpoint scanstring (s : string) : option (string * string) :=
  match s with
  | EmptyString => None
  | String c s' =>
      if Ascii.eqb c dquote then Some (EmptyString, s')
      else if Ascii.eqb c backslash then
        match s' with
        | EmptyString => None
        | String e s'' =>
            if Ascii.eqb e "u" then
              match s'' with
              | String h1 (String h2 (String h3 (String h4 r))) =>
                  match unicode_escape h1 h2 h3 h4 with
                  | Some ch => cons_char ch (scanstring r)
                  | None => None
                  end
              | _ => None
              end
            else
              match unescape e with
              | Some ch => cons_char ch (scanstring s'')
              | None => None
              end
        end
      else if N.ltb (code c) 32 then None
      else cons_char c (scanstring s')
  end.

(** [dict(pairs)]: a repeated key keeps its first position and its
    last value. *)
Definition dict_of_pairs {V} (pairs : list (string * V)) : dict V :=
  fold_left (fun d kv => PyDict.set (fst kv) (snd kv) d) pairs [].

(** [s[n:]] *)
Fixpoint drop (n : nat) (s : string) : string :=
  match n, s with
  | S n', String _ s' => drop n' s'
  | _, _ => s
  end.

(** [scan_once], [JSONArray] and [JSONObject]; [fuel] bounds the number
    of calls. *)
Fixpoint scan (fuel : nat) (s : string) : option (value * string) :=
  match fuel with
  | O => None
  | S fuel' =>
      match s with
      | EmptyString => None
      | String c s' =>
          if Ascii.eqb c dquote then
            match scanstring s' with
            | Some (str, r) => Some (Str str, r)
            | None => None
            end
          else if Ascii.eqb c "[" then
            match skip_ws s' with
            | EmptyString => None
            | String d r as s1 =>
                if Ascii.eqb d "]" then Some (Arr [], r)
                else
                  match elements fuel' s1 with
                  | Some (l, r') => Some (Arr l, r')
                  | None => None
                  end
            end
          else if Ascii.eqb c "{" then
            match skip_ws s' with
            | EmptyString => None
            | String d r as s1 =>
                if Ascii.eqb d "}" then Some (Obj [], r)
                else
                  match members fuel' s1 with
                  | Some (l, r') => Some (Obj (dict_of_pairs l), r')
                  | None => None
                  end
            end
          else if startswith "null" s then Some (Null, drop 4 s)
          else if startswith "true" s then Some (Bool true, drop 4 s)
          else if startswith "false" s then Some (Bool false, drop 5 s)
          else None
      end
  end
with elements (fuel : nat) (s : string) : option (list value * string) :=
  match fuel with
  | O => None
  | S fuel' =>
      match scan fuel' s with
      | None => None
      | Some (v, r) =>
          match skip_ws r with
          | EmptyString => None
          | String d r' =>
              if Ascii.eqb d "]" then Some ([v], r')
              else if Ascii.eqb d "," then
                match elements fuel' (skip_ws r') with
                | Some (l, r'') => Some (v :: l, r'')
                | None => None
                end
              else None
          end
      end
  end
with members (fuel : nat) (s : string)
  : option (list (string * value) * string) :=
  match fuel with
  | O => None
  | S fuel' =>
      match s with
      | EmptyString => None
      | String q s' =>
          if negb (Ascii.eqb q dquote) then None
          else
            match scanstring s' with
            | None => None
            | Some (key, r) =>
                match skip_ws r with
                | EmptyString => None
                | String colon r1 =>
                    if negb (Ascii.eqb colon ":") then None
                    else
                      match scan fuel' (skip_ws r1) with
                      | None => None
                      | Some (v, r2) =>
                          match skip_ws r2 with
                          | EmptyString => None
                          | String d r3 =>
                              if Ascii.eqb d "}" then Some ([(key, v)], r3)
                              else if Ascii.eqb d "," then
                                match members fuel' (skip_ws r3) with
                                | Some (l, r4) => Some ((key, v) :: l, r4)
                                | None => None
                                end
                              else None
                          end
                      end
                end
            end
      end
  end.

(** [json.loads]: one value, white space around it, nothing else. *)
Definition loads (s : string) : option value :=
  match scan (S (String.length s)) (skip_ws s) with
  | Some (v, r) =>
      match skip_ws r with
      | EmptyString => Some v
      | _ => None
      end
  | None => None
  end.

End PyJson.

(* ================================================================== *)
(** ** The regular expressions of Python's [re] module *)
(* ================================================================== *)

Module Re.
Import PyStr.

(** Members of a bracketed set. *)
Inductive citem : Type :=
| CRange (lo hi : ascii)      (* a-z *)
| COne (c : ascii)            (* a single character *)
| CWord                       (* \w *)
| CSpace                      (* \s *)
| CDigit.                     (* \d *)

Inductive regex : Type :=
| Eps                                   (* the empty pattern *)
| Chr (c : ascii)                       (* a literal character *)
| Any                                   (* . *)
| Cls (neg : bool) (items : list citem) (* [...] and [^...] *)
| Cat (r1 r2 : regex)                   (* r1 r2 *)
| Alt (r1 r2 : regex)                   (* r1|r2 *)
| Star (greedy : bool) (r : regex)      (* r* and r*? *)
| Grp (n : nat) (r : regex)             (* the n-th capturing group *)
| Bol                                   (* ^ *)
| Eol                                   (* $ *)
| Wb                                    (* \b *)
| NotAfter (c : ascii).                 (* (?<!c) *)

Record flags : Type := { ignorecase : bool; dotall : bool }.

Definition NOFLAGS : flags := {| ignorecase := false; dotall := false |}.
Definition IGNORECASE : flags := {| ignorecase := true; dotall := false |}.
Definition DOTALL : flags := {| ignorecase := false; dotall := true |}.
Definition IGNORECASE_DOTALL : flags := {| ignorecase := true; dotall := true |}.

(** Derived forms. *)
Definition Plus (greedy : bool) (r : regex) : regex := Cat r (Star greedy r).
Definition Opt (r : regex) : regex := Alt r Eps.
Definition W : regex := Cls false [CWord].
Definition Sp : regex := Cls false [CSpace].
Definition Dg : regex := Cls false [CDigit].

Fixpoint Lit (s : string) : regex :=
  match s with
  | EmptyString => Eps
  | String c EmptyString => Chr c
  | String c s' => Cat (Chr c) (Lit s')
  end.

Fixpoint Seq (rs : list regex) : regex :=
  match rs with
  | [] => Eps
  | [r] => r
  | r :: rs' => Cat r (Seq rs')
  end.

Fixpoint Alts (rs : list regex) : regex :=
  match rs with
  | [] => Eps
  | [r] => r
  | r :: rs' => Alt r (Alts rs')
  end.

Definition item_match (x : ascii) (it : citem) : bool :=
  match it with
  | CRange lo hi => in_range (code lo) (code hi) x
  | COne c => Ascii.eqb c x
  | CWord => is_word x
  | CSpace => is_space x
  | CDigit => is_digit x
  end.

(** With [IGNORECASE] the engine takes two characters for the same
    when they have the same lower-case letter or when their lower-case
    letters have the same upper-case letter: a letter and its other
    case, and outside ASCII U+0130 and the dotless i with [i], the long
    s with [s], and the kelvin sign with [k].  [fold_char] picks the
    lower-case ASCII letter or else the lower-case letter of each such
    class, and [case_variants] lists the class. *)
Definition fold_char (c : ascii) : ascii :=
  lower_char (upper_char (lower_char c)).

Definition case_variants (x : ascii) : list ascii :=
  let f := fold_char x in
  x :: f :: upper_char f ::
  (if Ascii.eqb f "i" then [dotted_I; dotless_i]
   else if Ascii.eqb f "s" then [long_s]
   else if Ascii.eqb f "k" then [kelvin]
   else []).

Definition chr_match (fl : flags) (c x : ascii) : bool :=
  if ignorecase fl then Ascii.eqb (fold_char c) (fold_char x)
  else Ascii.eqb c x.

Definition any_match (fl : flags) (x : ascii) : bool :=
  (dotall fl || negb (Ascii.eqb x "010"))%bool.

Definition cls_match (fl : flags) (neg : bool) (items : list citem)
  (x : ascii) : bool :=
  xorb neg
    (existsb (item_match x) items ||
     (ignorecase fl &&
      existsb (fun y => existsb (item_match y) items) (case_variants x)))%bool.

(** The state of a match attempt: the text still to read, the character
    just before it (none at the start of the text), and the groups
    captured so far, most recent first. *)
Record mstate : Type :=
  { rest : string; prev : option ascii; caps : list (nat * string) }.

Definition word_opt (o : option ascii) : bool :=
  match o with Some c => is_word c | None => false end.

Definition step_char (ok : ascii -> bool) (st : mstate)
  (k : mstate -> option mstate) : option mstate :=
  match rest st with
  | EmptyString => None
  | String x s' =>
      if ok x then k {| rest := s'; prev := Some x; caps := caps st |}
      else None
  end.

Definition consumed (before after : mstate) : string :=
  take (String.length (rest before) - String.length (rest after)) (rest before).

(** The loop of a repetition.  [body st k] matches the repeated
    pattern at [st] and goes on with [k]; a greedy repetition tries one
    more iteration before it tries to stop, a lazy one the other way
    round.  An iteration must consume text, so the number of
    iterations is bounded by the text left; none of the program's
    patterns repeats a pattern that can match the empty string. *)
Fixpoint star_loop (greedy : bool)
  (body : mstate -> (mstate -> option mstate) -> option mstate)
  (k : mstate -> option mstate) (fuel : nat) (st0 : mstate)
  : option mstate :=
  match fuel with
  | O => k st0
  | S fuel' =>
      let again (_ : unit) :=
        body st0 (fun st1 =>
          if Nat.ltb (String.length (rest st1)) (String.length (rest st0))
          then star_loop greedy body k fuel' st1 else None) in
      if greedy then
        match again tt with
        | Some res => Some res
        | None => k st0
        end
      else
        match k st0 with
        | Some res => Some res
        | None => again tt
        end
  end.

(** The matcher, in continuation-passing style: [run fl r st k] is the
    first way, in the engine's priority order, of matching [r] at [st]
    and then satisfying [k]. *)
Fixpoint run (fl : flags) (r : regex) (st : mstate)
  (k : mstate -> option mstate) {struct r} : option mstate :=
  match r with
  | Eps => k st
  | Chr c => step_char (chr_match fl c) st k
  | Any => step_char (any_match fl) st k
  | Cls neg items => step_char (cls_match fl neg items) st k
  | Cat r1 r2 => run fl r1 st (fun st1 => run fl r2 st1 k)
  | Alt r1 r2 =>
      match run fl r1 st k with
      | Some res => Some res
      | None => run fl r2 st k
      end
  | Star greedy r1 =>
      star_loop greedy (run fl r1) k (String.length (rest st)) st
  | Grp n r1 =>
      run fl r1 st (fun st1 =>
        k {| rest := rest st1; prev := prev st1;
             caps := (n, consumed st st1) :: caps st1 |})
  | Bol => match prev st with None => k st | Some _ => None end
  | Eol =>
      match rest st with
      | EmptyString => k st
      | String "010" EmptyString => k st
      | _ => None
      end
  | Wb => if xorb (word_opt (prev st)) (word_opt (first_char (rest st)))
          then k st else None
  | NotAfter c =>
      match prev st with
      | Some d => if Ascii.eqb c d then None else k st
      | None => k st
      end
  end.

(** A successful match: the text skipped before it, the text matched,
    the groups, and what follows. *)
Record rmatch : Type :=
  { pre : string; text : string; groups : list (nat * string);
    post : string; post_prev : option ascii }.

(** [m.group(n)]; a group that did not take part reads as empty. *)
Fixpoint lookup (n : nat) (l : list (nat * string)) : string :=
  match l with
  | [] => EmptyString
  | (i, s) :: l' => if Nat.eqb i n then s else lookup n l'
  end.

Definition group (n : nat) (m : rmatch) : string := lookup n (groups m).

Definition match_at (fl : flags) (r : regex) (p : option ascii) (s : string)
  : option rmatch :=
  let st := {| rest := s; prev := p; caps := [] |} in
  match run fl r st Some with
  | Some st1 =>
      Some {| pre := EmptyString; text := consumed st st1;
              groups := caps st1; post := rest st1; post_prev := prev st1 |}
  | None => None
  end.

(** [re.match(r, s, fl)] *)
Definition rematch (fl : flags) (r : regex) (s : string) : option rmatch :=
  match_at fl r None s.

Definition skip (c : ascii) (m : rmatch) : rmatch :=
  {| pre := String c (pre m); text := text m; groups := groups m;
     post := post m; post_prev := post_prev m |}.

Fixpoint search_from (fl : flags) (r : regex) (p : option ascii) (s : string)
  : option rmatch :=
  match match_at fl r p s with
  | Some m => Some m
  | None =>
      match s with
      | EmptyString => None
      | String c s' => option_map (skip c) (search_from fl r (Some c) s')
      end
  end.

(** [re.search(r, s, fl)] *)
Definition search (fl : flags) (r : regex) (s : string) : option rmatch :=
  search_from fl r None s.

(** The scan shared by [finditer], [sub] and [split]: successive
    non-overlapping matches from the left, and the text after the last
    one.  After an empty match the scan moves one character on. *)
Fixpoint scan (fuel : nat) (fl : flags) (r : regex) (p : option ascii)
  (s : string) : list rmatch * string :=
  match fuel with
  | O => ([], s)
  | S fuel' =>
      match search_from fl r p s with
      | None => ([], s)
      | Some m =>
          match text m, post m with
          | EmptyString, EmptyString => ([m], EmptyString)
          | EmptyString, String c s' =>
              let (ms, tl) := scan fuel' fl r (Some c) s' in
              match ms with
              | [] => ([m], String c tl)
              | m' :: ms' => (m :: skip c m' :: ms', tl)
              end
          | _, _ =>
              let (ms, tl) := scan fuel' fl r (post_prev m) (post m) in
              (m :: ms, tl)
          end
      end
  end.

(** [r.finditer(s)] *)
Definition finditer (fl : flags) (r : regex) (s : string) : list rmatch :=
  fst (scan (S (String.length s)) fl r None s).

(** [re.sub(r, repl, s, flags=fl)] for a replacement without group
    references. *)
Definition sub (fl : flags) (r : regex) (repl : string) (s : string) : string :=
  let (ms, tl) := scan (S (String.length s)) fl r None s in
  fold_right (fun m acc => (pre m ++ repl ++ acc)%string) tl ms.

(** [re.split(r, s, flags=fl)] for a pattern without capturing groups. *)
Definition split (fl : flags) (r : regex) (s : string) : list string :=
  let (ms, tl) := scan (S (String.length s)) fl r None s in
  map pre ms ++ [tl].

End Re.

(* ================================================================== *)
(** ** The serialized schema (section 6 of the specification)

    [{"tables": {name: {"columns": {col: typeText},
                        "primary_key": [col...],
                        "foreign_keys": [{"column", "ref_table",
                                          "ref_column"}...]}}}] *)
(* ================================================================== *)

Module Json.
Import PyDict PyJson.

(** A schema dict of that shape is kept as a record; [to_value] is the
    dict itself, with its keys. *)

Record fk_json : Type :=
  { column : string; ref_table : string; ref_column : string }.

Record table_json : Type :=
  { columns : dict string;
    primary_key : list string;
    foreign_keys : list fk_json }.

Record schema_json : Type := { tables : dict table_json }.

Definition fk_to_value (fk : fk_json) : value :=
  Obj [("column", Str (column fk));
       ("ref_table", Str (ref_table fk));
       ("ref_column", Str (ref_column fk))].

Definition table_to_value (t : table_json) : value :=
  Obj [("columns", Obj (map (fun kv => (fst kv, Str (snd kv))) (columns t)));
       ("primary_key", Arr (map Str (primary_key t)));
       ("foreign_keys", Arr (map fk_to_value (foreign_keys t)))].

Definition to_value (s : schema_json) : value :=
  Obj [("tables",
        Obj (map (fun kv => (fst kv, table_to_value (snd kv))) (tables s)))].

(** A loaded value as its readers see it.  They read a dict with
    [d.get(key) or default] and a string with [s or ""], so an absent
    or empty entry reads as the default; an entry of another type,
    on which the program would raise, has no reading. *)
Definition truthy_value (v : value) : bool :=
  match v with
  | Null => false
  | Bool b => b
  | Str s => PyStr.truthy s
  | Arr items => match items with [] => false | _ => true end
  | Obj members => match members with [] => false | _ => true end
  end.

(** [v.get(key) or default] *)
Definition get_or (key : string) (default : value) (v : value) : option value :=
  match v with
  | Obj members =>
      match PyDict.get key members with
      | Some x => Some (if truthy_value x then x else default)
      | None => Some default
      end
  | _ => None
  end.

(** [s or ""] *)
Definition as_str (v : value) : option string :=
  match v with
  | Str s => Some s
  | Null => Some EmptyString
  | _ => None
  end.

Fixpoint all_some {A B} (f : A -> option B) (l : list A) : option (list B) :=
  match l with
  | [] => Some []
  | x :: l' =>
      match f x, all_some f l' with
      | Some y, Some ys => Some (y :: ys)
      | _, _ => None
      end
  end.

Definition as_list {A} (f : value -> option A) (v : value) : option (list A) :=
  match v with
  | Arr items => all_some f items
  | _ => None
  end.

Definition as_dict {A} (f : value -> option A) (v : value) : option (dict A) :=
  match v with
  | Obj members =>
      all_some (fun kv : string * value =>
                  match f (snd kv) with
                  | Some y => Some (fst kv, y)
                  | None => None
                  end) members
  | _ => None
  end.

Definition then_ {A B} (o : option A) (f : A -> option B) : option B :=
  match o with
  | Some a => f a
  | None => None
  end.

Definition fk_of_value (v : value) : option fk_json :=
  match then_ (get_or "column" Null v) as_str,
        then_ (get_or "ref_table" Null v) as_str,
        then_ (get_or "ref_column" Null v) as_str with
  | Some c, Some rt, Some rc =>
      Some {| column := c; ref_table := rt; ref_column := rc |}
  | _, _, _ => None
  end.

Definition table_of_value (v : value) : option table_json :=
  match then_ (get_or "columns" (Obj []) v) (as_dict as_str),
        then_ (get_or "primary_key" (Arr []) v) (as_list as_str),
        then_ (get_or "foreign_keys" (Arr []) v) (as_list fk_of_value) with
  | Some cols, Some pk, Some fks =>
      Some {| columns := cols; primary_key := pk; foreign_keys := fks |}
  | _, _, _ => None
  end.

Definition of_value (v : value) : option schema_json :=
  match then_ (get_or "tables" (Obj []) v) (as_dict table_of_value) with
  | Some t => Some {| tables := t |}
  | None => None
  end.

End Json.

(* ================================================================== *)
(** ** schema_parser.py *)
(* ================================================================== *)

Module SchemaParser.
Import PyStr PyDict Re.

Record ForeignKey : Type :=
  { column : string; ref_table : string; ref_column : string }.

Record TableMeta : Type :=
  { name : string;
    columns : dict string;
    primary_key : list string;
    foreign_keys : list ForeignKey }.

Definition dquote : ascii := "034".

(** A quoted or bare identifier, and an optionally dotted name: the
    sub-patterns shared by [CREATE_TABLE_RE], [FK_RE] and the inline
    REFERENCES pattern. *)
Definition quoted_or_word : regex :=
  Alt (Seq [Chr dquote; Plus true (Cls true [COne dquote]); Chr dquote])
      (Plus true W).

Definition dotted_name : regex :=
  Cat quoted_or_word (Opt (Cat (Chr ".") quoted_or_word)).

Definition not_rparen : regex := Cls true [COne ")"].

(** CREATE\s+TABLE\s+(?:IF\s+NOT\s+EXISTS\s+)?(?P<name>NAME)\s*
    \((?P<body>.*?)\)\s*;   with IGNORECASE and DOTALL; group 1 is
    [name], group 2 is [body]. *)
Definition CREATE_TABLE_RE : regex :=
  Seq [Lit "CREATE"; Plus true Sp; Lit "TABLE"; Plus true Sp;
       Opt (Seq [Lit "IF"; Plus true Sp; Lit "NOT"; Plus true Sp;
                 Lit "EXISTS"; Plus true Sp]);
       Grp 1 dotted_name; Star true Sp;
       Chr "("; Grp 2 (Star false Any); Chr ")"; Star true Sp; Chr ";"].

(** ^\s*(?P<col>QUOTED|\w+)\s+(?P<type>[a-zA-Z][\w\s\(\),]* ) with
    IGNORECASE; group 1 is [col], group 2 is [type]. *)
Definition COLUMN_DEF_RE : regex :=
  Seq [Bol; Star true Sp; Grp 1 quoted_or_word; Plus true Sp;
       Grp 2 (Cat (Cls false [CRange "a" "z"; CRange "A" "Z"])
                  (Star true (Cls false [CWord; CSpace; COne "("; COne ")";
                                         COne ","])))].

(** PRIMARY\s+KEY\s*\((?P<cols>[^)]+)\) with IGNORECASE; group 1 is
    [cols]. *)
Definition PK_RE : regex :=
  Seq [Lit "PRIMARY"; Plus true Sp; Lit "KEY"; Star true Sp;
       Chr "("; Grp 1 (Plus true not_rparen); Chr ")"].

(** FOREIGN\s+KEY\s*\((?P<col>[^)]+)\)\s+REFERENCES\s+
    (?P<ref_table>NAME)\s*\((?P<ref_col>[^)]+)\) with IGNORECASE;
    groups 1, 2, 3 are [col], [ref_table], [ref_col]. *)
Definition FK_RE : regex :=
  Seq [Lit "FOREIGN"; Plus true Sp; Lit "KEY"; Star true Sp;
       Chr "("; Grp 1 (Plus true not_rparen); Chr ")"; Plus true Sp;
       Lit "REFERENCES"; Plus true Sp; Grp 2 dotted_name; Star true Sp;
       Chr "("; Grp 3 (Plus true not_rparen); Chr ")"].

(** \s+(?:NOT\s+NULL|NULL|DEFAULT|PRIMARY\s+KEY|UNIQUE|REFERENCES)\b *)
Definition TYPE_END_RE : regex :=
  Seq [Plus true Sp;
       Alts [Seq [Lit "NOT"; Plus true Sp; Lit "NULL"];
             Lit "NULL"; Lit "DEFAULT";
             Seq [Lit "PRIMARY"; Plus true Sp; Lit "KEY"];
             Lit "UNIQUE"; Lit "REFERENCES"];
       Wb].

(** \bPRIMARY\s+KEY\b *)
Definition INLINE_PK_RE : regex :=
  Seq [Wb; Lit "PRIMARY"; Plus true Sp; Lit "KEY"; Wb].

(** \bREFERENCES\s+(?P<ref_table>NAME)\s*\((?P<ref_col>[^)]+)\);
    groups 1 and 2 are [ref_table] and [ref_col]. *)
Definition INLINE_REF_RE : regex :=
  Seq [Wb; Lit "REFERENCES"; Plus true Sp; Grp 1 dotted_name; Star true Sp;
       Chr "("; Grp 2 (Plus true not_rparen); Chr ")"].

Definition _clean_ident (s : string) : string :=
  let s := strip s in
  if (startswith_char dquote s && endswith_char dquote s)%bool
  then inner s else s.

(** [l[0]] and [l[-1]] of the never-empty result of a split. *)
Definition first_of (l : list string) : string := hd EmptyString l.
Definition last_of (l : list string) : string := last l EmptyString.

(** The loop state of [_split_top_level_commas]; [before] is
    [body[i - 1]], absent when [i == 0]. *)
Record split_state : Type :=
  { parts : list string; buf : string; depth : nat; in_str : bool;
    before : option ascii }.

Definition push (ch : ascii) (b : string) : string :=
  (b ++ String ch EmptyString)%string.

Definition split_step (st : split_state) (ch : ascii) : split_state :=
  let escaped :=
    match before st with Some p => Ascii.eqb p "\" | None => false end in
  let st' (ps : list string) (b : string) (d : nat) (q : bool) :=
    {| parts := ps; buf := b; depth := d; in_str := q; before := Some ch |} in
  if (Ascii.eqb ch "'" && negb escaped)%bool then
    st' (parts st) (push ch (buf st)) (depth st) (negb (in_str st))
  else if negb (in_str st) then
    if Ascii.eqb ch "(" then
      st' (parts st) (push ch (buf st)) (S (depth st)) (in_str st)
    else if Ascii.eqb ch ")" then
      st' (parts st) (push ch (buf st)) (Nat.pred (depth st)) (in_str st)
    else if (Ascii.eqb ch "," && Nat.eqb (depth st) 0)%bool then
      st' (parts st ++ [strip (buf st)]) EmptyString (depth st) (in_str st)
    else
      st' (parts st) (push ch (buf st)) (depth st) (in_str st)
  else
    st' (parts st) (push ch (buf st)) (depth st) (in_str st).

Fixpoint split_loop (st : split_state) (body : string) : split_state :=
  match body with
  | EmptyString => st
  | String ch body' => split_loop (split_step st ch) body'
  end.

Definition _split_top_level_commas (body : string) : list string :=
  let st := split_loop {| parts := []; buf := EmptyString; depth := 0;
                          in_str := false; before := None |} body in
  let tail := strip (buf st) in
  if truthy tail then parts st ++ [tail] else parts st.

(** The three accumulators of one CREATE TABLE body. *)
Record table_acc : Type :=
  { acc_columns : dict string;
    acc_primary_key : list string;
    acc_foreign_keys : list ForeignKey }.

Definition parse_item (acc : table_acc) (item : string) : table_acc :=
  let item_stripped := strip item in
  match search IGNORECASE PK_RE item_stripped with
  | Some pk_match =>
      let cols := map _clean_ident (PyStr.split "," (group 1 pk_match)) in
      {| acc_columns := acc_columns acc;
         acc_primary_key := acc_primary_key acc ++ filter truthy cols;
         acc_foreign_keys := acc_foreign_keys acc |}
  | None =>
  match search IGNORECASE FK_RE item_stripped with
  | Some fk_match =>
      let col := _clean_ident (first_of (PyStr.split "," (group 1 fk_match))) in
      let rt := _clean_ident (last_of (PyStr.split "." (group 2 fk_match))) in
      let rc := _clean_ident (first_of (PyStr.split "," (group 3 fk_match))) in
      {| acc_columns := acc_columns acc;
         acc_primary_key := acc_primary_key acc;
         acc_foreign_keys :=
           acc_foreign_keys acc ++
           [{| column := col; ref_table := rt; ref_column := rc |}] |}
  | None =>
  match rematch IGNORECASE COLUMN_DEF_RE item_stripped with
  | Some col_match =>
      let col := _clean_ident (group 1 col_match) in
      let col_type := strip (group 2 col_match) in
      let col_type :=
        strip (first_of (Re.split IGNORECASE TYPE_END_RE col_type)) in
      let pk :=
        match search IGNORECASE INLINE_PK_RE item_stripped with
        | Some _ => acc_primary_key acc ++ [col]
        | None => acc_primary_key acc
        end in
      let fks :=
        match search IGNORECASE INLINE_REF_RE item_stripped with
        | Some inline_ref =>
            let rt :=
              _clean_ident (last_of (PyStr.split "." (group 1 inline_ref))) in
            let rc :=
              _clean_ident (first_of (PyStr.split "," (group 2 inline_ref))) in
            acc_foreign_keys acc ++
            [{| column := col; ref_table := rt; ref_column := rc |}]
        | None => acc_foreign_keys acc
        end in
      {| acc_columns := PyDict.set col col_type (acc_columns acc);
         acc_primary_key := pk;
         acc_foreign_keys := fks |}
  | None => acc
  end end end.

(** The body of the loop over the CREATE TABLE statements. *)
Definition parse_table (tables : dict TableMeta) (m : rmatch)
  : dict TableMeta :=
  let raw_name := group 1 m in
  let body := group 2 m in
  let name := _clean_ident (last_of (PyStr.split "." raw_name)) in
  let items := _split_top_level_commas body in
  let acc :=
    fold_left parse_item items
      {| acc_columns := []; acc_primary_key := []; acc_foreign_keys := [] |} in
  PyDict.set name
    {| name := name;
       columns := acc_columns acc;
       primary_key := dedup (acc_primary_key acc);
       foreign_keys := acc_foreign_keys acc |}
    tables.

Definition parse_schema_sql (schema_sql : string) : dict TableMeta :=
  fold_left parse_table (finditer IGNORECASE_DOTALL CREATE_TABLE_RE schema_sql) [].

Definition fk_to_json (fk : ForeignKey) : Json.fk_json :=
  {| Json.column := column fk;
     Json.ref_table := ref_table fk;
     Json.ref_column := ref_column fk |}.

Definition to_schema_json (tables : dict TableMeta) : Json.schema_json :=
  {| Json.tables :=
       map (fun kv : string * TableMeta =>
              let (tname, tmeta) := kv in
              (tname,
               {| Json.columns := columns tmeta;
                  Json.primary_key := primary_key tmeta;
                  Json.foreign_keys := map fk_to_json (foreign_keys tmeta) |}))
           tables |}.

End SchemaParser.

(* ================================================================== *)
(** ** validator.py *)
(* ================================================================== *)

Module Validator.
Import PyStr PyDict Re.

(** [A-Za-z_][A-Za-z0-9_]* *)
Definition IDENT : regex :=
  Cat (Cls false [CRange "A" "Z"; CRange "a" "z"; COne "_"])
      (Star true (Cls false [CRange "A" "Z"; CRange "a" "z"; CRange "0" "9";
                             COne "_"])).

(** \b(from|join)\s+(IDENT)\s+(?:as\s+)?(IDENT)\b with IGNORECASE *)
Definition FROM_JOIN_RE : regex :=
  Seq [Wb; Grp 1 (Alt (Lit "from") (Lit "join")); Plus true Sp;
       Grp 2 IDENT; Plus true Sp;
       Opt (Cat (Lit "as") (Plus true Sp));
       Grp 3 IDENT; Wb].

(** \b(IDENT)\.(IDENT)\b *)
Definition QUAL_COL_RE : regex :=
  Seq [Wb; Grp 1 IDENT; Chr "."; Grp 2 IDENT; Wb].

(** \b(?P<a>IDENT)\.(?P<c>IDENT)\s*(?P<op>>=|<=|<>|!=|=|>|<)\s*
    (?P<lit>'[^']*'|\d+(?:\.\d+)?|null|true|false)\b with IGNORECASE;
    groups 1 to 4 are [a], [c], [op], [lit]. *)
Definition QUAL_COMP_LIT_RE : regex :=
  Seq [Wb; Grp 1 IDENT; Chr "."; Grp 2 IDENT; Star true Sp;
       Grp 3 (Alts [Lit ">="; Lit "<="; Lit "<>"; Lit "!="; Lit "=";
                    Lit ">"; Lit "<"]);
       Star true Sp;
       Grp 4 (Alts [Seq [Chr "'"; Star true (Cls true [COne "'"]); Chr "'"];
                    Cat (Plus true Dg) (Opt (Cat (Chr ".") (Plus true Dg)));
                    Lit "null"; Lit "true"; Lit "false"]);
       Wb].

(** \b(?P<a>IDENT)\.(?P<c>IDENT)\s+(?P<op>like|ilike)\s+(?P<lit>'[^']*')
    with IGNORECASE; groups 1 to 4 are [a], [c], [op], [lit]. *)
Definition QUAL_LIKE_RE : regex :=
  Seq [Wb; Grp 1 IDENT; Chr "."; Grp 2 IDENT; Plus true Sp;
       Grp 3 (Alt (Lit "like") (Lit "ilike")); Plus true Sp;
       Grp 4 (Seq [Chr "'"; Star true (Cls true [COne "'"]); Chr "'"])].

(** \bon\b\s+(?P<a1>IDENT)\.(?P<c1>IDENT)\s*=\s*(?P<a2>IDENT)\.(?P<c2>IDENT)
    with IGNORECASE; groups 1 to 4 are [a1], [c1], [a2], [c2]. *)
Definition ON_EQ_RE : regex :=
  Seq [Wb; Lit "on"; Wb; Plus true Sp;
       Grp 1 IDENT; Chr "."; Grp 2 IDENT; Star true Sp; Chr "="; Star true Sp;
       Grp 3 IDENT; Chr "."; Grp 4 IDENT].

(** \b(IDENT)\b *)
Definition IDENT_RE : regex := Seq [Wb; Grp 1 IDENT; Wb].

Definition SQL_KEYWORDS : list string :=
  ["select"; "from"; "join"; "inner"; "left"; "right"; "full"; "outer";
   "cross"; "on"; "where"; "group"; "by"; "order"; "having"; "limit";
   "offset"; "fetch"; "union"; "all"; "distinct"; "as"; "and"; "or"; "not";
   "null"; "is"; "in"; "like"; "ilike"; "between"; "case"; "when"; "then";
   "else"; "end"; "asc"; "desc"; "into"; "true"; "false"].

Definition SQL_FUNCTIONS : list string :=
  ["count"; "sum"; "avg"; "min"; "max"; "coalesce"; "now"; "date_trunc";
   "lower"; "upper"].

Definition _lower (s : string) : string := lower s.

(** '.*?(?<!\\)' with DOTALL, every match replaced by two quotes. *)
Definition STRING_RE : regex :=
  Seq [Chr "'"; Star false Any; NotAfter "\"; Chr "'"].

Definition _strip_strings (sql : string) : string :=
  sub DOTALL STRING_RE "''" sql.

Definition build_alias_map (sql : string) : dict string :=
  fold_left
    (fun alias_map m =>
       let table := _lower (group 2 m) in
       let alias := _lower (group 3 m) in
       PyDict.set alias table alias_map)
    (finditer IGNORECASE FROM_JOIN_RE sql) [].

(** [any(x in t for x in l)] *)
Definition any_in (l : list string) (t : string) : bool :=
  existsb (fun x => contains x t) l.

Definition normalize_type (db_type : string) : string :=
  let t := lower db_type in
  if any_in ["int"; "serial"; "numeric"; "decimal"; "real"; "double"; "float"] t
  then "numeric"
  else if any_in ["text"; "varchar"; "char"; "uuid"] t then "text"
  else if contains "bool" t then "boolean"
  else if any_in ["date"; "time"; "timestamp"; "timestamptz"] t then "datetime"
  else "other".

Definition literal_type (lit : string) : string :=
  let lit_l := lower lit in
  if String.eqb lit_l "null" then "null"
  else if mem lit_l ["true"; "false"] then "boolean"
  else if (startswith "'" lit && endswith_char "'" lit)%bool then "text"
  else "numeric".

(** *** Phase 3B: FK-aware JOIN validation *)

Record InvalidJoin : Type :=
  { left : string; right : string; reason : string }.

Definition fk_edge : Type := (string * string * string * string)%type.

Definition edge_eqb (e1 e2 : fk_edge) : bool :=
  let '(a1, b1, c1, d1) := e1 in
  let '(a2, b2, c2, d2) := e2 in
  (String.eqb a1 a2 && String.eqb b1 b2 && String.eqb c1 c2
   && String.eqb d1 d2)%bool.

Definition fk_edges_of (tables : dict Json.table_json) : list fk_edge :=
  flat_map
    (fun kv : string * Json.table_json =>
       let (t, meta) := kv in
       let t_l := _lower t in
       map (fun fk =>
              (t_l, _lower (Json.column fk), _lower (Json.ref_table fk),
               _lower (Json.ref_column fk)))
           (Json.foreign_keys meta))
    tables.

Definition pk_map_of (tables : dict Json.table_json) : dict (list string) :=
  comprehension _lower (fun _ meta => map _lower (Json.primary_key meta)) tables.

(** [d.get(k, set())] *)
Definition get_set (k : string) (d : dict (list string)) : list string :=
  match PyDict.get k d with Some l => l | None => [] end.

Definition fk_join_step (fk_edges : list fk_edge) (pk_map : dict (list string))
  (alias_map : dict string) (acc : list InvalidJoin * list string) (m : rmatch)
  : list InvalidJoin * list string :=
  let (invalid, warnings) := acc in
  let a1 := _lower (group 1 m) in
  let c1 := _lower (group 2 m) in
  let a2 := _lower (group 3 m) in
  let c2 := _lower (group 4 m) in
  match PyDict.get a1 alias_map, PyDict.get a2 alias_map with
  | Some t1', Some t2' =>
      let t1 := _lower t1' in
      let t2 := _lower t2' in
      let direct_ok := existsb (edge_eqb (t1, c1, t2, c2)) fk_edges in
      let reverse_ok := existsb (edge_eqb (t2, c2, t1, c1)) fk_edges in
      if (direct_ok || reverse_ok)%bool then (invalid, warnings)
      else if (mem c1 (get_set t1 pk_map) && mem c2 (get_set t2 pk_map)
               && String.eqb c1 c2)%bool
      then (invalid,
            warnings ++
            [("JOIN " ++ t1 ++ "." ++ c1 ++ " = " ++ t2 ++ "." ++ c2 ++
              " is PK=PK with no FK declared; confirm intended relationship.")
             %string])
      else (invalid ++
            [{| left := (t1 ++ "." ++ c1)%string;
                right := (t2 ++ "." ++ c2)%string;
                reason := "No FK relationship found for this join condition" |}],
            warnings)
  | _, _ =>
      (invalid,
       warnings ++
       [("JOIN uses unknown alias in ON: " ++ a1 ++ "." ++ c1 ++ " = " ++
         a2 ++ "." ++ c2)%string])
  end.

(** Returns [(invalid_joins, join_warnings)]. *)
Definition fk_join_check (sql : string) (schema_json : Json.schema_json)
  (alias_map : dict string) : list InvalidJoin * list string :=
  let tables := Json.tables schema_json in
  let fk_edges := fk_edges_of tables in
  let pk_map := pk_map_of tables in
  fold_left (fk_join_step fk_edges pk_map alias_map)
    (finditer IGNORECASE ON_EQ_RE sql) ([], []).

(** *** Phase 3: validate SQL against the schema *)

Record UnknownColumn : Type :=
  { table : string; alias : string; column : string }.

(** An entry of [unqualified_columns_resolved]:
    [{"column": ..., "table": ...}]. *)
Record ResolvedColumn : Type :=
  { resolved_column : string; resolved_table : string }.

(** An entry of [ambiguous_unqualified_columns]:
    [{"column": ..., "tables": [...]}]. *)
Record AmbiguousColumn : Type :=
  { ambiguous_column : string; ambiguous_tables : list string }.

(** An entry of [type_mismatches].  A comparison with a literal carries
    the keys [column_type] and [literal_type]; a join carries
    [left_type] and [right_type]. *)
Inductive TypeMismatch : Type :=
| LiteralMismatch (kind expr column_type literal_type reason : string)
| JoinMismatch (kind expr left_type right_type reason : string).

Definition kind (m : TypeMismatch) : string :=
  match m with
  | LiteralMismatch k _ _ _ _ => k
  | JoinMismatch k _ _ _ _ => k
  end.

Record ValidationReport : Type :=
  { tables_detected : list string;
    missing_tables : list string;
    alias_map : dict string;
    unknown_aliases : list string;
    unknown_columns : list UnknownColumn;
    unqualified_columns_resolved : list ResolvedColumn;
    ambiguous_unqualified_columns : list AmbiguousColumn;
    unknown_identifiers : list string;
    invalid_joins : list InvalidJoin;
    join_warnings : list string;
    type_mismatches : list TypeMismatch;
    notes : list string }.

(** [l.append(x)] guarded by [x not in l] *)
Definition append_new (x : string) (l : list string) : list string :=
  if mem x l then l else l ++ [x].

(** The state of the loop over the qualified references:
    [(unknown_aliases, unknown_columns, unknown_identifiers)]. *)
Definition qualified_state : Type :=
  (list string * list UnknownColumn * list string)%type.

Definition qualified_step (alias_map : dict string)
  (cols_by_table : dict (list string)) (st : qualified_state)
  (ref : string * string) : qualified_state :=
  let '(unknown_aliases, unknown_columns, unknown_identifiers) := st in
  let (a, c) := ref in
  let a_l := _lower a in
  let c_l := _lower c in
  match PyDict.get a_l alias_map with
  | None =>
      if (negb (has_key a_l cols_by_table) && negb (mem a_l unknown_aliases))%bool
      then (unknown_aliases ++ [a_l], unknown_columns, unknown_identifiers)
      else st
  | Some t =>
      if negb (mem c_l (get_set t cols_by_table))
      then (unknown_aliases,
            unknown_columns ++ [{| table := t; alias := a_l; column := c_l |}],
            append_new c_l unknown_identifiers)
      else st
  end.

Definition qualified_loop (alias_map : dict string)
  (cols_by_table : dict (list string)) (refs : list (string * string))
  : qualified_state :=
  fold_left (qualified_step alias_map cols_by_table) refs ([], [], []).

(** [QUAL_COL_RE.findall(sql0)] *)
Definition qualified_refs (sql0 : string) : list (string * string) :=
  map (fun m => (group 1 m, group 2 m)) (finditer NOFLAGS QUAL_COL_RE sql0).

(** \b[a-zA-Z_]\w*\.TOK\b, the pattern built from an escaped
    candidate. *)
Definition used_qualified_re (tok_l : string) : regex :=
  Seq [Wb; Cls false [CRange "a" "z"; CRange "A" "Z"; COne "_"]; Star true W;
       Chr "."; Lit tok_l; Wb].

(** The state of the loop over the candidates: [(seen_unqualified,
    unqualified_columns_resolved, ambiguous_unqualified_columns)].  The
    set [seen_unqualified] is kept in insertion order. *)
Definition unqualified_state : Type :=
  (list string * list ResolvedColumn * list AmbiguousColumn)%type.

Definition unqualified_step (sql_l : string)
  (detected_tables_cols : list (string * list string))
  (st : unqualified_state) (tok_l : string) : unqualified_state :=
  let '(seen, resolved, ambiguous) := st in
  if mem tok_l seen then st
  else
    let seen := seen ++ [tok_l] in
    match search NOFLAGS (used_qualified_re tok_l) sql_l with
    | Some _ => (seen, resolved, ambiguous)
    | None =>
        let owners :=
          map fst (filter (fun tc => mem tok_l (snd tc)) detected_tables_cols) in
        match owners with
        | [] => (seen, resolved, ambiguous)
        | [o] =>
            (seen,
             resolved ++ [{| resolved_column := tok_l; resolved_table := o |}],
             ambiguous)
        | _ =>
            (seen, resolved,
             ambiguous ++
             [{| ambiguous_column := tok_l; ambiguous_tables := owners |}])
        end
    end.

Definition col_type (alias_map : dict string)
  (type_by_table : dict (dict string)) (alias col : string) : option string :=
  let a := _lower alias in
  let c := _lower col in
  match PyDict.get a alias_map with
  | None => None
  | Some t =>
      match PyDict.get t type_by_table with
      | None => None
      | Some types => PyDict.get c types
      end
  end.

(** 1) Comparisons with literals *)
Definition comparison_step (alias_map : dict string)
  (type_by_table : dict (dict string)) (type_mismatches : list TypeMismatch)
  (m : rmatch) : list TypeMismatch :=
  let a := group 1 m in
  let c := group 2 m in
  let op := lower (group 3 m) in
  let lit := group 4 m in
  match col_type alias_map type_by_table a c with
  | None => type_mismatches
  | Some ct =>
      let lt := literal_type lit in
      let expr := (a ++ "." ++ c ++ " " ++ op ++ " " ++ lit)%string in
      if String.eqb lt "null" then type_mismatches
      else if mem op [">"; "<"; ">="; "<="] then
        if negb (String.eqb ct "numeric") then
          type_mismatches ++
          [LiteralMismatch "comparison" expr ct lt
             "Non-numeric column used with numeric comparison operator"]
        else type_mismatches
      else if mem op ["="; "!="; "<>"] then
        if (mem ct ["numeric"; "text"; "boolean"]
            && mem lt ["numeric"; "text"; "boolean"]
            && negb (String.eqb ct lt))%bool
        then
          type_mismatches ++
          [LiteralMismatch "equality" expr ct lt
             "Column type does not match literal type"]
        else type_mismatches
      else type_mismatches
  end.

(** 2) LIKE / ILIKE must be text *)
Definition like_step (alias_map : dict string)
  (type_by_table : dict (dict string)) (type_mismatches : list TypeMismatch)
  (m : rmatch) : list TypeMismatch :=
  let a := group 1 m in
  let c := group 2 m in
  let op := lower (group 3 m) in
  let lit := group 4 m in
  match col_type alias_map type_by_table a c with
  | None => type_mismatches
  | Some ct =>
      if negb (String.eqb ct "text") then
        type_mismatches ++
        [LiteralMismatch "like" (a ++ "." ++ c ++ " " ++ op ++ " " ++ lit)%string
           ct "text" "LIKE/ILIKE used on non-text column"]
      else type_mismatches
  end.

(** 3) Join type mismatch: ON a.col = b.col *)
Definition join_type_step (alias_map : dict string)
  (type_by_table : dict (dict string)) (type_mismatches : list TypeMismatch)
  (m : rmatch) : list TypeMismatch :=
  let a1 := group 1 m in
  let c1 := group 2 m in
  let a2 := group 3 m in
  let c2 := group 4 m in
  match col_type alias_map type_by_table a1 c1,
        col_type alias_map type_by_table a2 c2 with
  | Some t1, Some t2 =>
      if (negb (String.eqb t1 t2) && negb (String.eqb t1 "other")
          && negb (String.eqb t2 "other"))%bool
      then
        type_mismatches ++
        [JoinMismatch "join" (a1 ++ "." ++ c1 ++ " = " ++ a2 ++ "." ++ c2)%string
           t1 t2 "Join compares different column types"]
      else type_mismatches
  | _, _ => type_mismatches
  end.

Definition nonempty {A} (l : list A) : bool :=
  match l with [] => false | _ => true end.

(** [if cond: notes.append(text)] *)
Definition note_if (cond : bool) (text : string) (notes : list string)
  : list string :=
  if cond then notes ++ [text] else notes.

Definition validate_against_schema (sql : string)
  (schema_json : Json.schema_json) : ValidationReport :=
  let sql_raw := sql in
  let sql0 := _strip_strings sql_raw in
  let sql_l := lower sql0 in
  let tables := Json.tables schema_json in
  (* Alias map *)
  let alias_map := build_alias_map sql0 in
  let tables_detected := sorted_set (values alias_map) in
  let missing_tables :=
    filter (fun t => negb (mem t (map _lower (keys tables)))) tables_detected in
  (* Schema column sets and type maps *)
  let cols_by_table :=
    comprehension _lower (fun _ meta => map _lower (keys (Json.columns meta)))
      tables in
  let type_by_table :=
    comprehension _lower
      (fun _ meta =>
         comprehension _lower (fun _ tp => normalize_type tp) (Json.columns meta))
      tables in
  (* Qualified checks *)
  let '(unknown_aliases, unknown_columns, unknown_identifiers) :=
    qualified_loop alias_map cols_by_table (qualified_refs sql0) in
  (* Unqualified column resolution *)
  let tokens := map (group 1) (finditer NOFLAGS IDENT_RE sql0) in
  let known_tables := keys cols_by_table in
  let known_aliases := keys alias_map in
  let candidates :=
    filter
      (fun tok_l =>
         (negb (mem tok_l SQL_KEYWORDS || mem tok_l SQL_FUNCTIONS)
          && negb (mem tok_l known_aliases)
          && negb (mem tok_l known_tables))%bool)
      (map _lower tokens) in
  let detected_tables_cols :=
    map (fun t => (t, get_set t cols_by_table))
        (filter (fun t => has_key t cols_by_table) tables_detected) in
  let '(seen_unqualified, unqualified_columns_resolved,
        ambiguous_unqualified_columns) :=
    fold_left (unqualified_step sql_l detected_tables_cols) candidates
      ([], [], []) in
  (* Unknown identifiers *)
  let resolved_cols := map resolved_column unqualified_columns_resolved in
  let ambiguous_cols := map ambiguous_column ambiguous_unqualified_columns in
  let unknown_identifiers :=
    fold_left
      (fun unknown_identifiers tok_l =>
         if (mem tok_l resolved_cols || mem tok_l ambiguous_cols)%bool
         then unknown_identifiers
         else append_new tok_l unknown_identifiers)
      seen_unqualified unknown_identifiers in
  (* Phase 3C: type-aware checks *)
  let type_mismatches :=
    fold_left (comparison_step alias_map type_by_table)
      (finditer IGNORECASE QUAL_COMP_LIT_RE sql0) [] in
  let type_mismatches :=
    fold_left (like_step alias_map type_by_table)
      (finditer IGNORECASE QUAL_LIKE_RE sql0) type_mismatches in
  let type_mismatches :=
    fold_left (join_type_step alias_map type_by_table)
      (finditer IGNORECASE ON_EQ_RE sql0) type_mismatches in
  (* Phase 3B: FK-aware join check *)
  let fk := fk_join_check sql0 schema_json alias_map in
  (* Notes *)
  let notes :=
    note_if (nonempty type_mismatches)
      "One or more comparisons/joins appear to use incompatible data types."
    (note_if (nonempty (fst fk))
      "One or more JOIN conditions do not match any FK relationship."
    (note_if (nonempty ambiguous_unqualified_columns)
      "Some unqualified column names are ambiguous; prefer alias.column."
    (note_if (nonempty unknown_aliases)
      "One or more aliases referenced in SQL were not defined in FROM/JOIN."
    (note_if (nonempty unknown_columns)
      "One or more qualified columns (alias.column) do not exist in the referenced table."
    (note_if (nonempty missing_tables)
      "One or more referenced tables are missing from the schema."
      []))))) in
  {| tables_detected := tables_detected;
     missing_tables := missing_tables;
     alias_map := alias_map;
     unknown_aliases := unknown_aliases;
     unknown_columns := unknown_columns;
     unqualified_columns_resolved := unqualified_columns_resolved;
     ambiguous_unqualified_columns := ambiguous_unqualified_columns;
     unknown_identifiers := unknown_identifiers;
     invalid_joins := fst fk;
     join_warnings := snd fk;
     type_mismatches := firstn 50 type_mismatches;
     notes := notes |}.

(** *** Phase 3D: error classification *)

Record Classification : Type :=
  { class : string; class_reason : string; action : string }.

(** The lowercased, non-empty names of [unknown_columns].  The program
    collects them in a set; only [any] is applied to it. *)
Definition unknown_col_names (unknown_columns : list UnknownColumn)
  : list string :=
  map lower (filter truthy (map column unknown_columns)).

Definition classify_issue (validation : ValidationReport) (question : string)
  (schema_json : Json.schema_json) : Classification :=
  let hard_signals :=
    (nonempty (missing_tables validation)
     || nonempty (unknown_columns validation)
     || nonempty (unknown_aliases validation)
     || nonempty (invalid_joins validation)
     || nonempty (type_mismatches validation))%bool in
  if negb hard_signals then
    {| class := "ok";
       class_reason := "No major validation issues detected.";
       action := "stop" |}
  else
  let q := lower question in
  if nonempty (missing_tables validation) then
    {| class := "schema_issue";
       class_reason := "SQL references table(s) not present in the uploaded schema.";
       action := "stop" |}
  else if nonempty (unknown_columns validation) then
    let unknown_cols := unknown_col_names (unknown_columns validation) in
    if existsb (fun uc => contains uc q) unknown_cols then
      {| class := "schema_issue";
         class_reason := "Requested column(s) appear not to exist in the schema.";
         action := "stop" |}
    else
      {| class := "ai_issue";
         class_reason := "AI produced column names that do not exist in the schema.";
         action := "retry_ai" |}
  else if nonempty (invalid_joins validation) then
    {| class := "ai_issue";
       class_reason := "SQL join condition does not match any foreign key relationship.";
       action := "retry_ai" |}
  else if nonempty (type_mismatches validation) then
    {| class := "ai_issue";
       class_reason := "SQL compares incompatible data types (e.g., TEXT vs numeric).";
       action := "retry_ai" |}
  else if nonempty (unknown_aliases validation) then
    {| class := "ai_issue";
       class_reason := "SQL references aliases that were never defined in FROM/JOIN.";
       action := "retry_ai" |}
  else if nonempty (ambiguous_unqualified_columns validation) then
    {| class := "user_issue";
       class_reason := "Request leads to ambiguous columns; specify which table/field you mean.";
       action := "ask_user" |}
  else
    {| class := "ai_issue";
       class_reason := "Validation failed in an unexpected way.";
       action := "retry_ai" |}.

End Validator.

(* ================================================================== *)
(** ** app.py: surface extraction, policy gate, repair loop *)
(* ================================================================== *)

Module App.
Import PyStr PyDict Re Validator.

(** ^```(?:sql)?\s* with IGNORECASE *)
Definition FENCE_OPEN_RE : regex :=
  Seq [Bol; Lit "```"; Opt (Lit "sql"); Star true Sp].

(** \s*```$ *)
Definition FENCE_CLOSE_RE : regex :=
  Seq [Star true Sp; Lit "```"; Eol].

(** ^\s*sql\s*:\s* with IGNORECASE *)
Definition SQL_LABEL_RE : regex :=
  Seq [Bol; Star true Sp; Lit "sql"; Star true Sp; Chr ":"; Star true Sp].

(** ^(select|with)\b with IGNORECASE *)
Definition SELECT_WITH_RE : regex :=
  Seq [Bol; Grp 1 (Alt (Lit "select") (Lit "with")); Wb].

(** [[p.strip() for p in t.split(";") if p.strip()]] *)
Definition statement_parts (t : string) : list string :=
  filter truthy (map strip (PyStr.split ";" t)).

Definition extract_sql (text : string) : string :=
  if negb (truthy text) then EmptyString
  else
    let t := strip text in
    let t := sub IGNORECASE FENCE_OPEN_RE EmptyString t in
    let t := sub NOFLAGS FENCE_CLOSE_RE EmptyString t in
    let t := sub IGNORECASE SQL_LABEL_RE EmptyString t in
    match statement_parts t with
    | [] => EmptyString
    | p :: _ =>
        let sql := (p ++ ";")%string in
        match rematch IGNORECASE SELECT_WITH_RE (strip sql) with
        | None => EmptyString
        | Some _ => sql
        end
    end.

(** Exceptions, by type name and message. *)
Inductive exn : Type :=
| ValueError (msg : string)
| RateLimitError (msg : string)
| OtherError (type_name msg : string).

Inductive result (A : Type) : Type :=
| Return (a : A)
| Raise (e : exn).
Arguments Return {A} a.
Arguments Raise {A} e.

Definition disallowed : list string :=
  ["create "; "drop "; "alter "; "truncate "; "grant "; "revoke "].

Definition reject_disallowed_sql (sql : string) : result unit :=
  let s := lower (strip sql) in
  if existsb (fun p => startswith p s) disallowed then
    Raise (ValueError "DDL / privileged statements are not supported.")
  else if has_char ";" (drop_last (strip sql)) then
    Raise (ValueError "Multi-statement SQL is not supported.")
  else Return tt.

(** *** The external generator

    A chat completion is answered by an oracle: the reply to the n-th
    request may depend on everything the prompt is built from. *)

Inductive request : Type :=
| GenerateRequest (schema_json : Json.schema_json) (question : string)
| FixRequest (schema_json : Json.schema_json) (question bad_sql : string)
    (validation : ValidationReport).

Inductive api_reply : Type :=
| Content (raw : string)
| RateLimited (msg : string)
| Failed (type_name msg : string).

Inductive event : Type :=
| Called_ai_generate_sql
| Called_ai_fix_sql
| Called_api (r : request)
| Slept (seconds : nat).

Record world : Type :=
  { oracle : nat -> request -> api_reply;
    api_calls : nat;
    trace : list event }.

(** Computations that read and extend the world and may raise. *)
Definition M (A : Type) : Type := world -> result A * world.

Definition ret {A} (a : A) : M A := fun w => (Return a, w).

Definition raise {A} (e : exn) : M A := fun w => (Raise e, w).

Definition bind {A B} (c : M A) (f : A -> M B) : M B :=
  fun w =>
    match c w with
    | (Return a, w') => f a w'
    | (Raise e, w') => (Raise e, w')
    end.

Notation "x <- c ;; k" := (bind c (fun x => k))
  (at level 61, c at next level, right associativity).
Notation "c ;;; k" := (bind c (fun _ => k))
  (at level 61, right associativity).

Definition emit (e : event) : M unit :=
  fun w =>
    (Return tt,
     {| oracle := oracle w; api_calls := api_calls w;
        trace := trace w ++ [e] |}).

Definition lift {A} (r : result A) : M A := fun w => (r, w).

(** [client.chat.completions.create(...)] followed by
    [resp.choices[0].message.content]. *)
Definition chat (r : request) : M string :=
  fun w =>
    let w' := {| oracle := oracle w; api_calls := S (api_calls w);
                 trace := trace w ++ [Called_api r] |} in
    match oracle w (api_calls w) r with
    | Content raw => (Return raw, w')
    | RateLimited msg => (Raise (RateLimitError msg), w')
    | Failed ty msg => (Raise (OtherError ty msg), w')
    end.

(** [for i in range(start, start + retries)] of
    [call_openai_with_retry]; [last_err] is [None] before the first
    failure. *)
Fixpoint retry_from {A} (fn : M A) (retries i : nat) (last_err : option exn)
  : M A :=
  match retries with
  | O =>
      match last_err with
      | Some e => raise e
      | None => raise (OtherError "TypeError" "exceptions must derive from BaseException")
      end
  | S retries' =>
      fun w =>
        match fn w with
        | (Raise (RateLimitError msg), w') =>
            (emit (Slept (2 ^ i)) ;;;
             retry_from fn retries' (S i) (Some (RateLimitError msg))) w'
        | other => other
        end
  end.

Definition call_openai_with_retry {A} (fn : M A) : M A := retry_from fn 3 0 None.

Definition ai_generate_sql (schema_json : Json.schema_json) (question : string)
  : M string :=
  emit Called_ai_generate_sql ;;;
  raw <- call_openai_with_retry (chat (GenerateRequest schema_json question)) ;;
  let sql := extract_sql raw in
  if negb (truthy sql) then raise (ValueError "Model did not return valid SQL.")
  else lift (reject_disallowed_sql sql) ;;; ret sql.

Definition ai_fix_sql (schema_json : Json.schema_json)
  (question bad_sql : string) (validation : ValidationReport) : M string :=
  emit Called_ai_fix_sql ;;;
  raw <- call_openai_with_retry
           (chat (FixRequest schema_json question bad_sql validation)) ;;
  let sql := extract_sql raw in
  if negb (truthy sql) then
    raise (ValueError "Model did not return SQL in fix step.")
  else lift (reject_disallowed_sql sql) ;;; ret sql.

(** *** Heuristic fallback *)

Definition nl : string := String "010" EmptyString.

Definition smart_sql_generator (schema_json : Json.schema_json)
  (question : string) : string :=
  let q := lower question in
  let tables := Json.tables schema_json in
  match tables with
  | [] => "-- No tables parsed."
  | (first_table, _) :: _ =>
      let default :=
        let cols :=
          match PyDict.get first_table tables with
          | Some meta => keys (Json.columns meta)
          | None => []
          end in
        let col_list :=
          if nonempty cols then String.concat ", " (firstn 5 cols) else "*" in
        ("SELECT " ++ col_list ++ " FROM " ++ first_table ++ " LIMIT 50;")%string in
      if (contains "employee" q && contains "branch" q)%bool then
        match PyDict.get "employees" tables, PyDict.get "branches" tables with
        | Some emp, Some br =>
            let emp_cols := keys (Json.columns emp) in
            let br_cols := keys (Json.columns br) in
            let emp_select :=
              map (fun c => ("e." ++ c)%string)
                  (filter (fun c => mem c emp_cols)
                          ["emp_id"; "first_name"; "last_name"]) in
            let emp_select :=
              if nonempty emp_select then emp_select else ["e.*"] in
            let select_parts :=
              if mem "branch_name" br_cols
              then emp_select ++ ["b.branch_name AS branch_name"]
              else emp_select in
            ("SELECT " ++ String.concat ", " select_parts ++ nl ++
             "FROM employees e" ++ nl ++
             "JOIN branches b ON b.branch_id = e.branch_id" ++ nl ++
             "LIMIT 50;")%string
        | _, _ => default
        end
      else default
  end.

(** *** UX message helper *)

Definition ux_message (cls : string) (validation : ValidationReport) : string :=
  if String.eqb cls "schema_issue" then
    "Your schema looks incomplete or inconsistent. Re-upload the correct schema.sql."
  else if String.eqb cls "user_issue" then
    "Your question is ambiguous. Specify the table/column or desired output more clearly."
  else if String.eqb cls "system_issue" then
    "Temporary system issue (quota/timeout). Try again."
  else if (nonempty (unknown_columns validation)
           || nonempty (unknown_identifiers validation))%bool then
    "The query referenced a missing column/identifier. It was corrected or flagged."
  else if nonempty (type_mismatches validation) then
    "A type mismatch was detected (e.g., comparing text to numbers). Adjust the condition."
  else "Query generated and validated.".

(** *** SQL generation with validation and the auto-fix loop

    The body of the [/generate] handler from step 1 on: the schema has
    been found and the question [q] has been stripped and checked.
    Cookies, quotas and request identifiers are left out. *)

Inductive Response : Type :=
| OkResponse (sql : string) (validation : ValidationReport)
    (classification : Classification) (message : string) (note : option string)
| ErrorResponse (classification_class message error : string).

Definition exn_text (e : exn) : string :=
  match e with
  | ValueError msg => ("ValueError: " ++ msg)%string
  | RateLimitError msg => ("RateLimitError: " ++ msg)%string
  | OtherError ty msg => (ty ++ ": " ++ msg)%string
  end.

(** The state carried round the auto-fix loop. *)
Record candidate : Type :=
  { cand_sql : string;
    cand_validation : ValidationReport;
    cand_classification : Classification }.

Definition assess (schema_json : Json.schema_json) (q sql : string) : candidate :=
  let validation := validate_against_schema sql schema_json in
  {| cand_sql := sql;
     cand_validation := validation;
     cand_classification := classify_issue validation q schema_json |}.

Definition needs_fix (validation : ValidationReport) : bool :=
  (nonempty (missing_tables validation)
   || nonempty (unknown_columns validation)
   || nonempty (unknown_aliases validation)
   || nonempty (unknown_identifiers validation)
   || nonempty (invalid_joins validation)
   || nonempty (type_mismatches validation))%bool.

(** [for _ in range(n)] of step 3, with its two [break]s. *)
Fixpoint fix_loop (n : nat) (schema_json : Json.schema_json) (q : string)
  (c : candidate) : M candidate :=
  match n with
  | O => ret c
  | S n' =>
      if negb (String.eqb (class (cand_classification c)) "ai_issue") then ret c
      else if negb (needs_fix (cand_validation c)) then ret c
      else
        sql <- ai_fix_sql schema_json q (cand_sql c) (cand_validation c) ;;
        fix_loop n' schema_json q (assess schema_json q sql)
  end.

Definition ok_response (c : candidate) (note : option string) : Response :=
  OkResponse (cand_sql c) (cand_validation c) (cand_classification c)
    (ux_message (class (cand_classification c)) (cand_validation c)) note.

Definition generate (schema_json : Json.schema_json) (q : string) : M Response :=
  fun w =>
    match ai_generate_sql schema_json q w with
    | (Raise (RateLimitError msg), w') =>
        (* AI unreachable: heuristics allowed *)
        let sql := smart_sql_generator schema_json q in
        (Return
           (ok_response (assess schema_json q sql)
              (Some ("AI unreachable; fallback used. Error: " ++
                     exn_text (RateLimitError msg))%string)),
         w')
    | (Raise e, w') =>
        (Return
           (ErrorResponse "ai_issue"
              "AI returned invalid output. Try again or simplify your question."
              ("AI returned invalid output: " ++ exn_text e)%string),
         w')
    | (Return sql, w') =>
        (c <- fix_loop 2 schema_json q (assess schema_json q sql) ;;
         ret (ok_response c None)) w'
    end.

(** *** Persisted schemas

    [upload_schema] writes [json.dumps(schema_json, ensure_ascii=False)];
    [get_schema], [generate] and [validate] read the file back with
    [json.loads]. *)

Definition stored_schema (schema_json : Json.schema_json) : string :=
  PyJson.dumps (Json.to_value schema_json).

Definition loaded_schema (file_text : string) : option Json.schema_json :=
  Json.then_ (PyJson.loads file_text) Json.of_value.

(** The number of times [ai_fix_sql] was entered. *)
Definition fix_calls (w : world) : nat :=
  List.length
    (filter (fun e => match e with Called_ai_fix_sql => true | _ => false end)
            (trace w)).

Definition new_world (oracle : nat -> request -> api_reply) : world :=
  {| oracle := oracle; api_calls := 0; trace := [] |}.

End App.

(* ================================================================== *)
(** ** app.py: limits, usage buckets and the endpoints *)
(* ================================================================== *)

Module Server.
Import PyStr PyDict SchemaParser Validator App.

(** [str(n)] for an integer. *)
Definition str (z : Z) : string := NilZero.string_of_int (Z.to_int z).

(** *** Phase 5 stability limits and Phase 6 productization limits *)

Definition MAX_UPLOAD_MB : Z := 1.
Definition MAX_UPLOAD_BYTES : Z := MAX_UPLOAD_MB * 1024 * 1024.
Definition MAX_TABLES : Z := 200.
Definition MAX_TOTAL_COLUMNS : Z := 5000.
Definition MAX_COLUMNS_PER_TABLE : Z := 300.
Definition MAX_QUESTION_CHARS : Z := 500.
Definition MAX_SCHEMAS_PER_DAY : Z := 5.
Definition MAX_GENERATES_PER_DAY : Z := 50.

(** [len(x)] *)
Definition len {A} (l : list A) : Z := Z.of_nat (List.length l).
Definition strlen (s : string) : Z := Z.of_nat (String.length s).

(** *** Client tracking *)

(** One entry of [USAGE[day]]: [{"schemas": int, "generates": int}]. *)
Record bucket : Type := { schemas : Z; generates : Z }.

(** The module state: the schema cache, the files of [SCHEMA_DIR] by
    schema id, and the usage counters by day and client. *)
Record server : Type :=
  { SCHEMAS : dict Json.schema_json;
    schema_files : dict string;
    USAGE : dict (dict bucket) }.

(** What one request brings with it and draws from outside:
    [date.today().isoformat()], the client cookie,
    [secrets.token_urlsafe(16)] and the successive [str(uuid.uuid4())].
    The day is taken to be the same throughout one request. *)
Record request_env : Type :=
  { today_key : string;
    cookie : option string;
    token_urlsafe : string;
    uuid4 : nat -> string }.

(** The [Response] object a handler is given: the cookie it sets (with
    httponly and samesite=lax) and its headers. *)
Record response : Type :=
  { set_cookie : option string; headers : dict string }.

Definition new_response : response := {| set_cookie := None; headers := [] |}.

Definition set_header (k v : string) (r : response) : response :=
  {| set_cookie := set_cookie r; headers := PyDict.set k v (headers r) |}.

Definition get_or_set_client_id (env : request_env) (r : response)
  : string * response :=
  let fresh :=
    (token_urlsafe env,
     {| set_cookie := Some (token_urlsafe env); headers := headers r |}) in
  match cookie env with
  | Some cid => if truthy cid then (cid, r) else fresh
  | None => fresh
  end.

Definition new_bucket : bucket := {| schemas := 0; generates := 0 |}.

(** [USAGE[tk][cid]], once [get_usage_bucket] has made sure of it. *)
Definition bucket_of (tk cid : string) (usage : dict (dict bucket)) : bucket :=
  match PyDict.get tk usage with
  | Some day =>
      match PyDict.get cid day with Some b => b | None => new_bucket end
  | None => new_bucket
  end.

(** The two [setdefault]s.  The program gets a reference to the bucket;
    here the bucket stays in [USAGE] and is read with [bucket_of]. *)
Definition get_usage_bucket (tk cid : string) (usage : dict (dict bucket))
  : dict (dict bucket) :=
  let day := match PyDict.get tk usage with Some day => day | None => [] end in
  let day :=
    match PyDict.get cid day with
    | Some _ => day
    | None => PyDict.set cid new_bucket day
    end in
  PyDict.set tk day usage.

(** [bucket[field] += 1] through the reference. *)
Definition store_bucket (tk cid : string) (b : bucket)
  (usage : dict (dict bucket)) : dict (dict bucket) :=
  let day := match PyDict.get tk usage with Some day => day | None => [] end in
  PyDict.set tk (PyDict.set cid b day) usage.

(** *** Schema summary for the generator *)

(** One entry of [col_bits].  The serialized schema has no [not_null]
    list, and its column values are type texts: the NN flag and the
    branch for a column given as a dict do not arise. *)
Definition col_bit (pk : list string) (col : string * string) : string :=
  let (col_name, col_type) := col in
  let flags := if mem col_name pk then ["PK"] else [] in
  let flag_txt :=
    if nonempty flags then (" [" ++ String.concat " " flags ++ "]")%string
    else EmptyString in
  (col_name ++ ":" ++ col_type ++ flag_txt)%string.

(** The entry of [fk_bits] for one foreign key, if it has its three
    fields. *)
Definition fk_bit (table_name : string) (fk : Json.fk_json) : list string :=
  let c := Json.column fk in
  let rt := Json.ref_table fk in
  let rc := Json.ref_column fk in
  if (truthy c && truthy rt && truthy rc)%bool
  then [(table_name ++ "." ++ c ++ " -> " ++ rt ++ "." ++ rc)%string]
  else [].

(** The lines appended to [out] for one table. *)
Definition table_lines (table : string * Json.table_json) : list string :=
  let (table_name, meta) := table in
  let pk := Json.primary_key meta in
  let fks := Json.foreign_keys meta in
  let col_bits := firstn 40 (map (col_bit pk) (Json.columns meta)) in
  [("TABLE " ++ table_name)%string;
   if nonempty col_bits
   then ("  COLUMNS: " ++ String.concat ", " col_bits)%string
   else "  COLUMNS: (none)"] ++
  (if nonempty fks then
     let fk_bits := flat_map (fk_bit table_name) (firstn 30 fks) in
     if nonempty fk_bits
     then [("  FKS: " ++ String.concat "; " fk_bits)%string]
     else []
   else []) ++
  [EmptyString].

Definition schema_summary (schema_json : Json.schema_json) : string :=
  strip (String.concat nl (flat_map table_lines (Json.tables schema_json))).

Inductive outcome (A : Type) : Type :=
| Respond (body : A)
| HTTPException (status_code : Z) (detail : string)
| Unhandled (e : exn).
Arguments Respond {A} body.
Arguments HTTPException {A} status_code detail.
Arguments Unhandled {A} e.

(** [require_limit]; [None] when the limit is not reached. *)
Definition require_limit (count limit : Z) (label : string)
  : option (Z * string) :=
  if Z.geb count limit then
    Some (429%Z,
          ("Usage limit reached: " ++ label ++ " (" ++ str limit ++ "/day).")%string)
  else None.

(** *** Schema endpoints *)

(** The body of a successful upload; [status] is [ok]. *)
Record upload_body : Type :=
  { up_request_id : string;
    up_schema_id : string;
    summary_tables : Z;
    summary_columns : Z;
    schema_preview : list string }.

(** The loop of step 3 over the tables, from the running total
    [total_cols]. *)
Fixpoint count_columns (all_tables : dict Json.table_json) (total_cols : Z)
  : Z + Z * string :=
  match all_tables with
  | [] => inl total_cols
  | (tname, tmeta) :: all_tables' =>
      let col_count := len (Json.columns tmeta) in
      let total_cols := (total_cols + col_count)%Z in
      if Z.gtb col_count MAX_COLUMNS_PER_TABLE then
        inr (422%Z,
             ("Table '" ++ tname ++ "' has too many columns (" ++ str col_count ++
              "). Max per table is " ++ str MAX_COLUMNS_PER_TABLE ++ ".")%string)
      else if Z.gtb total_cols MAX_TOTAL_COLUMNS then
        inr (422%Z,
             ("Schema has too many total columns (" ++ str total_cols ++
              "). Max allowed is " ++ str MAX_TOTAL_COLUMNS ++ ".")%string)
      else count_columns all_tables' total_cols
  end.

(** [upload_schema]; [raw] is the content of the uploaded file, taken
    to be ASCII so that decoding leaves it as it is.  The parser does
    not raise, so the handler of its exceptions is left out. *)
Definition upload_schema (env : request_env) (raw : string) (srv : server)
  : outcome upload_body * response * server :=
  let (cid, resp) := get_or_set_client_id env new_response in
  let tk := today_key env in
  let usage := get_usage_bucket tk cid (USAGE srv) in
  let bucket := bucket_of tk cid usage in
  let srv1 := {| SCHEMAS := SCHEMAS srv; schema_files := schema_files srv;
                 USAGE := usage |} in
  let resp := set_header "X-RateLimit-Limit-Schemas" (str MAX_SCHEMAS_PER_DAY) resp in
  let resp :=
    set_header "X-RateLimit-Remaining-Schemas"
      (str (MAX_SCHEMAS_PER_DAY - schemas bucket)) resp in
  match require_limit (schemas bucket) MAX_SCHEMAS_PER_DAY "schema uploads" with
  | Some (code, detail) => (HTTPException code detail, resp, srv1)
  | None =>
  (* 1) Reject upload if file is too large *)
  if Z.gtb (strlen raw) MAX_UPLOAD_BYTES then
    (HTTPException 413
       ("Schema file too large. Max allowed is " ++ str MAX_UPLOAD_MB ++ " MB."),
     resp, srv1)
  else
  let text := strip raw in
  if negb (truthy text) then
    (HTTPException 400
       "Empty schema file. Please upload a schema.sql with CREATE TABLE statements.",
     resp, srv1)
  else
  (* 2) Parse schema *)
  let tables := parse_schema_sql text in
  let schema_json := to_schema_json tables in
  let all_tables := Json.tables schema_json in
  if negb (nonempty all_tables) then
    (HTTPException 422
       "No tables parsed. Ensure schema.sql includes valid CREATE TABLE statements.",
     resp, srv1)
  else
  (* 3) Reject schema if too big *)
  let table_count := len all_tables in
  if Z.gtb table_count MAX_TABLES then
    (HTTPException 422
       ("Schema has too many tables (" ++ str table_count ++
        "). Max allowed is " ++ str MAX_TABLES ++ "."),
     resp, srv1)
  else
  match count_columns all_tables 0 with
  | inr (code, detail) => (HTTPException code detail, resp, srv1)
  | inl total_cols =>
  (* 4) Persist only after all checks pass *)
  let schema_id := uuid4 env 0 in
  let bucket' := {| schemas := schemas bucket + 1; generates := generates bucket |} in
  let srv2 :=
    {| SCHEMAS := PyDict.set schema_id schema_json (SCHEMAS srv);
       schema_files :=
         PyDict.set schema_id (stored_schema schema_json) (schema_files srv);
       USAGE := store_bucket tk cid bucket' usage |} in
  let resp :=
    set_header "X-RateLimit-Remaining-Schemas"
      (str (MAX_SCHEMAS_PER_DAY - schemas bucket')) resp in
  let request_id := uuid4 env 1 in
  (Respond {| up_request_id := request_id;
              up_schema_id := schema_id;
              summary_tables := table_count;
              summary_columns := total_cols;
              schema_preview := firstn 10 (keys all_tables) |},
   resp, srv2)
  end end.

(** The lookup shared by [get_schema], [generate] and [validate]: the
    cache first, then the file, which is cached when it is found.  The
    outer [None] stands for a file that does not hold a schema written
    by [upload_schema]; the handlers are not described there. *)
Definition find_schema (schema_id : string) (srv : server)
  : option (option Json.schema_json * server) :=
  match PyDict.get schema_id (SCHEMAS srv) with
  | Some schema_json => Some (Some schema_json, srv)
  | None =>
      match PyDict.get schema_id (schema_files srv) with
      | Some file_text =>
          match loaded_schema file_text with
          | Some schema_json =>
              Some (Some schema_json,
                    {| SCHEMAS := PyDict.set schema_id schema_json (SCHEMAS srv);
                       schema_files := schema_files srv;
                       USAGE := USAGE srv |})
          | None => None
          end
      | None => Some (None, srv)
      end
  end.

(** The bodies of the lookup endpoints.  [UnknownSchema] is the error
    body with class schema_issue, the message asking to upload the
    schema again and the error unknown_schema_id. *)
Inductive schema_body : Type :=
| SchemaFound (request_id schema_id : string) (schema : Json.schema_json)
| SchemaUnknown (request_id : string).

Definition get_schema (env : request_env) (schema_id : string) (srv : server)
  : option (schema_body * response * server) :=
  let (cid, resp) := get_or_set_client_id env new_response in
  let usage := get_usage_bucket (today_key env) cid (USAGE srv) in
  let srv1 := {| SCHEMAS := SCHEMAS srv; schema_files := schema_files srv;
                 USAGE := usage |} in
  let request_id := uuid4 env 0 in
  match find_schema schema_id srv1 with
  | None => None
  | Some (None, srv2) => Some (SchemaUnknown request_id, resp, srv2)
  | Some (Some schema_json, srv2) =>
      Some (SchemaFound request_id schema_id schema_json, resp, srv2)
  end.

(** *** The generation endpoint *)

Inductive generate_body : Type :=
| Generated (request_id : string) (r : Response)
| GenerateUnknown (request_id : string).

(** [generate]: limits and lookup, then the steps 1 to 3 of
    [App.generate].  The counter is incremented before each of the
    three returns of those steps, and not when an exception leaves
    them. *)
Definition generate_endpoint (env : request_env) (schema_id question : string)
  (srv : server) (w : world)
  : option (outcome generate_body * response * server * world) :=
  let (cid, resp) := get_or_set_client_id env new_response in
  let tk := today_key env in
  let usage := get_usage_bucket tk cid (USAGE srv) in
  let bucket := bucket_of tk cid usage in
  let srv1 := {| SCHEMAS := SCHEMAS srv; schema_files := schema_files srv;
                 USAGE := usage |} in
  let resp :=
    set_header "X-RateLimit-Limit-Generates" (str MAX_GENERATES_PER_DAY) resp in
  let resp :=
    set_header "X-RateLimit-Remaining-Generates"
      (str (MAX_GENERATES_PER_DAY - generates bucket)) resp in
  match require_limit (generates bucket) MAX_GENERATES_PER_DAY
          "query generations" with
  | Some (code, detail) => Some (HTTPException code detail, resp, srv1, w)
  | None =>
  let request_id := uuid4 env 0 in
  let q := strip question in
  if negb (truthy q) then
    Some (HTTPException 400 "Question is required.", resp, srv1, w)
  else if Z.gtb (strlen q) MAX_QUESTION_CHARS then
    Some (HTTPException 422
            ("Question too long. Max is " ++ str MAX_QUESTION_CHARS ++
             " characters."),
          resp, srv1, w)
  else
  match find_schema schema_id srv1 with
  | None => None
  | Some (None, srv2) => Some (Respond (GenerateUnknown request_id), resp, srv2, w)
  | Some (Some schema_json, srv2) =>
      match generate schema_json q w with
      | (Raise e, w') => Some (Unhandled e, resp, srv2, w')
      | (Return r, w') =>
          let bucket' :=
            {| schemas := schemas bucket; generates := generates bucket + 1 |} in
          let srv3 :=
            {| SCHEMAS := SCHEMAS srv2; schema_files := schema_files srv2;
               USAGE := store_bucket tk cid bucket' (USAGE srv2) |} in
          let resp :=
            set_header "X-RateLimit-Remaining-Generates"
              (str (MAX_GENERATES_PER_DAY - generates bucket')) resp in
          Some (Respond (Generated request_id r), resp, srv3, w')
      end
  end end.

(** *** Manual validation endpoint *)

Inductive validate_body : Type :=
| Validated (request_id schema_id : string) (validation : ValidationReport)
| ValidateUnknown (request_id : string).

Definition validate (env : request_env) (schema_id sql : string) (srv : server)
  : option (validate_body * response * server) :=
  let (cid, resp) := get_or_set_client_id env new_response in
  let tk := today_key env in
  let usage := get_usage_bucket tk cid (USAGE srv) in
  let request_id := uuid4 env 0 in
  let resp :=
    set_header "X-RateLimit-Limit-Generates" (str MAX_GENERATES_PER_DAY) resp in
  let usage := get_usage_bucket tk cid usage in
  let bucket := bucket_of tk cid usage in
  let resp :=
    set_header "X-RateLimit-Remaining-Generates"
      (str (MAX_GENERATES_PER_DAY - generates bucket)) resp in
  let srv1 := {| SCHEMAS := SCHEMAS srv; schema_files := schema_files srv;
                 USAGE := usage |} in
  match find_schema schema_id srv1 with
  | None => None
  | Some (None, srv2) => Some (ValidateUnknown request_id, resp, srv2)
  | Some (Some schema_json, srv2) =>
      Some (Validated request_id schema_id
              (validate_against_schema sql schema_json),
            resp, srv2)
  end.

Definition new_server : server :=
  {| SCHEMAS := []; schema_files := []; USAGE := [] |}.

End Server.

(* ================================================================== *)
(** ** Vocabulary of the statements, and the inputs they are tried on *)
(* ================================================================== *)

Module Spec.
Import PyStr PyDict PyJson Re SchemaParser Validator App.

(** [p] occurs in [s]. *)
Definition Substring (p s : string) : Prop :=
  exists pre post, s = (pre ++ p ++ post)%string.

(** [s.isascii()] *)
Fixpoint isascii (s : string) : bool :=
  match s with
  | EmptyString => true
  | String c s' => (N.ltb (code c) 128 && isascii s')%bool
  end.

(** The characters of the alphabet, in order. *)
Definition all_chars : list ascii :=
  map (fun n => ascii_of_N (N.of_nat n)) (seq 0 256).

(** [s] with every character replaced by the one the matcher compares
    it by when it ignores case. *)
Fixpoint folded (s : string) : string :=
  match s with
  | EmptyString => EmptyString
  | String c s' => String (fold_char c) (folded s')
  end.

(** *** Match attempts *)

(** [body] never gives text back: its continuation is entered with no
    more text left than before. *)
Definition shrinks
  (body : mstate -> (mstate -> option mstate) -> option mstate) : Prop :=
  forall st k res,
    body st k = Some res ->
    exists st', k st' = Some res /\
                String.length (rest st') <= String.length (rest st).

(** [m] carries the groups of some successful match attempt. *)
Definition from_attempt (fl : flags) (r : regex) (m : rmatch) : Prop :=
  exists st res, run fl r st Some = Some res /\ groups m = caps res.

(** *** Surface extraction *)

(** The text [extract_sql] splits into statements: stripped, without
    code fences and without a leading sql label. *)
Definition unwrapped (text : string) : string :=
  sub IGNORECASE SQL_LABEL_RE EmptyString
    (sub NOFLAGS FENCE_CLOSE_RE EmptyString
       (sub IGNORECASE FENCE_OPEN_RE EmptyString (strip text))).

(** Replies whose first word the case-insensitive pattern accepts
    although it is neither SELECT nor WITH: [with] spelt with U+0130,
    and [select] spelt with the long s. *)
Definition dotted_with : string :=
  ("w" ++ String dotted_I "th x as (select 1) select 1")%string.

Definition long_s_select : string := String long_s "elect 1".

(** *** The names used inside [validate_against_schema] *)

Definition sql0_of (sql : string) : string := _strip_strings sql.

Definition alias_map_of (sql : string) : dict string :=
  build_alias_map (sql0_of sql).

Definition cols_by_table_of (schema_json : Json.schema_json)
  : dict (list string) :=
  comprehension _lower (fun _ meta => map _lower (keys (Json.columns meta)))
    (Json.tables schema_json).

(** The findings about qualified references when the references are
    [refs]: unknown aliases, unknown columns, unknown identifiers. *)
Definition qualified_findings (sql : string) (schema_json : Json.schema_json)
  (refs : list (string * string)) : qualified_state :=
  qualified_loop (alias_map_of sql) (cols_by_table_of schema_json) refs.

Definition tables_detected_of (sql : string) : list string :=
  sorted_set (values (alias_map_of sql)).

Definition detected_tables_cols_of (sql : string)
  (schema_json : Json.schema_json) : list (string * list string) :=
  map (fun t => (t, get_set t (cols_by_table_of schema_json)))
      (filter (fun t => has_key t (cols_by_table_of schema_json))
              (tables_detected_of sql)).

Definition candidates_of (sql : string) (schema_json : Json.schema_json)
  : list string :=
  filter
    (fun tok_l =>
       (negb (mem tok_l SQL_KEYWORDS || mem tok_l SQL_FUNCTIONS)
        && negb (mem tok_l (keys (alias_map_of sql)))
        && negb (mem tok_l (keys (cols_by_table_of schema_json))))%bool)
    (map _lower (map (group 1) (finditer NOFLAGS IDENT_RE (sql0_of sql)))).

Definition unqualified_findings (sql : string) (schema_json : Json.schema_json)
  : unqualified_state :=
  fold_left
    (unqualified_step (lower (sql0_of sql)) (detected_tables_cols_of sql schema_json))
    (candidates_of sql schema_json) ([], [], []).

(** *** The examples of section 8 *)

Definition employees_ddl : string :=
  "CREATE TABLE employees (emp_id INT PRIMARY KEY, branch_id INT REFERENCES branches(branch_id)); CREATE TABLE branches (branch_id INT PRIMARY KEY, branch_name TEXT);".

Definition employees_schema : Json.schema_json :=
  to_schema_json (parse_schema_sql employees_ddl).

Definition mismatched_join_sql : string :=
  "SELECT e.emp_id FROM employees e JOIN branches b ON e.emp_id = b.branch_name;".

Definition comma_join_sql : string := "SELECT name FROM a, b".

Definition aliased_join_sql : string := "SELECT name FROM a x JOIN b y".

(** A column of an alias that the table does not have. *)
Definition unknown_salary_sql : string := "SELECT e.salary FROM employees e".

(** A column qualified by a table name that the query binds to an
    alias only; [salary] is no column of [employees]. *)
Definition table_qualified_sql : string :=
  "SELECT employees.salary FROM employees e".

(** The same query without the reference. *)
Definition unqualified_sql : string := "SELECT 1 FROM employees e".

(** A join condition whose left side is qualified by a table name that
    the query binds to an alias only. *)
Definition table_qualified_join_sql : string :=
  "SELECT e.emp_id FROM employees e JOIN branches b ON employees.branch_id = b.branch_id".

(** A schema of exactly the two tables [a] and [b], in either order. *)
Definition two_tables (ta tb : Json.table_json) (s : Json.schema_json) : Prop :=
  Json.tables s = [("a", ta); ("b", tb)] \/
  Json.tables s = [("b", tb); ("a", ta)].

Definition named_table : Json.table_json :=
  {| Json.columns := [("id", "INT"); ("name", "TEXT")];
     Json.primary_key := ["id"];
     Json.foreign_keys := [] |}.

Definition two_named_tables : Json.schema_json :=
  {| Json.tables := [("a", named_table); ("b", named_table)] |}.

(** *** Reports handed to the classifier *)

Definition report_of (ucs : list UnknownColumn) (amb : list AmbiguousColumn)
  : ValidationReport :=
  {| tables_detected := ["a"; "b"]; missing_tables := [];
     alias_map := [("x", "a"); ("y", "b")];
     unknown_aliases := []; unknown_columns := ucs;
     unqualified_columns_resolved := [];
     ambiguous_unqualified_columns := amb;
     unknown_identifiers := map column ucs;
     invalid_joins := []; join_warnings := [];
     type_mismatches := []; notes := [] |}.

(** Nothing but an ambiguous column. *)
Definition ambiguous_only : ValidationReport :=
  report_of [] [{| ambiguous_column := "name"; ambiguous_tables := ["a"; "b"] |}].

(** *** The repair loop *)

(** [c] enters [ai_fix_sql] at most [n] times, whatever the world. *)
Definition at_most {A} (n : nat) (c : M A) : Prop :=
  forall w, fix_calls (snd (c w)) <= fix_calls w + n.

(** A generator that answers every request with the same failing
    query. *)
Definition stubborn : nat -> request -> api_reply :=
  fun _ _ => Content mismatched_join_sql.

(** *** JSON values *)

(** The number of calls the decoder makes on the text of a value. *)
Fixpoint size (v : value) : nat :=
  match v with
  | Arr l =>
      S ((fix sizes (l : list value) : nat :=
            match l with
            | [] => 0
            | x :: l' => S (size x + sizes l')
            end) l)
  | Obj l =>
      S ((fix sizes (l : list (string * value)) : nat :=
            match l with
            | [] => 0
            | kx :: l' => S (size (snd kx) + sizes l')
            end) l)
  | _ => 1
  end.

Fixpoint sizes (l : list value) : nat :=
  match l with
  | [] => 0
  | x :: l' => S (size x + sizes l')
  end.

Fixpoint member_sizes (l : list (string * value)) : nat :=
  match l with
  | [] => 0
  | kx :: l' => S (size (snd kx) + member_sizes l')
  end.

(** A value as a Python program can hold it: no dict has a key twice. *)
Fixpoint well_formed (v : value) : Prop :=
  match v with
  | Arr l =>
      (fix all (l : list value) : Prop :=
         match l with
         | [] => True
         | x :: l' => well_formed x /\ all l'
         end) l
  | Obj l =>
      NoDup (map fst l) /\
      (fix all (l : list (string * value)) : Prop :=
         match l with
         | [] => True
         | kx :: l' => well_formed (snd kx) /\ all l'
         end) l
  | _ => True
  end.

Fixpoint all_well_formed (l : list value) : Prop :=
  match l with
  | [] => True
  | x :: l' => well_formed x /\ all_well_formed l'
  end.

Fixpoint members_well_formed (l : list (string * value)) : Prop :=
  match l with
  | [] => True
  | kx :: l' => well_formed (snd kx) /\ members_well_formed l'
  end.

(** The first character of an encoded value ends a run of white space
    and closes nothing. *)
Definition head_ok (c : ascii) : Prop :=
  is_json_space c = false /\ Ascii.eqb c "]" = false /\ Ascii.eqb c "}" = false.

(** Induction on values, with the hypothesis for every item of a list
    and every member of a dict. *)
Fixpoint value_induction (P : value -> Prop)
  (HNull : P Null) (HBool : forall b, P (Bool b)) (HStr : forall s, P (Str s))
  (HArr : forall l, Forall P l -> P (Arr l))
  (HObj : forall l, Forall (fun kx => P (snd kx)) l -> P (Obj l))
  (v : value) : P v :=
  match v with
  | Null => HNull
  | Bool b => HBool b
  | Str s => HStr s
  | Arr l =>
      HArr l
        ((fix all (l : list value) : Forall P l :=
            match l with
            | [] => Forall_nil P
            | x :: l' =>
                Forall_cons x (value_induction P HNull HBool HStr HArr HObj x)
                  (all l')
            end) l)
  | Obj l =>
      HObj l
        ((fix all (l : list (string * value)) : Forall (fun kx => P (snd kx)) l :=
            match l with
            | [] => Forall_nil _
            | kx :: l' =>
                Forall_cons kx
                  (value_induction P HNull HBool HStr HArr HObj (snd kx))
                  (all l')
            end) l)
  end.

(** *** Schema models and serialized schemas *)

(** No table twice, and no column twice in a table: what a Python dict
    guarantees of its keys. *)
Definition keys_distinct (j : Json.schema_json) : Prop :=
  NoDup (keys (Json.tables j)) /\
  Forall (fun kt => NoDup (keys (Json.columns (snd kt)))) (Json.tables j).

(** What every schema model built by the extractor satisfies: each
    table is filed under its own name, and no key occurs twice. *)
Definition extracted (tables : dict TableMeta) : Prop :=
  NoDup (keys tables) /\
  Forall (fun kt => name (snd kt) = fst kt /\ NoDup (keys (columns (snd kt))))
         tables.

Definition fk_fields (fk : ForeignKey) : string * string * string :=
  (SchemaParser.column fk, ref_table fk, ref_column fk).

Definition fk_json_fields (fk : Json.fk_json) : string * string * string :=
  (Json.column fk, Json.ref_table fk, Json.ref_column fk).

(** Field-for-field equality of a schema model and a serialized schema:
    the same tables in the same order, each with the same name, columns
    and raw types, primary key and foreign keys, in the same order. *)
Definition same_model (tables : dict TableMeta) (j : Json.schema_json) : Prop :=
  Forall2
    (fun (kt : string * TableMeta) (kj : string * Json.table_json) =>
       fst kj = fst kt /\
       fst kj = name (snd kt) /\
       Json.columns (snd kj) = columns (snd kt) /\
       Json.primary_key (snd kj) = primary_key (snd kt) /\
       map fk_json_fields (Json.foreign_keys (snd kj)) =
         map fk_fields (foreign_keys (snd kt)))
    tables (Json.tables j).

End Spec.

(* ================================================================== *)
(** ** More vocabulary: reports, the extractor, the controller, the
       endpoints *)
(* ================================================================== *)

Module Notions.
Import PyStr PyDict Re SchemaParser Validator App Server Spec.

(** *** Validation reports *)

Definition type_by_table_of (schema_json : Json.schema_json)
  : dict (dict string) :=
  comprehension _lower
    (fun _ meta =>
       comprehension _lower (fun _ tp => normalize_type tp) (Json.columns meta))
    (Json.tables schema_json).

(** The type findings before the cut at fifty. *)
Definition type_findings (sql : string) (schema_json : Json.schema_json)
  : list TypeMismatch :=
  fold_left (join_type_step (alias_map_of sql) (type_by_table_of schema_json))
    (finditer IGNORECASE ON_EQ_RE (sql0_of sql))
    (fold_left (like_step (alias_map_of sql) (type_by_table_of schema_json))
       (finditer IGNORECASE QUAL_LIKE_RE (sql0_of sql))
       (fold_left (comparison_step (alias_map_of sql) (type_by_table_of schema_json))
          (finditer IGNORECASE QUAL_COMP_LIT_RE (sql0_of sql)) [])).

(** The pairs (alias, table) that the FROM and JOIN clauses of a text
    bind, in the order of the text. *)
Definition bindings (sql : string) : list (string * string) :=
  map (fun m => (_lower (group 3 m), _lower (group 2 m)))
      (finditer IGNORECASE FROM_JOIN_RE sql).

(** The table of the last pair for [a]. *)
Definition last_binding (a : string) (bs : list (string * string))
  : option string :=
  fold_left (fun found b => if String.eqb (fst b) a then Some (snd b) else found)
    bs None.

(** The schema declares a foreign key from [t1.c1] to [t2.c2], names
    compared without regard to case. *)
Definition declared_fk (schema_json : Json.schema_json) (t1 c1 t2 c2 : string)
  : Prop :=
  exists t meta fk,
    In (t, meta) (Json.tables schema_json) /\ In fk (Json.foreign_keys meta) /\
    lower t = t1 /\ lower (Json.column fk) = c1 /\
    lower (Json.ref_table fk) = t2 /\ lower (Json.ref_column fk) = c2.

(** What an entry of [type_mismatches] says about the two types it
    carries. *)
Definition real_mismatch (m : TypeMismatch) : Prop :=
  match m with
  | LiteralMismatch k _ ct lt _ =>
      (k = "comparison" /\ ct <> "numeric" /\ lt <> "null") \/
      (k = "equality" /\ ct <> lt /\
       In ct ["numeric"; "text"; "boolean"] /\
       In lt ["numeric"; "text"; "boolean"]) \/
      (k = "like" /\ ct <> "text" /\ lt = "text")
  | JoinMismatch k _ t1 t2 _ =>
      k = "join" /\ t1 <> t2 /\ t1 <> "other" /\ t2 <> "other"
  end.

(** The invariant of the loop over the candidates, for the tables
    [dtc] it looks the candidates up in. *)
Definition owned (dtc : list (string * list string)) (st : unqualified_state)
  : Prop :=
  let '(seen, resolved, ambiguous) := st in
  (forall rc, In rc resolved ->
     In (resolved_column rc) seen /\
     map fst (filter (fun tc => mem (resolved_column rc) (snd tc)) dtc) =
       [resolved_table rc]) /\
  (forall ac, In ac ambiguous ->
     In (ambiguous_column ac) seen /\
     map fst (filter (fun tc => mem (ambiguous_column ac) (snd tc)) dtc) =
       ambiguous_tables ac /\
     2 <= List.length (ambiguous_tables ac)) /\
  NoDup (map resolved_column resolved) /\
  NoDup (map ambiguous_column ambiguous).

(** What every entry of [invalid_joins] says. *)
Definition no_fk (s : Json.schema_json) (am : dict string) (ij : InvalidJoin)
  : Prop :=
  exists a1 a2 t1 c1 t2 c2,
    PyDict.get a1 am = Some t1 /\ PyDict.get a2 am = Some t2 /\
    left ij = (lower t1 ++ "." ++ c1)%string /\
    right ij = (lower t2 ++ "." ++ c2)%string /\
    reason ij = "No FK relationship found for this join condition" /\
    ~ declared_fk s (lower t1) c1 (lower t2) c2 /\
    ~ declared_fk s (lower t2) c2 (lower t1) c1.

(** The last loop of the resolver: the tokens seen that are neither
    resolved nor ambiguous are added to the unknown identifiers of the
    qualified checks. *)
Definition unknown_identifiers_of (sql : string) (schema_json : Json.schema_json)
  : list string :=
  let '(seen, resolved, ambiguous) := unqualified_findings sql schema_json in
  fold_left
    (fun unknown_identifiers tok_l =>
       if (mem tok_l (map resolved_column resolved)
           || mem tok_l (map ambiguous_column ambiguous))%bool
       then unknown_identifiers
       else append_new tok_l unknown_identifiers)
    seen
    (snd (qualified_findings sql schema_json (qualified_refs (sql0_of sql)))).

(** The entry of [unknown_columns] for a qualified reference [a.c] of
    the text: the qualifier is bound as an alias, the entry names the
    table it is bound to, and the schema gives that table no such
    column, up to case. *)
Definition undeclared_reference (sql : string) (schema_json : Json.schema_json)
  (uc : UnknownColumn) : Prop :=
  exists a c,
    In (a, c) (qualified_refs (sql0_of sql)) /\
    alias uc = lower a /\ column uc = lower c /\
    PyDict.get (lower a) (alias_map_of sql) = Some (table uc) /\
    ~ In (lower c) (get_set (table uc) (cols_by_table_of schema_json)).

(** [tok] occurs in the lowercased text as the column of a qualified
    reference. *)
Definition used_qualified (sql : string) (tok : string) : Prop :=
  search NOFLAGS (used_qualified_re tok) (lower (sql0_of sql)) <> None.

(** *** The extractor *)

(** [body] only moves forward in the text: its continuation is entered
    on a suffix of the text it was given. *)
Definition advances
  (body : mstate -> (mstate -> option mstate) -> option mstate) : Prop :=
  forall st k res,
    body st k = Some res ->
    exists st', k st' = Some res /\
                exists read, rest st = (read ++ rest st')%string.

(** A text without quote and parenthesis. *)
Definition plain (s : string) : Prop :=
  has_char "'" s = false /\ has_char "(" s = false /\ has_char ")" s = false.

(** [body[i - 1]] after the loop has read [s]. *)
Definition before_after (o : option ascii) (s : string) : option ascii :=
  match last_char s with Some c => Some c | None => o end.

(** *** The controller *)

(** [c] makes at most [n] completion requests, whatever the world. *)
Definition api_at_most {A} (n : nat) (c : M A) : Prop :=
  forall w, api_calls (snd (c w)) <= api_calls w + n.

(** Every reply of the generator extracts to a query that the
    classifier blames on the generator. *)
Definition keeps_failing (schema_json : Json.schema_json) (q : string)
  (w : world) : Prop :=
  forall n r, exists raw,
    oracle w n r = Content raw /\
    extract_sql raw <> EmptyString /\
    class (classify_issue
             (validate_against_schema (extract_sql raw) schema_json)
             q schema_json) = "ai_issue".

(** One statement as the extractor lets it through: a semicolon last
    and nowhere else, and a first word that [^(select|with)\b] accepts
    without regard to case, which for an ASCII statement is SELECT or
    WITH in some letter case. *)
Definition single_statement (sql : string) : Prop :=
  (exists body, sql = (body ++ ";")%string /\ has_char ";" body = false) /\
  rematch IGNORECASE SELECT_WITH_RE sql <> None /\
  (isascii sql = true ->
   startswith "select" (lower sql) = true \/
   startswith "with" (lower sql) = true).

(** A generator whose first reply is a failing query and that is rate
    limited from then on. *)
Definition exhausted_after_one : nat -> request -> api_reply :=
  fun n _ =>
    match n with
    | O => Content mismatched_join_sql
    | _ => RateLimited "quota"
    end.

(** [c] enters [ai_fix_sql] exactly [n] times, whatever the world and
    whether it returns or raises. *)
Definition repairs {A} (n : nat) (c : M A) : Prop :=
  forall w, fix_calls (snd (c w)) = fix_calls w + n.

Definition always_rate_limited : nat -> request -> api_reply :=
  fun _ _ => RateLimited "quota".

(** *** The endpoints *)

(** The client a request is counted for. *)
Definition client_of (env : request_env) : string :=
  fst (get_or_set_client_id env new_response).

(** The counters of the client of [env] on its day. *)
Definition counters (env : request_env) (srv : server) : bucket :=
  bucket_of (today_key env) (client_of env) (USAGE srv).

Definition total_columns (tables : dict Json.table_json) : Z :=
  fold_right (fun kt n => (len (Json.columns (snd kt)) + n)%Z) 0%Z tables.

(** The limits of step 3 of [upload_schema], with at least one table. *)
Definition within_limits (schema_json : Json.schema_json) : Prop :=
  (1 <= len (Json.tables schema_json) <= MAX_TABLES)%Z /\
  Forall (fun kt => (len (Json.columns (snd kt)) <= MAX_COLUMNS_PER_TABLE)%Z)
         (Json.tables schema_json) /\
  (total_columns (Json.tables schema_json) <= MAX_TOTAL_COLUMNS)%Z.

(** The schema an upload of [raw] is about. *)
Definition uploaded (raw : string) : Json.schema_json :=
  to_schema_json (parse_schema_sql (strip raw)).

(** The process started again: the files are kept, the cache and the
    counters are lost. *)
Definition restarted (srv : server) : server :=
  {| SCHEMAS := []; schema_files := schema_files srv; USAGE := [] |}.

(** A table cut down to what [schema_summary] reads of it: its first
    forty columns and its first thirty foreign keys. *)
Definition cut_table (table : string * Json.table_json)
  : string * Json.table_json :=
  (fst table,
   {| Json.columns := firstn 40 (Json.columns (snd table));
      Json.primary_key := Json.primary_key (snd table);
      Json.foreign_keys := firstn 30 (Json.foreign_keys (snd table)) |}).

Definition cut_schema (schema_json : Json.schema_json) : Json.schema_json :=
  {| Json.tables := map cut_table (Json.tables schema_json) |}.

(** *** Requests and servers the statements are tried on *)

Definition first_visit : request_env :=
  {| today_key := "2025-01-01"; cookie := None; token_urlsafe := "client-1";
     uuid4 := fun n => match n with O => "uuid-a" | _ => "uuid-b" end |}.

Definition return_visit : request_env :=
  {| today_key := "2025-01-01"; cookie := Some "client-1";
     token_urlsafe := "client-2";
     uuid4 := fun n => match n with O => "uuid-c" | _ => "uuid-d" end |}.

(** The server after the DDL text of section 8 has been uploaded. *)
Definition with_employees : server :=
  snd (upload_schema first_visit employees_ddl new_server).

(** A server whose only client has used up the uploads of the day. *)
Definition at_the_limit : server :=
  {| SCHEMAS := []; schema_files := [];
     USAGE := [("2025-01-01",
                [("client-1", {| schemas := 5; generates := 0 |})])] |}.

End Notions.

(* ================================================================== *)
(** ** Facts about the string primitives *)
(* ================================================================== *)

Module PyStrFacts.
Import PyStr Spec.

Lemma append_assoc (a b c : string) : ((a ++ b) ++ c = a ++ (b ++ c))%string.
Proof. induction a as [|x a IH]; simpl; [reflexivity | now rewrite IH]. Qed.

Lemma append_nil_r (s : string) : (s ++ EmptyString)%string = s.
Proof. induction s as [|c s IH]; simpl; [reflexivity | now rewrite IH]. Qed.

Lemma length_append (a b : string) :
  String.length (a ++ b) = String.length a + String.length b.
Proof. induction a as [|x a IH]; simpl; [reflexivity | now rewrite IH]. Qed.

Lemma has_char_lstrip c s : has_char c s = false -> has_char c (lstrip s) = false.
Proof.
  induction s as [|d s IH]; simpl; intros H; [reflexivity|].
  apply orb_false_elim in H as [Hd Hs].
  destruct (is_space d); [auto|]. simpl. now rewrite Hd, Hs.
Qed.

Lemma has_char_rstrip c s : has_char c s = false -> has_char c (rstrip s) = false.
Proof.
  induction s as [|d s IH]; simpl; intros H; [reflexivity|].
  apply orb_false_elim in H as [Hd Hs]. specialize (IH Hs).
  destruct (rstrip s) as [|e r].
  - destruct (is_space d); simpl; [reflexivity|]. now rewrite Hd.
  - simpl in *. now rewrite Hd, IH.
Qed.

Lemma has_char_strip c s : has_char c s = false -> has_char c (strip s) = false.
Proof. intros H. unfold strip. now apply has_char_rstrip, has_char_lstrip. Qed.

(** The pieces of a split do not contain the separator. *)
Lemma split_no_sep sep s :
  forall p, In p (split sep s) -> has_char sep p = false.
Proof.
  induction s as [|c s IH]; simpl; intros p Hp.
  - destruct Hp as [<-|[]]. reflexivity.
  - destruct (Ascii.eqb c sep) eqn:E.
    + destruct Hp as [<-|Hp]; [reflexivity | auto].
    + destruct (split sep s) as [|q qs] eqn:Eq.
      * destruct Hp as [<-|[]]. simpl. rewrite Ascii.eqb_sym, E. reflexivity.
      * destruct Hp as [<-|Hp].
        -- simpl. rewrite Ascii.eqb_sym, E. simpl. apply IH. now left.
        -- apply IH. now right.
Qed.

(** A stripped text is empty or begins with a character that is not
    white space. *)
Lemma lstrip_head s :
  match lstrip s with
  | EmptyString => True
  | String c _ => is_space c = false
  end.
Proof.
  induction s as [|c s IH]; simpl; [exact I|].
  destruct (is_space c) eqn:E; [exact IH | exact E].
Qed.

Lemma rstrip_head c s :
  rstrip (String c s) = EmptyString \/ exists r, rstrip (String c s) = String c r.
Proof.
  simpl. destruct (rstrip s).
  - destruct (is_space c); [now left | right; now eexists].
  - right; now eexists.
Qed.

Lemma strip_head s :
  match strip s with
  | EmptyString => True
  | String c _ => is_space c = false
  end.
Proof.
  unfold strip. pose proof (lstrip_head s) as H.
  destruct (lstrip s) as [|c t]; [exact I|].
  destruct (rstrip_head c t) as [-> | [r ->]]; [exact I | exact H].
Qed.

Lemma rstrip_snoc s c :
  is_space c = false ->
  rstrip (s ++ String c EmptyString) = (s ++ String c EmptyString)%string.
Proof.
  intros Hc. induction s as [|d s IH]; simpl.
  - now rewrite Hc.
  - rewrite IH. destruct s; reflexivity.
Qed.

(** Stripping leaves alone a text that begins and ends with characters
    that are not white space. *)
Lemma strip_fixed c r d :
  is_space c = false -> is_space d = false ->
  strip (String c r ++ String d EmptyString) =
  (String c r ++ String d EmptyString)%string.
Proof.
  intros Hc Hd. unfold strip. simpl lstrip. rewrite Hc.
  apply (rstrip_snoc (String c r) d Hd).
Qed.

Lemma drop_last_snoc s c : drop_last (s ++ String c EmptyString) = s.
Proof.
  induction s as [|d s IH]; simpl; [reflexivity|].
  rewrite IH. destruct s; reflexivity.
Qed.

(** The alphabet: every character is the character of its code
    point, and the characters are numbered in the order of their code
    points. *)
Lemma of_code_point_code_point c : of_code_point (code_point c) = Some c.
Proof. destruct c as [[] [] [] [] [] [] [] []]; reflexivity. Qed.

Lemma code_point_order c d :
  (code c < code d)%N <-> (code_point c < code_point d)%N.
Proof.
  unfold code_point. cbv zeta.
  pose proof (N_ascii_bounded c) as Hc. pose proof (N_ascii_bounded d) as Hd.
  fold (code c) in Hc. fold (code d) in Hd.
  repeat match goal with
         | |- context [N.ltb ?a ?b] => destruct (N.ltb_spec a b)
         | |- context [N.eqb ?a ?b] => destruct (N.eqb_spec a b)
         end; lia.
Qed.

(** Lowercasing goes character by character, and a second time
    changes nothing. *)
Lemma lower_app a b : lower (a ++ b) = (lower a ++ lower b)%string.
Proof.
  induction a as [|c a IH]; cbn [append lower]; [reflexivity|].
  now rewrite IH, append_assoc.
Qed.

Lemma lower_str_idem c : lower (lower_str c) = lower_str c.
Proof. destruct c as [[] [] [] [] [] [] [] []]; reflexivity. Qed.

Lemma lower_idem s : lower (lower s) = lower s.
Proof.
  induction s as [|c s IH]; cbn [lower]; [reflexivity|].
  now rewrite lower_app, lower_str_idem, IH.
Qed.

Lemma lower_str_cons c : exists d r, lower_str c = String d r.
Proof. unfold lower_str. destruct (Ascii.eqb c dotted_I); eexists; eexists; reflexivity. Qed.

(** On ASCII the matcher compares characters by their lower case. *)
Lemma lower_str_ascii c :
  N.ltb (code c) 128 = true ->
  lower_str c = String (Re.fold_char c) EmptyString.
Proof. destruct c as [[] [] [] [] [] [] [] []]; (discriminate || reflexivity). Qed.

Lemma folded_ascii s : isascii s = true -> folded s = lower s.
Proof.
  induction s as [|c s IH]; cbn [isascii folded lower]; [reflexivity|].
  intros H. apply andb_prop in H as [Hc Hs].
  now rewrite (lower_str_ascii c Hc), (IH Hs).
Qed.

(** A character that the matcher takes for [s] or [w] is not the first
    letter of a disallowed keyword, in either case. *)
Lemma fold_char_s_or_w c :
  Re.fold_char c = "s"%char \/ Re.fold_char c = "w"%char ->
  lower_str c = "s" \/ lower_str c = String long_s EmptyString \/
  lower_str c = "w".
Proof.
  destruct c as [[] [] [] [] [] [] [] []]; vm_compute;
    intros [H | H]; try discriminate H; auto.
Qed.

Lemma startswith_cons a p s :
  startswith (String a p) s = true -> exists s', s = String a s'.
Proof.
  destruct s as [|b s]; [discriminate|]. cbn [startswith]. intros H.
  apply andb_prop in H as [Hc _]. apply Ascii.eqb_eq in Hc. subst b.
  now exists s.
Qed.

Lemma startswith_iff p s :
  startswith p s = true <-> exists post, s = (p ++ post)%string.
Proof.
  revert s; induction p as [|a p IH]; intros s.
  - split; [intros _; now exists s | reflexivity].
  - destruct s as [|b s]; cbn [startswith].
    + split; [discriminate | intros [post H]; discriminate].
    + rewrite andb_true_iff, Ascii.eqb_eq, IH. split.
      * intros [-> [post ->]]. now exists post.
      * intros [post H]. injection H as -> ->. split; [reflexivity | now exists post].
Qed.

(** The substring test decides [Substring]. *)
Lemma contains_iff p s : contains p s = true <-> Substring p s.
Proof.
  unfold Substring. induction s as [|c s IH].
  - cbn [contains]. rewrite orb_false_r, startswith_iff. split.
    + intros [post H]. now exists EmptyString, post.
    + intros [pre [post H]]. destruct pre; [now exists post | discriminate].
  - cbn [contains]. rewrite orb_true_iff, startswith_iff, IH. split.
    + intros [[post H] | [pre [post H]]].
      * now exists EmptyString, post.
      * exists (String c pre), post. now rewrite H.
    + intros [pre [post H]]. destruct pre as [|d pre].
      * left. now exists post.
      * right. injection H as _ ->. now exists pre, post.
Qed.

Lemma truthy_iff s : truthy s = true <-> s <> EmptyString.
Proof. destruct s; simpl; split; congruence. Qed.

End PyStrFacts.

(* ================================================================== *)
(** ** Facts about dictionaries *)
(* ================================================================== *)

Module PyDictFacts.
Import PyDict.

Lemma has_key_iff {V} k (d : dict V) : has_key k d = true <-> In k (keys d).
Proof.
  unfold has_key, keys. induction d as [|[k' v] d IH]; simpl.
  - split; [discriminate | intros []].
  - destruct (String.eqb_spec k' k) as [-> | Hne].
    + split; [now left | reflexivity].
    + rewrite IH. split; [now right | intros [H | H]; [contradiction | exact H]].
Qed.

Lemma keys_set {V} k (v : V) d x :
  In x (keys (set k v d)) <-> x = k \/ In x (keys d).
Proof.
  unfold keys. induction d as [|[k' v'] d IH]; simpl.
  - split; [intros [<- | []]; now left | intros [-> | []]; now left].
  - destruct (String.eqb_spec k' k) as [-> | Hne]; simpl.
    + split; [intros [<- | H]; [now left | right; now right] |
              intros [-> | [<- | H]]; [now left | now left | now right]].
    + rewrite IH. split.
      * intros [<- | [-> | H]]; [right; now left | now left | right; now right].
      * intros [-> | [<- | H]]; [right; now left | now left | right; now right].
Qed.

Lemma keys_comprehension_from {V W} (f : string -> string)
  (g : string -> V -> W) (d : dict V) :
  forall acc x,
    In x (keys (fold_left (fun acc kv => set (f (fst kv)) (g (fst kv) (snd kv)) acc)
                          d acc)) <->
    In x (keys acc) \/ exists k, In k (keys d) /\ f k = x.
Proof.
  induction d as [|[k v] d IH]; intros acc x; simpl.
  - split; [now left | intros [H | (k & [] & _)]; exact H].
  - rewrite IH, keys_set. split.
    + intros [[-> | H] | (k0 & Hk & <-)].
      * right. exists k. split; [now left | reflexivity].
      * now left.
      * right. exists k0. split; [now right | reflexivity].
    + intros [H | (k0 & [<- | Hk] & <-)].
      * left. now right.
      * left. now left.
      * right. now exists k0.
Qed.

(** The keys of a comprehension are the images of the keys it ranges
    over. *)
Lemma keys_comprehension {V W} (f : string -> string) (g : string -> V -> W)
  (d : dict V) x :
  In x (keys (comprehension f g d)) <-> exists k, In k (keys d) /\ f k = x.
Proof.
  unfold comprehension. rewrite keys_comprehension_from. simpl.
  split; [intros [[] | H]; exact H | now right].
Qed.

(** Assignment files the value under the key it was given. *)
Lemma set_sound {V} (P : string -> V -> Prop) k (v : V) d :
  P k v -> (forall k' v', In (k', v') d -> P k' v') ->
  forall k' v', In (k', v') (set k v d) -> P k' v'.
Proof.
  intros Hkv. induction d as [|[k0 v0] d IH]; simpl; intros Hd k' v' Hin.
  - destruct Hin as [[= <- <-] | []]. exact Hkv.
  - destruct (String.eqb_spec k0 k) as [-> | Hne].
    + destruct Hin as [[= <- <-] | Hin]; [exact Hkv | apply Hd; now right].
    + destruct Hin as [[= <- <-] | Hin]; [apply Hd; now left|].
      apply IH; [intros; apply Hd; now right | exact Hin].
Qed.

Lemma nodup_keys_set {V} k (v : V) d :
  NoDup (keys d) -> NoDup (keys (set k v d)).
Proof.
  induction d as [|[k0 v0] d IH]; cbn [set]; intros H.
  - repeat constructor. intros [].
  - destruct (String.eqb_spec k0 k) as [-> | Hne]; [exact H|].
    unfold keys in *. cbn [map fst] in *. inversion H as [|? ? Hk Hd]; subst.
    constructor; [|now apply IH].
    intros Hin. apply (keys_set k v d k0) in Hin as [-> | Hin];
      [now apply Hne | now apply Hk].
Qed.

Lemma set_fresh {V} k (v : V) d : ~ In k (keys d) -> set k v d = d ++ [(k, v)].
Proof.
  induction d as [|[k0 v0] d IH]; intros Hk; [reflexivity|].
  cbn [set]. destruct (String.eqb_spec k0 k) as [-> | Hne].
  - exfalso. apply Hk. now left.
  - cbn [app]. rewrite IH; [reflexivity|]. intros Hin. apply Hk. now right.
Qed.

Lemma fold_left_invariant {A B} (P : A -> Prop) (f : A -> B -> A) l :
  (forall a x, P a -> P (f a x)) -> forall a, P a -> P (fold_left f l a).
Proof.
  intros Hf. induction l as [|x l IH]; intros a Ha; cbn [fold_left]; [exact Ha|].
  apply IH, Hf, Ha.
Qed.

End PyDictFacts.

(* ================================================================== *)
(** ** Facts about the matcher *)
(* ================================================================== *)

Module ReFacts.
Import PyStr Re Spec.

Lemma step_char_some ok st k res :
  step_char ok st k = Some res ->
  exists x s', rest st = String x s' /\ ok x = true /\
    k {| rest := s'; prev := Some x; caps := caps st |} = Some res.
Proof.
  unfold step_char. destruct (rest st) as [|x s']; [discriminate|].
  destruct (ok x) eqn:E; [|discriminate]. intros H. now exists x, s'.
Qed.

(** A literal matched without regard to case is a prefix of the text,
    up to the characters the matcher takes for the same. *)
Lemma run_Lit_ignorecase w :
  forall st k res,
    run IGNORECASE (Lit w) st k = Some res ->
    startswith (folded w) (folded (rest st)) = true.
Proof.
  induction w as [|c w IH]; intros st k res H; [reflexivity|].
  destruct w as [|c' w'].
  - cbn [Lit run] in H. apply step_char_some in H as (x & s' & -> & Hx & _).
    unfold chr_match in Hx. cbn [ignorecase IGNORECASE] in Hx.
    cbn [folded startswith]. now rewrite Hx.
  - change (Lit (String c (String c' w')))
      with (Cat (Chr c) (Lit (String c' w'))) in H.
    cbn [run] in H. apply step_char_some in H as (x & s' & Hr & Hx & Hk).
    apply IH in Hk. rewrite Hr. unfold chr_match in Hx.
    cbn [ignorecase IGNORECASE] in Hx. cbn [rest] in Hk.
    change (folded (String c (String c' w')))
      with (String (fold_char c) (folded (String c' w'))).
    change (folded (String x s')) with (String (fold_char x) (folded s')).
    cbn [startswith]. rewrite Hx. exact Hk.
Qed.

Lemma all_chars_complete c : In c all_chars.
Proof.
  unfold all_chars. apply in_map_iff. exists (N.to_nat (N_of_ascii c)). split.
  - rewrite N2Nat.id. apply ascii_N_embedding.
  - apply in_seq. pose proof (N_ascii_bounded c). lia.
Qed.

Lemma for_all_chars (P : ascii -> bool) :
  forallb P all_chars = true -> forall c, P c = true.
Proof.
  intros H c. rewrite forallb_forall in H. apply H, all_chars_complete.
Qed.

(** The characters that [case_variants] lists are those the matcher
    takes for the same, so with [IGNORECASE] a set of one character
    accepts what the character accepts. *)
Lemma case_variants_fold x y :
  existsb (Ascii.eqb y) (case_variants x) =
  Ascii.eqb (fold_char y) (fold_char x).
Proof.
  apply eqb_true_iff. revert y. apply (for_all_chars (fun y => Bool.eqb _ _)).
  revert x.
  apply (for_all_chars (fun x => forallb (fun y => Bool.eqb _ _) all_chars)).
  vm_compute. reflexivity.
Qed.

Lemma one_char_class c x :
  cls_match IGNORECASE false [COne c] x = chr_match IGNORECASE c x.
Proof.
  apply eqb_true_iff. revert x. apply (for_all_chars (fun x => Bool.eqb _ _)).
  revert c.
  apply (for_all_chars (fun c => forallb (fun x => Bool.eqb _ _) all_chars)).
  vm_compute. reflexivity.
Qed.

Lemma run_Alt fl r1 r2 st k res :
  run fl (Alt r1 r2) st k = Some res ->
  run fl r1 st k = Some res \/ run fl r2 st k = Some res.
Proof.
  simpl. destruct (run fl r1 st k); intros H; [left | right]; assumption.
Qed.

Lemma star_loop_le greedy body k :
  shrinks body ->
  forall fuel st res,
    star_loop greedy body k fuel st = Some res ->
    exists st', k st' = Some res /\
                String.length (rest st') <= String.length (rest st).
Proof.
  intros Hbody. induction fuel as [|fuel IH]; intros st res H.
  - exists st. split; [exact H | lia].
  - cbn [star_loop] in H. cbv zeta in H.
    assert (Hagain :
      forall res',
        body st (fun st1 =>
          if Nat.ltb (String.length (rest st1)) (String.length (rest st))
          then star_loop greedy body k fuel st1 else None) = Some res' ->
        exists st', k st' = Some res' /\
                    String.length (rest st') <= String.length (rest st)).
    { intros res' Ha. apply Hbody in Ha as (st1 & Ha & Hl1).
      destruct (Nat.ltb _ _); [|discriminate].
      apply IH in Ha as (st' & Ha & Hl'). exists st'. split; [exact Ha | lia]. }
    destruct greedy.
    + destruct (body st _) as [res'|] eqn:Ea.
      * injection H as <-. now apply Hagain.
      * exists st. split; [exact H | lia].
    + destruct (k st) as [res'|] eqn:Ek.
      * injection H as <-. exists st. split; [exact Ek | lia].
      * now apply Hagain.
Qed.

(** A match never gives text back: whatever the pattern, the
    continuation is entered with no more text left than before. *)
Lemma run_le fl r : shrinks (run fl r).
Proof.
  induction r as [| c | | neg items | r1 IH1 r2 IH2 | r1 IH1 r2 IH2
                 | greedy r1 IH1 | n r1 IH1 | | | | c];
    intros st k res H.
  - exists st. split; [exact H | lia].
  - cbn [run] in H. apply step_char_some in H as (x & s' & Hr & _ & Hk).
    eexists. split; [exact Hk|]. rewrite Hr. simpl. lia.
  - cbn [run] in H. apply step_char_some in H as (x & s' & Hr & _ & Hk).
    eexists. split; [exact Hk|]. rewrite Hr. simpl. lia.
  - cbn [run] in H. apply step_char_some in H as (x & s' & Hr & _ & Hk).
    eexists. split; [exact Hk|]. rewrite Hr. simpl. lia.
  - cbn [run] in H. apply IH1 in H as (st1 & H & Hl1).
    apply IH2 in H as (st2 & H & Hl2). exists st2. split; [exact H | lia].
  - apply run_Alt in H as [H | H]; [now apply IH1 | now apply IH2].
  - cbn [run] in H. eapply star_loop_le; eassumption.
  - cbn [run] in H. apply IH1 in H as (st1 & H & Hl1).
    eexists. split; [exact H | exact Hl1].
  - cbn [run] in H. destruct (prev st); [discriminate|].
    exists st. split; [exact H | lia].
  - cbn [run] in H. exists st. split; [|lia].
    destruct (rest st) as [|c s]; [exact H|].
    destruct c as [[] [] [] [] [] [] [] []]; try discriminate.
    destruct s; [exact H | discriminate].
  - cbn [run] in H. destruct (xorb _ _); [|discriminate].
    exists st. split; [exact H | lia].
  - cbn [run] in H. exists st. split; [|lia].
    destruct (prev st) as [d|]; [|exact H].
    destruct (Ascii.eqb c d); [discriminate | exact H].
Qed.

Lemma run_Cat fl r1 r2 st k :
  run fl (Cat r1 r2) st k = run fl r1 st (fun st1 => run fl r2 st1 k).
Proof. reflexivity. Qed.

Lemma run_Cls fl neg items st k :
  run fl (Cls neg items) st k = step_char (cls_match fl neg items) st k.
Proof. reflexivity. Qed.

Lemma run_Chr fl c st k :
  run fl (Chr c) st k = step_char (chr_match fl c) st k.
Proof. reflexivity. Qed.

Lemma run_Wb fl st k :
  run fl Wb st k =
  if xorb (word_opt (prev st)) (word_opt (first_char (rest st)))
  then k st else None.
Proof. reflexivity. Qed.

Lemma run_Grp fl n r st k :
  run fl (Grp n r) st k =
  run fl r st (fun st1 =>
    k {| rest := rest st1; prev := prev st1;
         caps := (n, consumed st st1) :: caps st1 |}).
Proof. reflexivity. Qed.

Lemma consumed_nonempty st st' :
  String.length (rest st') < String.length (rest st) ->
  consumed st st' <> EmptyString.
Proof.
  unfold consumed. intros H.
  destruct (rest st) as [|c s]; [simpl in H; lia|].
  destruct (String.length (String c s) - String.length (rest st')) eqn:E;
    [lia|].
  discriminate.
Qed.

(** Every match of a scan carries the groups of some match attempt. *)
Lemma match_at_attempt fl r p s m :
  match_at fl r p s = Some m -> from_attempt fl r m.
Proof.
  unfold match_at. destruct (run fl r _ Some) as [st1|] eqn:E; [|discriminate].
  intros [= <-]. eexists; eexists. split; [exact E | reflexivity].
Qed.

Lemma search_from_attempt fl r s :
  forall p m, search_from fl r p s = Some m -> from_attempt fl r m.
Proof.
  induction s as [|c s IH]; intros p m; cbn [search_from].
  - destruct (match_at fl r p EmptyString) as [m'|] eqn:E; [|discriminate].
    intros [= <-]. eapply match_at_attempt; eassumption.
  - destruct (match_at fl r p (String c s)) as [m'|] eqn:E.
    + intros [= <-]. eapply match_at_attempt; eassumption.
    + destruct (search_from fl r (Some c) s) as [m'|] eqn:Es; [|discriminate].
      intros [= <-]. apply IH in Es as (st & res & Hr & Hg).
      exists st, res. split; [exact Hr | exact Hg].
Qed.

Lemma scan_attempt fl r fuel :
  forall p s m, In m (fst (scan fuel fl r p s)) -> from_attempt fl r m.
Proof.
  induction fuel as [|fuel IH]; intros p s m; cbn [scan]; [intros []|].
  destruct (search_from fl r p s) as [m0|] eqn:Es; [|intros []].
  pose proof (search_from_attempt _ _ _ _ _ Es) as H0.
  destruct (text m0) as [|c0 t0].
  - destruct (post m0) as [|c s'].
    + intros [<- | []]. exact H0.
    + destruct (scan fuel fl r (Some c) s') as [ms tl] eqn:E.
      pose proof (IH (Some c) s') as IH'. rewrite E in IH'. cbn [fst] in IH'.
      destruct ms as [|m' ms']; cbn [fst].
      * intros [<- | []]. exact H0.
      * intros [<- | [<- | Hin]]; [exact H0 | | apply IH'; now right].
        destruct (IH' m' (or_introl eq_refl)) as (st & res & Hr & Hg).
        exists st, res. split; [exact Hr | exact Hg].
  - destruct (scan fuel fl r (post_prev m0) (post m0)) as [ms tl] eqn:E.
    pose proof (IH (post_prev m0) (post m0)) as IH'. rewrite E in IH'.
    cbn [fst] in *. intros [<- | Hin]; [exact H0 | now apply IH'].
Qed.

End ReFacts.

(* ================================================================== *)
(** ** The SQL surface extractor and the policy gate *)
(* ================================================================== *)

Module ExtractFacts.
Import PyStr PyStrFacts Re ReFacts Validator App Spec.

(** What [^(select|with)\b] accepts begins with one of the two words,
    up to the characters the matcher takes for the same. *)
Lemma select_with_prefix s m :
  rematch IGNORECASE SELECT_WITH_RE s = Some m ->
  startswith "select" (folded s) = true \/ startswith "with" (folded s) = true.
Proof.
  unfold rematch, match_at.
  destruct (run IGNORECASE SELECT_WITH_RE _ Some) as [st1|] eqn:E; [|discriminate].
  intros _. unfold SELECT_WITH_RE in E.
  change (Seq [Bol; Grp 1 (Alt (Lit "select") (Lit "with")); Wb])
    with (Cat Bol (Cat (Grp 1 (Alt (Lit "select") (Lit "with"))) Wb)) in E.
  cbn [run prev] in E.
  apply run_Alt in E as [E | E]; [left | right];
    apply run_Lit_ignorecase in E; exact E.
Qed.

(** An ASCII text that the pattern accepts begins with one of the two
    words in some letter case. *)
Lemma select_with_prefix_ascii s :
  startswith "select" (folded s) = true \/ startswith "with" (folded s) = true ->
  isascii s = true ->
  startswith "select" (lower s) = true \/ startswith "with" (lower s) = true.
Proof. intros H Ha. now rewrite <- (folded_ascii s Ha). Qed.

(** A statement part has no semicolon and begins with a character that
    is not white space. *)
Lemma statement_part t p :
  In p (statement_parts t) ->
  has_char ";" p = false /\
  exists c r, p = String c r /\ is_space c = false.
Proof.
  unfold statement_parts. intros H. apply filter_In in H as [H Hp].
  apply in_map_iff in H as (x & <- & Hx). split.
  - apply has_char_strip. eapply split_no_sep; eassumption.
  - pose proof (strip_head x) as Hh.
    destruct (strip x) as [|c r]; [discriminate|]. now exists c, r.
Qed.

(** The two outcomes of [extract_sql]. *)
Lemma extract_sql_cases text :
  extract_sql text = EmptyString \/
  exists p ps m,
    statement_parts (unwrapped text) = p :: ps /\
    rematch IGNORECASE SELECT_WITH_RE (strip (p ++ ";")) = Some m /\
    extract_sql text = (p ++ ";")%string.
Proof.
  unfold extract_sql. destruct (negb (truthy text)); [now left|].
  fold (unwrapped text).
  destruct (statement_parts (unwrapped text)) as [|p ps] eqn:Ep; [now left|].
  destruct (rematch _ _ _) as [m|] eqn:Em; [|now left].
  right. now exists p, ps, m.
Qed.

Lemma extract_sql_structure text :
  extract_sql text = EmptyString \/
  exists body others,
    statement_parts (unwrapped text) = body :: others /\
    extract_sql text = (body ++ ";")%string /\
    has_char ";" body = false /\
    strip (body ++ ";") = (body ++ ";")%string /\
    rematch IGNORECASE SELECT_WITH_RE (body ++ ";") <> None /\
    (startswith "select" (folded (body ++ ";")) = true \/
     startswith "with" (folded (body ++ ";")) = true).
Proof.
  destruct (extract_sql_cases text) as [H | (p & ps & m & Hp & Hm & H)];
    [now left | right].
  assert (Hin : In p (statement_parts (unwrapped text))) by (rewrite Hp; now left).
  apply statement_part in Hin as (Hsemi & c & r & -> & Hc).
  assert (Hs : strip (String c r ++ ";") = (String c r ++ ";")%string)
    by (apply strip_fixed; [exact Hc | reflexivity]).
  rewrite Hs in Hm.
  exists (String c r), ps.
  split; [exact Hp|]. split; [exact H|]. split; [exact Hsemi|].
  split; [exact Hs|]. split; [rewrite Hm; discriminate|].
  eapply select_with_prefix; eassumption.
Qed.

(** C5.  For every input text, [extract_sql] returns the empty string
    or the first non-empty statement part of the unwrapped text,
    terminated again: a statement that ends with a semicolon, has no
    semicolon before it and is accepted by the pattern
    [^(select|with)\b] without regard to case.  An ASCII statement
    then starts with SELECT or WITH in some letter case, and for the
    text [CREATE TABLE x (a int);] the result is the empty string.
    Outside ASCII the pattern accepts more than the two words, because
    [re.IGNORECASE] takes U+0130 for an i: the text that spells [with]
    with U+0130 is returned as a statement, and it does not start with
    SELECT or WITH. *)
Theorem extract_sql_single_select :
  (forall text : string,
     extract_sql text = EmptyString \/
     exists body others,
       statement_parts (unwrapped text) = body :: others /\
       extract_sql text = (body ++ ";")%string /\
       has_char ";" body = false /\
       rematch IGNORECASE SELECT_WITH_RE (extract_sql text) <> None /\
       (isascii (extract_sql text) = true ->
        startswith "select" (lower (extract_sql text)) = true \/
        startswith "with" (lower (extract_sql text)) = true)) /\
  extract_sql "CREATE TABLE x (a int);" = EmptyString /\
  extract_sql dotted_with = (dotted_with ++ ";")%string /\
  startswith "select" (lower (extract_sql dotted_with)) = false /\
  startswith "with" (lower (extract_sql dotted_with)) = false.
Proof.
  split; [|repeat split; vm_compute; reflexivity].
  intros text.
  destruct (extract_sql_structure text)
    as [H | (body & others & Hp & H & Hsemi & _ & Hm & Hkw)]; [now left | right].
  rewrite H. exists body, others.
  split; [exact Hp|]. split; [reflexivity|]. split; [exact Hsemi|].
  split; [exact Hm|]. now apply select_with_prefix_ascii.
Qed.

(** The same with [select] spelt with the long s, which the pattern
    takes for an s. *)
Example long_s_select_is_extracted :
  extract_sql long_s_select = (long_s_select ++ ";")%string /\
  startswith "select" (lower (extract_sql long_s_select)) = false.
Proof. split; vm_compute; reflexivity. Qed.

(** What the pattern accepts begins with none of the disallowed
    keywords, whatever character stands for its first letter. *)
Lemma keyword_not_disallowed s :
  startswith "select" (folded s) = true \/ startswith "with" (folded s) = true ->
  existsb (fun p => startswith p (lower s)) disallowed = false.
Proof.
  intros H.
  assert (Hc : exists c r, s = String c r /\
                 (Re.fold_char c = "s"%char \/ Re.fold_char c = "w"%char)).
  { destruct s as [|c r]; [destruct H; discriminate|]. exists c, r.
    split; [reflexivity|]. cbn [folded startswith] in H.
    destruct H as [H | H]; apply andb_prop in H as [H _];
      apply Ascii.eqb_eq in H; symmetry in H; [left | right]; exact H. }
  destruct Hc as (c & r & -> & Hc). cbn [lower].
  destruct (fold_char_s_or_w c Hc) as [-> | [-> | ->]]; reflexivity.
Qed.

(** C9.  Whatever the input text, a non-empty result of [extract_sql]
    passes [reject_disallowed_sql]: neither of its two errors is
    raised. *)
Theorem extracted_sql_passes_gate (t : string) :
  extract_sql t <> EmptyString ->
  reject_disallowed_sql (extract_sql t) = Return tt.
Proof.
  intros Hne.
  destruct (extract_sql_structure t)
    as [H | (body & others & _ & H & Hsemi & Hs & _ & Hkw)]; [contradiction|].
  rewrite H. unfold reject_disallowed_sql. rewrite Hs.
  rewrite (keyword_not_disallowed _ Hkw).
  change (body ++ ";")%string with (body ++ String ";" EmptyString)%string.
  now rewrite drop_last_snoc, Hsemi.
Qed.

Lemma extracted_sql_passes_gate_witness :
  extract_sql "SELECT 1; DROP TABLE t;" <> EmptyString /\
  reject_disallowed_sql (extract_sql "SELECT 1; DROP TABLE t;") = Return tt.
Proof.
  split.
  - vm_compute. discriminate.
  - apply (extracted_sql_passes_gate "SELECT 1; DROP TABLE t;").
    vm_compute. discriminate.
Defined.

(** Outside ASCII: a letter after the keyword makes another word
    ([select] followed by U+00E9), and [strip] removes the white space
    U+00A0 and U+0085. *)
Example extract_sql_outside_ascii :
  extract_sql ("select" ++ String (chr 233) " 1") = EmptyString /\
  extract_sql (String (chr 160) "select 1" ++ String (chr 133) EmptyString) =
    "select 1;".
Proof. split; vm_compute; reflexivity. Qed.

(** The gate does reject such texts when they do not come from the
    extractor. *)
Example gate_rejects_raw_text :
  reject_disallowed_sql "SELECT 1; DROP TABLE t;" =
    Raise (ValueError "Multi-statement SQL is not supported.") /\
  reject_disallowed_sql "CREATE TABLE x (a int);" =
    Raise (ValueError "DDL / privileged statements are not supported.").
Proof. split; vm_compute; reflexivity. Qed.

End ExtractFacts.

(* ================================================================== *)
(** ** The repair loop controller *)
(* ================================================================== *)

Module RepairFacts.
Import PyStr Validator App Spec.

Lemma at_most_weaken {A} n m (c : M A) : n <= m -> at_most n c -> at_most m c.
Proof. intros Hnm H w. specialize (H w). lia. Qed.

Lemma at_most_ret {A} (a : A) : at_most 0 (ret a).
Proof. intros w. simpl. lia. Qed.

Lemma at_most_raise {A} e : at_most 0 (@raise A e).
Proof. intros w. simpl. lia. Qed.

Lemma at_most_lift {A} (r : result A) : at_most 0 (lift r).
Proof. intros w. simpl. lia. Qed.

Lemma at_most_bind {A B} n m (c : M A) (f : A -> M B) :
  at_most n c -> (forall a, at_most m (f a)) -> at_most (n + m) (bind c f).
Proof.
  intros Hc Hf w. unfold bind. specialize (Hc w).
  destruct (c w) as [[a | e] w']; simpl in *.
  - specialize (Hf a w'). lia.
  - lia.
Qed.

Lemma fix_calls_snoc w e :
  fix_calls {| oracle := oracle w; api_calls := api_calls w;
               trace := trace w ++ [e] |} =
  fix_calls w + match e with Called_ai_fix_sql => 1 | _ => 0 end.
Proof.
  unfold fix_calls. cbn [trace]. rewrite filter_app, length_app.
  destruct e; reflexivity.
Qed.

Lemma at_most_emit e :
  at_most (match e with Called_ai_fix_sql => 1 | _ => 0 end) (emit e).
Proof. intros w. unfold emit. cbn [snd]. rewrite fix_calls_snoc. lia. Qed.

Lemma at_most_chat r : at_most 0 (chat r).
Proof.
  intros w. unfold chat.
  assert (H : fix_calls {| oracle := oracle w; api_calls := S (api_calls w);
                           trace := trace w ++ [Called_api r] |} = fix_calls w).
  { unfold fix_calls. cbn [trace]. rewrite filter_app, length_app. simpl. lia. }
  destruct (oracle w (api_calls w) r); cbn [snd]; rewrite H; lia.
Qed.

(** Retrying a call that does not repair does not repair. *)
Lemma at_most_retry {A} (fn : M A) :
  at_most 0 fn ->
  forall retries i last_err, at_most 0 (retry_from fn retries i last_err).
Proof.
  intros Hfn. induction retries as [|n IH]; intros i last_err.
  - destruct last_err; apply at_most_raise.
  - intros w. cbn [retry_from]. specialize (Hfn w).
    destruct (fn w) as [[a | e] w'] eqn:E; cbn [snd] in *; [lia|].
    destruct e; cbn [snd]; try lia.
    pose proof (at_most_bind 0 0 (emit (Slept (2 ^ i)))
                  (fun _ => retry_from fn n (S i) (Some (RateLimitError msg)))
                  (at_most_emit (Slept (2 ^ i))) (fun _ => IH _ _) w') as H.
    simpl in H. lia.
Qed.

Lemma at_most_checked (sql : string) (e : exn) :
  at_most 0 (if negb (truthy sql) then raise e
             else bind (lift (reject_disallowed_sql sql)) (fun _ => ret sql)).
Proof.
  destruct (negb (truthy sql)); [apply at_most_raise|].
  apply (at_most_bind 0 0); [apply at_most_lift | intros; apply at_most_ret].
Qed.

Lemma at_most_ai_generate_sql s q : at_most 0 (ai_generate_sql s q).
Proof.
  unfold ai_generate_sql.
  apply (at_most_bind 0 0); [apply (at_most_emit Called_ai_generate_sql)|].
  intros _. apply (at_most_bind 0 0).
  - apply at_most_retry, at_most_chat.
  - intros raw. apply at_most_checked.
Qed.

Lemma at_most_ai_fix_sql s q bad v : at_most 1 (ai_fix_sql s q bad v).
Proof.
  unfold ai_fix_sql.
  apply (at_most_bind 1 0); [apply (at_most_emit Called_ai_fix_sql)|].
  intros _. apply (at_most_bind 0 0).
  - apply at_most_retry, at_most_chat.
  - intros raw. apply at_most_checked.
Qed.

(** A loop of [n] rounds repairs at most [n] times. *)
Lemma at_most_fix_loop n s q : forall c, at_most n (fix_loop n s q c).
Proof.
  induction n as [|n IH]; intros c; cbn [fix_loop].
  - apply at_most_ret.
  - destruct (negb (String.eqb _ _)).
    { eapply at_most_weaken; [|apply at_most_ret]. lia. }
    destruct (negb (needs_fix _)).
    { eapply at_most_weaken; [|apply at_most_ret]. lia. }
    apply (at_most_bind 1 n); [apply at_most_ai_fix_sql|].
    intros sql. apply IH.
Qed.

(** C3.  For every schema, request text and behaviour of the external
    generator, one run of the generation handler enters [ai_fix_sql]
    at most twice. *)
Theorem generate_repairs_at_most_twice
  (schema_json : Json.schema_json) (q : string) (w : world) :
  fix_calls (snd (generate schema_json q w)) <= fix_calls w + 2.
Proof.
  unfold generate.
  pose proof (at_most_ai_generate_sql schema_json q w) as Hg.
  destruct (ai_generate_sql schema_json q w) as [[sql | e] w'] eqn:E;
    cbn [snd] in Hg.
  - pose proof (at_most_bind 2 0
                  (fix_loop 2 schema_json q (assess schema_json q sql))
                  (fun c => ret (ok_response c None))
                  (at_most_fix_loop 2 schema_json q _)
                  (fun c => at_most_ret _) w') as H.
    simpl in H. simpl. lia.
  - destruct e; cbn [snd]; lia.
Qed.

(** The bound is reached, and the loop then returns the query
    that still fails validation. *)
Example stubborn_generator_is_asked_twice :
  let run := generate employees_schema "list employees" (new_world stubborn) in
  fix_calls (snd run) = 2 /\
  api_calls (snd run) = 3 /\
  exists validation classification message,
    fst run = Return (OkResponse mismatched_join_sql validation classification
                        message None) /\
    class classification = "ai_issue".
Proof.
  vm_compute. split; [reflexivity|]. split; [reflexivity|].
  do 3 eexists. split; reflexivity.
Qed.

End RepairFacts.

(* ================================================================== *)
(** ** The identifier resolver *)
(* ================================================================== *)

Module ValidateFacts.
Import PyStr PyStrFacts PyDict PyDictFacts Re ReFacts Validator Spec.

(** [validate_against_schema] reports the first two components of the
    loop over the qualified references. *)
Lemma validate_qualified_findings sql schema_json :
  unknown_aliases (validate_against_schema sql schema_json) =
    fst (fst (qualified_findings sql schema_json (qualified_refs (sql0_of sql)))) /\
  unknown_columns (validate_against_schema sql schema_json) =
    snd (fst (qualified_findings sql schema_json (qualified_refs (sql0_of sql)))).
Proof.
  unfold validate_against_schema, qualified_findings, alias_map_of,
    cols_by_table_of, sql0_of.
  cbv zeta.
  destruct (qualified_loop _ _ _) as [[ua uc] ui].
  destruct (fold_left (unqualified_step _ _) _ _) as [[seen res] amb].
  split; reflexivity.
Qed.

(** It reports the last component of the loop over the candidates. *)
Lemma validate_unqualified_findings sql schema_json :
  ambiguous_unqualified_columns (validate_against_schema sql schema_json) =
    snd (unqualified_findings sql schema_json).
Proof.
  unfold validate_against_schema, unqualified_findings, candidates_of,
    detected_tables_cols_of, tables_detected_of, alias_map_of,
    cols_by_table_of, sql0_of.
  cbv zeta.
  destruct (qualified_loop _ _ _) as [[ua uc] ui].
  destruct (fold_left (unqualified_step _ _) _ _) as [[seen res] amb].
  reflexivity.
Qed.

(** A reference whose qualifier is no alias but names a table leaves
    the three accumulators as they are. *)
Lemma qualified_step_table_name alias_map cols_by_table st t col :
  PyDict.get (_lower t) alias_map = None ->
  has_key (_lower t) cols_by_table = true ->
  qualified_step alias_map cols_by_table st (t, col) = st.
Proof.
  intros Ha Ht. destruct st as [[ua uc] ui]. unfold qualified_step.
  rewrite Ha, Ht. reflexivity.
Qed.

Lemma table_name_known schema_json t :
  (exists tname, In tname (keys (Json.tables schema_json)) /\
                 lower tname = lower t) ->
  has_key (_lower t) (cols_by_table_of schema_json) = true.
Proof.
  intros H. apply has_key_iff. unfold cols_by_table_of.
  apply keys_comprehension. exact H.
Qed.

(** An identifier takes at least one character. *)
Lemma run_IDENT fl st k res :
  run fl IDENT st k = Some res ->
  exists st', k st' = Some res /\
              String.length (rest st') < String.length (rest st).
Proof.
  unfold IDENT. rewrite run_Cat, run_Cls. intros H.
  apply step_char_some in H as (x & s' & Hr & _ & H).
  apply run_le in H as (st' & H & Hl).
  exists st'. split; [exact H|]. rewrite Hr. cbn [rest] in Hl. simpl. lia.
Qed.

(** The column of a qualified reference is not empty. *)
Lemma qual_col_group2 st res :
  run NOFLAGS QUAL_COL_RE st Some = Some res ->
  lookup 2 (caps res) <> EmptyString.
Proof.
  unfold QUAL_COL_RE.
  change (Seq [Wb; Grp 1 IDENT; Chr "."; Grp 2 IDENT; Wb])
    with (Cat Wb (Cat (Grp 1 IDENT) (Cat (Chr ".") (Cat (Grp 2 IDENT) Wb)))).
  rewrite run_Cat, run_Wb. destruct (xorb _ _); [|discriminate].
  rewrite run_Cat, run_Grp. intros H.
  apply run_IDENT in H as (st1 & H & _).
  rewrite run_Cat, run_Chr in H.
  apply step_char_some in H as (x & s' & _ & _ & H).
  rewrite run_Cat, run_Grp in H.
  apply run_IDENT in H as (st2 & H & Hl).
  rewrite run_Wb in H. destruct (xorb _ _); [|discriminate]. injection H as <-.
  cbn [caps lookup Nat.eqb]. now apply consumed_nonempty.
Qed.

Lemma qualified_refs_nonempty sql0 a c :
  In (a, c) (qualified_refs sql0) -> c <> EmptyString.
Proof.
  unfold qualified_refs, finditer. intros H.
  apply in_map_iff in H as (m & [= <- <-] & Hm).
  apply scan_attempt in Hm as (st & res & Hr & Hg).
  unfold group. rewrite Hg. eapply qual_col_group2; eassumption.
Qed.


Lemma lower_nonempty c : c <> EmptyString -> lower c <> EmptyString.
Proof.
  destruct c as [|x c]; [congruence|]. intros _. cbn [lower].
  destruct (lower_str_cons x) as (d & r & ->). discriminate.
Qed.

Lemma qualified_step_columns am cbt st a c uc :
  In uc (snd (fst (qualified_step am cbt st (a, c)))) ->
  In uc (snd (fst st)) \/ column uc = lower c.
Proof.
  destruct st as [[ua ucs] ui]. unfold qualified_step.
  destruct (PyDict.get (_lower a) am) as [t|].
  - destruct (negb (mem (_lower c) (get_set t cbt))); cbn [fst snd]; [|now left].
    intros H. apply in_app_or in H as [H | [<- | []]]; [now left | now right].
  - destruct (negb _ && negb _)%bool; cbn [fst snd]; now left.
Qed.

Lemma qualified_loop_columns am cbt refs :
  forall st uc,
    In uc (snd (fst (fold_left (qualified_step am cbt) refs st))) ->
    In uc (snd (fst st)) \/ exists a c, In (a, c) refs /\ column uc = lower c.
Proof.
  induction refs as [|[a c] refs IH]; intros st uc H; cbn [fold_left] in H.
  - now left.
  - apply IH in H as [H | (a' & c' & Hin & Hc)].
    + apply qualified_step_columns in H as [H | H]; [now left|].
      right. exists a, c. split; [now left | exact H].
    + right. exists a', c'. split; [now right | exact Hc].
Qed.

(** The unknown columns that the validator reports have names that
    are neither empty nor changed by lowercasing. *)
Lemma produced_unknown_columns sql schema_json uc :
  In uc (unknown_columns (validate_against_schema sql schema_json)) ->
  column uc <> EmptyString /\ lower (column uc) = column uc.
Proof.
  destruct (validate_qualified_findings sql schema_json) as [_ ->].
  unfold qualified_findings, qualified_loop. intros H.
  apply qualified_loop_columns in H as [[] | (a & c & Hin & ->)].
  split; [|apply lower_idem].
  apply lower_nonempty. eapply qualified_refs_nonempty; eassumption.
Qed.

(** C10, as amended.  For every schema and SQL text, take any
    qualified reference [t.col] of the text whose qualifier is not
    bound in the alias map and equals a table name of the schema up to
    case.  The reference adds no entry to [unknown_aliases] and none to
    [unknown_columns]: the two lists of the report are those found
    when that reference is left out, whatever [col] is. *)
Theorem table_qualified_reference_is_silent
  (sql : string) (schema_json : Json.schema_json)
  (before after : list (string * string)) (t col : string) :
  qualified_refs (sql0_of sql) = before ++ (t, col) :: after ->
  PyDict.get (lower t) (alias_map_of sql) = None ->
  (exists tname, In tname (keys (Json.tables schema_json)) /\
                 lower tname = lower t) ->
  unknown_aliases (validate_against_schema sql schema_json) =
    fst (fst (qualified_findings sql schema_json (before ++ after))) /\
  unknown_columns (validate_against_schema sql schema_json) =
    snd (fst (qualified_findings sql schema_json (before ++ after))).
Proof.
  intros Hrefs Halias Htable.
  destruct (validate_qualified_findings sql schema_json) as [-> ->].
  rewrite Hrefs. unfold qualified_findings, qualified_loop.
  rewrite !fold_left_app. cbn [fold_left].
  rewrite qualified_step_table_name;
    [split; reflexivity | exact Halias | now apply table_name_known].
Qed.

Lemma table_qualified_reference_is_silent_witness :
  unknown_aliases (validate_against_schema table_qualified_sql employees_schema) = [] /\
  unknown_columns (validate_against_schema table_qualified_sql employees_schema) = [].
Proof.
  apply (table_qualified_reference_is_silent table_qualified_sql employees_schema
           [] [] "employees" "salary").
  - vm_compute. reflexivity.
  - vm_compute. reflexivity.
  - exists "employees". split; [vm_compute; now left | reflexivity].
Defined.

(** C10 as stated fails: such a reference is not free of findings.
    In [SELECT employees.salary FROM employees e] the qualifier is no
    alias and names a table of the schema; the report lists [salary]
    among the unknown identifiers, which it does not without the
    reference.  As a side of an ON equality such a reference adds a
    join warning. *)
Lemma table_qualified_reference_is_a_finding :
  qualified_refs (sql0_of table_qualified_sql) = [("employees", "salary")] /\
  PyDict.get (lower "employees") (alias_map_of table_qualified_sql) = None /\
  In "employees" (keys (Json.tables employees_schema)) /\
  unknown_identifiers
    (validate_against_schema table_qualified_sql employees_schema) = ["salary"] /\
  unknown_identifiers
    (validate_against_schema unqualified_sql employees_schema) = [] /\
  In ("employees", "branch_id")
     (qualified_refs (sql0_of table_qualified_join_sql)) /\
  PyDict.get (lower "employees") (alias_map_of table_qualified_join_sql) = None /\
  join_warnings
    (validate_against_schema table_qualified_join_sql employees_schema) =
    ["JOIN uses unknown alias in ON: employees.branch_id = b.branch_id"].
Proof.
  split; [vm_compute; reflexivity|]. split; [vm_compute; reflexivity|].
  split; [vm_compute; now left|]. split; [vm_compute; reflexivity|].
  split; [vm_compute; reflexivity|]. split; [vm_compute; right; now left|].
  split; vm_compute; reflexivity.
Qed.

(** The same reference through a bound alias is reported. *)
Example alias_qualified_reference_is_reported :
  unknown_columns
    (validate_against_schema "SELECT e.salary FROM employees e" employees_schema) =
  [{| table := "employees"; alias := "e"; column := "salary" |}].
Proof. vm_compute. reflexivity. Qed.

End ValidateFacts.

(* ================================================================== *)
(** ** The issue classifier *)
(* ================================================================== *)

Module ClassifyFacts.
Import PyStr PyStrFacts Validator Spec ValidateFacts.

(** Some non-empty unknown column name, lowercased, occurs in [q]. *)
Lemma unknown_col_names_hit ucs q :
  existsb (fun uc => contains uc q) (unknown_col_names ucs) = true <->
  exists uc, In uc ucs /\ column uc <> EmptyString /\
             Substring (lower (column uc)) q.
Proof.
  unfold unknown_col_names. rewrite existsb_exists. split.
  - intros (n & Hn & Hc). apply in_map_iff in Hn as (x & <- & Hx).
    apply filter_In in Hx as [Hx Ht]. apply in_map_iff in Hx as (uc & <- & Huc).
    exists uc. repeat split;
      [assumption | now apply truthy_iff | now apply contains_iff].
  - intros (uc & Huc & Hne & Hs). exists (lower (column uc)). split.
    + apply in_map. apply filter_In. split; [now apply in_map | now apply truthy_iff].
    + now apply contains_iff.
Qed.

Lemma nonempty_iff {A} (l : list A) : nonempty l = true <-> l <> [].
Proof. destruct l; simpl; split; congruence. Qed.

(** C1, on the program as it is.  A report whose only finding is an
    ambiguous column has no hard signal, so the first rule answers ok
    with action stop; the rule that answers user_issue with action
    ask_user is not reached. *)
Theorem pure_ambiguity_is_classified_ok
  (v : ValidationReport) (q : string) (s : Json.schema_json) :
  ambiguous_unqualified_columns v <> [] ->
  missing_tables v = [] -> unknown_columns v = [] -> unknown_aliases v = [] ->
  invalid_joins v = [] -> type_mismatches v = [] ->
  class (classify_issue v q s) = "ok" /\ action (classify_issue v q s) = "stop".
Proof.
  intros _ H1 H2 H3 H4 H5. unfold classify_issue.
  rewrite H1, H2, H3, H4, H5. split; reflexivity.
Qed.

Lemma pure_ambiguity_is_classified_ok_witness :
  class (classify_issue ambiguous_only "names" two_named_tables) = "ok" /\
  action (classify_issue ambiguous_only "names" two_named_tables) = "stop".
Proof.
  apply (pure_ambiguity_is_classified_ok ambiguous_only "names" two_named_tables);
    [discriminate | reflexivity ..].
Defined.

(** X2.  No report is classified as a user issue: every report without
    a hard signal is answered by the first rule, and every hard signal
    has a rule of its own before the one for ambiguous columns. *)
Lemma classify_issue_never_user_issue v q s :
  String.eqb (class (classify_issue v q s)) "user_issue" = false.
Proof.
  unfold classify_issue.
  destruct (missing_tables v), (unknown_columns v), (unknown_aliases v),
    (invalid_joins v), (type_mismatches v); cbn [nonempty orb negb];
    try reflexivity;
    destruct (existsb _ _); reflexivity.
Qed.

(** The same on a report that the validator produces. *)
Example ambiguous_query_is_classified_ok :
  let report := validate_against_schema aliased_join_sql two_named_tables in
  ambiguous_unqualified_columns report =
    [{| ambiguous_column := "name"; ambiguous_tables := ["a"; "b"] |}] /\
  class (classify_issue report "names" two_named_tables) = "ok".
Proof. vm_compute. split; reflexivity. Qed.

(** A missing table makes a schema issue with action stop,
    whatever the request and the rest of the report. *)
Theorem missing_tables_is_schema_issue
  (v : ValidationReport) (q : string) (s : Json.schema_json) :
  missing_tables v <> [] ->
  class (classify_issue v q s) = "schema_issue" /\
  action (classify_issue v q s) = "stop".
Proof.
  intros H. apply nonempty_iff in H. unfold classify_issue. rewrite H.
  split; reflexivity.
Qed.

Lemma missing_tables_is_schema_issue_witness :
  class (classify_issue
           (validate_against_schema "SELECT g.id FROM ghosts g" employees_schema)
           "list the ghosts" employees_schema) = "schema_issue" /\
  action (classify_issue
            (validate_against_schema "SELECT g.id FROM ghosts g" employees_schema)
            "list the ghosts" employees_schema) = "stop".
Proof.
  apply (missing_tables_is_schema_issue
           (validate_against_schema "SELECT g.id FROM ghosts g" employees_schema)
           "list the ghosts" employees_schema).
  vm_compute. discriminate.
Defined.

(** The rule for unknown columns on any record of the report type:
    the function leaves empty names out and puts the names in lower
    case before it looks for them in the request. *)
Lemma unknown_columns_rule
  (v : ValidationReport) (q : string) (s : Json.schema_json) :
  missing_tables v = [] -> unknown_columns v <> [] ->
  ((exists uc, In uc (unknown_columns v) /\ column uc <> EmptyString /\
               Substring (lower (column uc)) (lower q)) ->
   class (classify_issue v q s) = "schema_issue" /\
   action (classify_issue v q s) = "stop") /\
  (~ (exists uc, In uc (unknown_columns v) /\ column uc <> EmptyString /\
                 Substring (lower (column uc)) (lower q)) ->
   class (classify_issue v q s) = "ai_issue" /\
   action (classify_issue v q s) = "retry_ai").
Proof.
  intros Hm Hu. apply nonempty_iff in Hu.
  unfold classify_issue. rewrite Hm, Hu. cbn [nonempty orb negb].
  pose proof (unknown_col_names_hit (unknown_columns v) (lower q)) as Hhit.
  destruct (existsb _ (unknown_col_names (unknown_columns v))).
  - split; [intros _; split; reflexivity|].
    intros Hn. exfalso. apply Hn. now apply Hhit.
  - split; [|intros _; split; reflexivity].
    intros He. apply Hhit in He. discriminate.
Qed.

(** C4.  [classify_issue] is called on the reports that
    [validate_against_schema] builds.  For every such report with no
    missing table and some unknown column, and every request text, the
    answer is schema_issue with action stop when some unknown column
    name occurs in the lowercased request, and ai_issue with action
    retry_ai otherwise. *)
Theorem produced_unknown_columns_schema_or_ai
  (sql q : string) (s : Json.schema_json) :
  missing_tables (validate_against_schema sql s) = [] ->
  unknown_columns (validate_against_schema sql s) <> [] ->
  ((exists uc, In uc (unknown_columns (validate_against_schema sql s)) /\
               Substring (column uc) (lower q)) ->
   class (classify_issue (validate_against_schema sql s) q s) = "schema_issue" /\
   action (classify_issue (validate_against_schema sql s) q s) = "stop") /\
  (~ (exists uc, In uc (unknown_columns (validate_against_schema sql s)) /\
                 Substring (column uc) (lower q)) ->
   class (classify_issue (validate_against_schema sql s) q s) = "ai_issue" /\
   action (classify_issue (validate_against_schema sql s) q s) = "retry_ai").
Proof.
  intros Hm Hu.
  destruct (unknown_columns_rule (validate_against_schema sql s) q s Hm Hu)
    as [Hyes Hno].
  split.
  - intros (uc & Hin & Hsub). apply Hyes. exists uc.
    destruct (produced_unknown_columns sql s uc Hin) as [Hne Hlow].
    split; [exact Hin|]. split; [exact Hne|]. now rewrite Hlow.
  - intros Hnone. apply Hno. intros (uc & Hin & _ & Hsub). apply Hnone.
    exists uc. split; [exact Hin|].
    destruct (produced_unknown_columns sql s uc Hin) as [_ Hlow].
    now rewrite Hlow in Hsub.
Qed.

Lemma produced_unknown_columns_schema_or_ai_witness :
  class (classify_issue (validate_against_schema unknown_salary_sql employees_schema)
           "Average SALARY per branch" employees_schema) = "schema_issue" /\
  action (classify_issue (validate_against_schema unknown_salary_sql employees_schema)
            "Average SALARY per branch" employees_schema) = "stop".
Proof.
  apply (proj1 (produced_unknown_columns_schema_or_ai unknown_salary_sql
                  "Average SALARY per branch" employees_schema
                  ltac:(vm_compute; reflexivity)
                  ltac:(vm_compute; discriminate))).
  exists {| table := "employees"; alias := "e"; column := "salary" |}.
  split; [vm_compute; now left|]. apply contains_iff. reflexivity.
Defined.

End ClassifyFacts.

(* ================================================================== *)
(** ** The examples of section 8 *)
(* ================================================================== *)

Module SectionEight.
Import PyStr PyDict PyDictFacts Re Validator SchemaParser Spec ValidateFacts.

(** C6.  Parsing the DDL text of section 8 yields exactly the tables
    employees and branches; the primary key of employees is emp_id and
    its only foreign key is branch_id, referencing branch_id of
    branches. *)
Theorem employees_ddl_parsed :
  keys (parse_schema_sql employees_ddl) = ["employees"; "branches"] /\
  exists employees,
    PyDict.get "employees" (parse_schema_sql employees_ddl) = Some employees /\
    primary_key employees = ["emp_id"] /\
    foreign_keys employees =
      [{| SchemaParser.column := "branch_id"; ref_table := "branches";
          ref_column := "branch_id" |}].
Proof.
  split; [vm_compute; reflexivity|].
  eexists. split; [vm_compute; reflexivity|].
  split; reflexivity.
Qed.

(** The whole report on the mismatched join.  The order of
    [unknown_identifiers] is the model's: the program fills the list
    from a set. *)
Lemma mismatched_join_report :
  validate_against_schema mismatched_join_sql employees_schema =
  {| tables_detected := ["branches"; "employees"];
     missing_tables := [];
     alias_map := [("e", "employees"); ("b", "branches")];
     unknown_aliases := [];
     unknown_columns := [];
     unqualified_columns_resolved := [];
     ambiguous_unqualified_columns := [];
     unknown_identifiers := ["emp_id"; "branch_name"];
     invalid_joins :=
       [{| left := "employees.emp_id";
           right := "branches.branch_name";
           reason := "No FK relationship found for this join condition" |}];
     join_warnings := [];
     type_mismatches :=
       [JoinMismatch "join" "e.emp_id = b.branch_name" "numeric" "text"
          "Join compares different column types"];
     notes :=
       ["One or more JOIN conditions do not match any FK relationship.";
        "One or more comparisons/joins appear to use incompatible data types."] |}.
Proof. vm_compute. reflexivity. Qed.

(** C7.  Against the schema parsed from the DDL text of section 8, the
    join of emp_id with branch_name is reported as an invalid join and
    as a type mismatch of kind join, numeric against text; no foreign
    key of the schema joins the two columns in either direction. *)
Theorem mismatched_join_reported :
  let report := validate_against_schema mismatched_join_sql employees_schema in
  invalid_joins report <> [] /\
  (exists m, In m (type_mismatches report) /\ kind m = "join" /\
             m = JoinMismatch "join" "e.emp_id = b.branch_name" "numeric" "text"
                   "Join compares different column types") /\
  fk_edges_of (Json.tables employees_schema) =
    [("employees", "branch_id", "branches", "branch_id")].
Proof.
  cbv zeta. rewrite mismatched_join_report.
  cbn [invalid_joins type_mismatches]. split; [discriminate|].
  split; [|vm_compute; reflexivity].
  eexists. split; [left; reflexivity | split; reflexivity].
Qed.

(** The query of section 8 that joins on the foreign key has no
    missing table, unknown column, invalid join or type mismatch. *)
Example matched_join_is_clean :
  let report :=
    validate_against_schema
      "SELECT e.emp_id FROM employees e JOIN branches b ON e.branch_id = b.branch_id;"
      employees_schema in
  missing_tables report = [] /\ unknown_columns report = [] /\
  invalid_joins report = [] /\ type_mismatches report = [].
Proof. vm_compute. repeat split; reflexivity. Qed.

(** C2 as stated fails: on the query with a comma the alias map is
    empty, no table is detected, and [name] is an unknown identifier
    instead of an ambiguous column. *)
Lemma comma_join_detects_no_ambiguity :
  keys (Json.tables two_named_tables) = ["a"; "b"] /\
  has_key "name" (Json.columns named_table) = true /\
  alias_map (validate_against_schema comma_join_sql two_named_tables) = [] /\
  tables_detected (validate_against_schema comma_join_sql two_named_tables) = [] /\
  ambiguous_unqualified_columns
    (validate_against_schema comma_join_sql two_named_tables) = [] /\
  unknown_identifiers
    (validate_against_schema comma_join_sql two_named_tables) = ["name"].
Proof. vm_compute. repeat split; reflexivity. Qed.

Lemma mem_lower_name (cols : dict string) :
  In "name" (keys cols) -> mem "name" (map _lower (keys cols)) = true.
Proof.
  intros H. unfold mem. apply existsb_exists. exists "name". split.
  - change "name" with (_lower "name"). now apply in_map.
  - reflexivity.
Qed.

Lemma aliased_join_is_ambiguous ta tb tables :
  In "name" (keys (Json.columns ta)) ->
  In "name" (keys (Json.columns tb)) ->
  tables = [("a", ta); ("b", tb)] \/ tables = [("b", tb); ("a", ta)] ->
  ambiguous_unqualified_columns
    (validate_against_schema aliased_join_sql {| Json.tables := tables |}) =
  [{| ambiguous_column := "name"; ambiguous_tables := ["a"; "b"] |}].
Proof.
  intros Ha Hb Ht. apply mem_lower_name in Ha, Hb.
  rewrite validate_unqualified_findings. unfold unqualified_findings.
  assert (Es : search NOFLAGS (used_qualified_re "name")
                 (lower (sql0_of aliased_join_sql)) = None)
    by (vm_compute; reflexivity).
  assert (Ec : candidates_of aliased_join_sql {| Json.tables := tables |} = ["name"])
    by (destruct Ht as [-> | ->]; vm_compute; reflexivity).
  assert (Ed : detected_tables_cols_of aliased_join_sql {| Json.tables := tables |} =
               [("a", map _lower (keys (Json.columns ta)));
                ("b", map _lower (keys (Json.columns tb)))])
    by (destruct Ht as [-> | ->]; reflexivity).
  rewrite Ec, Ed. cbn [fold_left]. unfold unqualified_step.
  cbn [mem existsb]. rewrite Es. cbn [filter snd]. rewrite Ha, Hb. reflexivity.
Qed.

(** C2, as amended.  For a schema of exactly the two tables a and b,
    both with a column called name: on the query
    [SELECT name FROM a, b] no ambiguity is reported and name is an
    unknown identifier; on the query [SELECT name FROM a x JOIN b y],
    which binds both tables to aliases, name is reported as ambiguous
    with both owning tables a and b. *)
Theorem ambiguous_name_needs_aliases
  (schema_json : Json.schema_json) (ta tb : Json.table_json) :
  two_tables ta tb schema_json ->
  In "name" (keys (Json.columns ta)) ->
  In "name" (keys (Json.columns tb)) ->
  ambiguous_unqualified_columns
    (validate_against_schema comma_join_sql schema_json) = [] /\
  unknown_identifiers
    (validate_against_schema comma_join_sql schema_json) = ["name"] /\
  ambiguous_unqualified_columns
    (validate_against_schema aliased_join_sql schema_json) =
    [{| ambiguous_column := "name"; ambiguous_tables := ["a"; "b"] |}].
Proof.
  intros Ht Ha Hb. destruct schema_json as [tables]. unfold two_tables in Ht.
  cbn [Json.tables] in Ht.
  split; [destruct Ht as [-> | ->]; vm_compute; reflexivity|].
  split; [destruct Ht as [-> | ->]; vm_compute; reflexivity|].
  now apply (aliased_join_is_ambiguous ta tb).
Qed.

Lemma ambiguous_name_needs_aliases_witness :
  ambiguous_unqualified_columns
    (validate_against_schema comma_join_sql two_named_tables) = [] /\
  unknown_identifiers
    (validate_against_schema comma_join_sql two_named_tables) = ["name"] /\
  ambiguous_unqualified_columns
    (validate_against_schema aliased_join_sql two_named_tables) =
    [{| ambiguous_column := "name"; ambiguous_tables := ["a"; "b"] |}].
Proof.
  apply (ambiguous_name_needs_aliases two_named_tables named_table named_table).
  - left. reflexivity.
  - simpl. right. left. reflexivity.
  - simpl. right. left. reflexivity.
Defined.

End SectionEight.

(* ================================================================== *)
(** ** The JSON encoder and decoder *)
(* ================================================================== *)

Module PyJsonFacts.
Import PyStr PyStrFacts PyDict PyDictFacts PyJson Spec.

Lemma scanstring_escape_char c t :
  scanstring (escape_char c ++ t) = cons_char c (scanstring t).
Proof. destruct c as [[] [] [] [] [] [] [] []]; reflexivity. Qed.

(** The decoder reads back what the encoder wrote for a string. *)
Lemma scanstring_escape s rest :
  scanstring (escape s ++ String dquote rest) = Some (s, rest).
Proof.
  induction s as [|c s IH]; [reflexivity|].
  cbn [escape]. rewrite append_assoc, scanstring_escape_char, IH. reflexivity.
Qed.

Lemma quote_app s rest :
  (quote s ++ rest)%string = String dquote (escape s ++ String dquote rest).
Proof. unfold quote. cbn [append]. now rewrite append_assoc. Qed.

Lemma dumps_head v : exists c t, dumps v = String c t /\ head_ok c.
Proof.
  destruct v as [|[]|s|[|x l]|[|[k x] l]]; cbn [dumps append quote];
    eexists; eexists; (split; [reflexivity | repeat split]).
Qed.

Lemma skip_ws_dumps v rest : skip_ws (dumps v ++ rest) = (dumps v ++ rest)%string.
Proof.
  destruct (dumps_head v) as (c & t & E & Hs & _).
  rewrite E. cbn [append skip_ws]. now rewrite Hs.
Qed.

Lemma dict_of_pairs_from {V} (l : list (string * V)) :
  forall acc,
    NoDup (keys acc ++ map fst l) ->
    fold_left (fun d kv => PyDict.set (fst kv) (snd kv) d) l acc = acc ++ l.
Proof.
  induction l as [|[k v] l IH]; intros acc H; cbn [fold_left].
  - now rewrite app_nil_r.
  - assert (Hk : ~ In k (keys acc)).
    { intros Hin. apply NoDup_remove_2 in H. apply H. apply in_or_app. now left. }
    cbn [fst snd]. rewrite (set_fresh k v acc Hk), IH.
    + now rewrite <- app_assoc.
    + unfold keys in *. rewrite map_app, <- app_assoc. exact H.
Qed.

(** Pairs with distinct keys make the dict that lists them. *)
Lemma dict_of_pairs_nodup {V} (l : list (string * V)) :
  NoDup (map fst l) -> dict_of_pairs l = l.
Proof. intros H. unfold dict_of_pairs. now rewrite dict_of_pairs_from. Qed.

(** With enough fuel the decoder reads back what the encoder wrote,
    whatever follows. *)
Lemma scan_dumps_fuel : forall fuel,
  (forall v rest,
     size v < fuel -> well_formed v ->
     scan fuel (dumps v ++ rest) = Some (v, rest)) /\
  (forall x l rest,
     sizes (x :: l) < fuel -> all_well_formed (x :: l) ->
     elements fuel (dumps x ++ more_items l ++ rest) = Some (x :: l, rest)) /\
  (forall k x l rest,
     member_sizes ((k, x) :: l) < fuel -> members_well_formed ((k, x) :: l) ->
     members fuel (quote k ++ ": " ++ dumps x ++ more_members l ++ rest)
     = Some ((k, x) :: l, rest)).
Proof.
  induction fuel as [|fuel (IHv & IHe & IHm)].
  { repeat split; intros; lia. }
  split; [|split].
  - intros v rest Hsize Hwf.
    destruct v as [|[]|s|[|x l]|[|[k x] l]]; try reflexivity.
    + cbn [dumps]. rewrite quote_app. cbn [scan].
      change (Ascii.eqb dquote dquote) with true. cbv iota.
      now rewrite scanstring_escape.
    + change (dumps (Arr (x :: l))) with ("[" ++ dumps x ++ more_items l)%string.
      rewrite !append_assoc. cbn [append scan].
      change (Ascii.eqb "[" dquote) with false.
      change (Ascii.eqb "[" "[") with true. cbv iota.
      destruct (dumps_head x) as (c & t & E & Hs & Hb & Hc).
      assert (Hskip : skip_ws (dumps x ++ more_items l ++ rest) =
                      String c (t ++ more_items l ++ rest)).
      { rewrite E. cbn [append skip_ws]. now rewrite Hs. }
      rewrite Hskip, Hb.
      change (String c (t ++ more_items l ++ rest))
        with (String c t ++ more_items l ++ rest)%string.
      rewrite <- E.
      rewrite IHe; [reflexivity | | exact Hwf].
      change (size (Arr (x :: l))) with (S (sizes (x :: l))) in Hsize. lia.
    + change (dumps (Obj ((k, x) :: l)))
        with ("{" ++ quote k ++ ": " ++ dumps x ++ more_members l)%string.
      rewrite !append_assoc. cbn [append scan].
      change (Ascii.eqb "{" dquote) with false.
      change (Ascii.eqb "{" "[") with false.
      change (Ascii.eqb "{" "{") with true. cbv iota.
      destruct Hwf as [Hnd Hwf].
      pose proof (IHm k x l rest) as Hm. cbn [append] in Hm.
      rewrite quote_app in Hm |- *. cbn [skip_ws].
      change (is_json_space dquote) with false. cbv iota.
      change (Ascii.eqb dquote "}") with false. cbv iota.
      rewrite Hm; [now rewrite (dict_of_pairs_nodup _ Hnd) | | exact Hwf].
      change (size (Obj ((k, x) :: l))) with (S (member_sizes ((k, x) :: l))) in Hsize.
      lia.
  - intros x l rest Hsize [Hx Hl]. cbn [elements].
    cbn [sizes] in Hsize.
    rewrite IHv; [| lia | exact Hx].
    destruct l as [|y l].
    + reflexivity.
    + cbn [more_items]. rewrite !append_assoc. cbn [append skip_ws].
      change (is_json_space ",") with false. cbv iota.
      change (Ascii.eqb "," "]") with false.
      change (Ascii.eqb "," ",") with true. cbv iota.
      cbn [skip_ws]. change (is_json_space " ") with true. cbv iota.
      rewrite skip_ws_dumps.
      rewrite IHe; [reflexivity | cbn [sizes] in *; lia | exact Hl].
  - intros k x l rest Hsize [Hx Hl]. cbn [snd] in Hx.
    cbn [member_sizes snd] in Hsize.
    rewrite quote_app. cbn [members].
    change (Ascii.eqb dquote dquote) with true. cbn [negb].
    cbn [append]. rewrite scanstring_escape.
    cbn [skip_ws]. change (is_json_space ":") with false. cbv iota.
    change (Ascii.eqb ":" ":") with true. cbn [negb].
    cbn [skip_ws]. change (is_json_space " ") with true. cbv iota.
    rewrite skip_ws_dumps. rewrite IHv; [| lia | exact Hx].
    destruct l as [|[k' y] l].
    + reflexivity.
    + cbn [more_members]. rewrite !append_assoc. cbn [append skip_ws].
      change (is_json_space ",") with false. cbv iota.
      change (Ascii.eqb "," "}") with false.
      change (Ascii.eqb "," ",") with true. cbv iota.
      cbn [skip_ws]. change (is_json_space " ") with true. cbv iota.
      pose proof (IHm k' y l rest) as Hm. cbn [append] in Hm.
      rewrite quote_app in Hm |- *. cbn [skip_ws].
      change (is_json_space dquote) with false. cbv iota.
      rewrite Hm; [reflexivity | cbn [member_sizes snd] in *; lia | exact Hl].
Qed.

Lemma more_items_length l :
  Forall (fun x => size x <= String.length (dumps x)) l ->
  sizes l + 1 <= String.length (more_items l).
Proof.
  induction 1 as [|x l Hx _ IH]; cbn [sizes more_items]; [simpl; lia|].
  rewrite !length_append. simpl String.length. lia.
Qed.

Lemma more_members_length l :
  Forall (fun kx : string * value => size (snd kx) <= String.length (dumps (snd kx))) l ->
  member_sizes l + 1 <= String.length (more_members l).
Proof.
  induction 1 as [|[k x] l Hx _ IH]; cbn [member_sizes more_members snd] in *;
    [simpl; lia|].
  rewrite !length_append. simpl String.length. lia.
Qed.

(** The text of a value is long enough to serve as fuel. *)
Lemma size_le_length v : size v <= String.length (dumps v).
Proof.
  induction v as [| b | s | l IH | l IH] using value_induction.
  - simpl; lia.
  - destruct b; simpl; lia.
  - simpl; lia.
  - destruct l as [|x l]; [simpl; lia|].
    inversion IH as [|? ? Hx Hl]; subst.
    change (dumps (Arr (x :: l))) with ("[" ++ dumps x ++ more_items l)%string.
    change (size (Arr (x :: l))) with (S (S (size x + sizes l))).
    rewrite !length_append. simpl String.length.
    pose proof (more_items_length l Hl). lia.
  - destruct l as [|[k x] l]; [simpl; lia|].
    inversion IH as [|? ? Hx Hl]; subst. cbn [snd] in Hx.
    change (dumps (Obj ((k, x) :: l)))
      with ("{" ++ quote k ++ ": " ++ dumps x ++ more_members l)%string.
    change (size (Obj ((k, x) :: l))) with (S (S (size x + member_sizes l))).
    rewrite !length_append. simpl String.length.
    pose proof (more_members_length l Hl). lia.
Qed.

(** [json.loads(json.dumps(v)) == v] *)
Lemma loads_dumps v : well_formed v -> loads (dumps v) = Some v.
Proof.
  intros Hwf. unfold loads.
  rewrite <- (append_nil_r (dumps v)) at 2.
  rewrite skip_ws_dumps.
  destruct (scan_dumps_fuel (S (String.length (dumps v)))) as [Hscan _].
  rewrite Hscan; [reflexivity | | exact Hwf].
  pose proof (size_le_length v). lia.
Qed.

End PyJsonFacts.

(* ================================================================== *)
(** ** Persisted schemas *)
(* ================================================================== *)

Module RoundTrip.
Import PyStr PyStrFacts PyDict PyDictFacts PyJson PyJsonFacts Re SchemaParser App.
Import Spec.

Lemma all_some_map {A B C} (g : A -> B) (f : B -> option C) (h : A -> C) l :
  (forall x, In x l -> f (g x) = Some (h x)) ->
  Json.all_some f (map g l) = Some (map h l).
Proof.
  induction l as [|x l IH]; intros H; cbn [map Json.all_some]; [reflexivity|].
  rewrite H by now left. rewrite IH; [reflexivity|]. intros y Hy. apply H. now right.
Qed.

Lemma map_id_on {A} (h : A -> A) l : (forall x, h x = x) -> map h l = l.
Proof. intros H. induction l as [|x l IH]; cbn [map]; [reflexivity | now rewrite H, IH]. Qed.

Lemma fk_of_to_value fk : Json.fk_of_value (Json.fk_to_value fk) = Some fk.
Proof.
  destruct fk as [c rt rc]. unfold Json.fk_of_value, Json.fk_to_value.
  cbn [Json.get_or PyDict.get Json.column Json.ref_table Json.ref_column].
  cbn. destruct c, rt, rc; reflexivity.
Qed.

Lemma table_of_to_value t : Json.table_of_value (Json.table_to_value t) = Some t.
Proof.
  destruct t as [cols pk fks]. unfold Json.table_of_value, Json.table_to_value.
  cbn [Json.columns Json.primary_key Json.foreign_keys].
  assert (Hc : Json.then_ (Json.get_or "columns" (Obj [])
                 (Obj [("columns", Obj (map (fun kv => (fst kv, Str (snd kv))) cols));
                       ("primary_key", Arr (map Str pk));
                       ("foreign_keys", Arr (map Json.fk_to_value fks))]))
               (Json.as_dict Json.as_str) = Some cols).
  { cbn [Json.get_or PyDict.get String.eqb Ascii.eqb Bool.eqb]. 
    replace (if Json.truthy_value (Obj (map (fun kv => (fst kv, Str (snd kv))) cols))
             then Obj (map (fun kv => (fst kv, Str (snd kv))) cols) else Obj [])
      with (Obj (map (fun kv : string * string => (fst kv, Str (snd kv))) cols))
      by (destruct cols; reflexivity).
    cbn [Json.then_ Json.as_dict].
    rewrite (all_some_map _ _ (fun kv : string * string => (fst kv, snd kv)))
      by reflexivity.
    apply f_equal. apply map_id_on. now intros []. }
  assert (Hp : Json.then_ (Json.get_or "primary_key" (Arr [])
                 (Obj [("columns", Obj (map (fun kv => (fst kv, Str (snd kv))) cols));
                       ("primary_key", Arr (map Str pk));
                       ("foreign_keys", Arr (map Json.fk_to_value fks))]))
               (Json.as_list Json.as_str) = Some pk).
  { cbn [Json.get_or PyDict.get String.eqb Ascii.eqb Bool.eqb].
    replace (if Json.truthy_value (Arr (map Str pk)) then Arr (map Str pk) else Arr [])
      with (Arr (map Str pk)) by (destruct pk; reflexivity).
    cbn [Json.then_ Json.as_list].
    rewrite (all_some_map _ _ (fun x : string => x)) by reflexivity.
    apply f_equal. apply map_id. }
  assert (Hf : Json.then_ (Json.get_or "foreign_keys" (Arr [])
                 (Obj [("columns", Obj (map (fun kv => (fst kv, Str (snd kv))) cols));
                       ("primary_key", Arr (map Str pk));
                       ("foreign_keys", Arr (map Json.fk_to_value fks))]))
               (Json.as_list Json.fk_of_value) = Some fks).
  { cbn [Json.get_or PyDict.get String.eqb Ascii.eqb Bool.eqb].
    replace (if Json.truthy_value (Arr (map Json.fk_to_value fks))
             then Arr (map Json.fk_to_value fks) else Arr [])
      with (Arr (map Json.fk_to_value fks)) by (destruct fks; reflexivity).
    cbn [Json.then_ Json.as_list].
    rewrite (all_some_map _ _ (fun x : Json.fk_json => x))
      by (intros; apply fk_of_to_value).
    apply f_equal. apply map_id. }
  rewrite Hc, Hp, Hf. reflexivity.
Qed.

(** Reading the dict of a schema by its keys gives the schema back. *)
Lemma of_to_value j : Json.of_value (Json.to_value j) = Some j.
Proof.
  destruct j as [tbls]. unfold Json.of_value, Json.to_value. cbn [Json.tables].
  cbn [Json.get_or PyDict.get String.eqb Ascii.eqb Bool.eqb].
  replace (if Json.truthy_value
                (Obj (map (fun kv => (fst kv, Json.table_to_value (snd kv))) tbls))
           then Obj (map (fun kv => (fst kv, Json.table_to_value (snd kv))) tbls)
           else Obj [])
    with (Obj (map (fun kv : string * Json.table_json =>
                      (fst kv, Json.table_to_value (snd kv))) tbls))
    by (destruct tbls; reflexivity).
  cbn [Json.then_ Json.as_dict].
  rewrite (all_some_map _ _ (fun kv : string * Json.table_json => (fst kv, snd kv))).
  - apply f_equal. apply f_equal. apply map_id_on. now intros [].
  - intros [k t] _. cbn [fst snd]. now rewrite table_of_to_value.
Qed.

Lemma all_wf_members {A} (f : A -> value) (l : list (string * A)) :
  (forall kx, In kx l -> well_formed (f (snd kx))) ->
  members_well_formed (map (fun kx => (fst kx, f (snd kx))) l).
Proof.
  induction l as [|kx l IH]; intros H; cbn [map members_well_formed]; [exact I|].
  split; [apply H; now left | apply IH; intros; apply H; now right].
Qed.

Lemma all_wf_items {A} (f : A -> value) (l : list A) :
  (forall x, well_formed (f x)) -> all_well_formed (map f l).
Proof.
  intros H. induction l as [|x l IH]; cbn [map all_well_formed]; [exact I | now split].
Qed.

Lemma well_formed_Obj l :
  well_formed (Obj l) <-> NoDup (map fst l) /\ members_well_formed l.
Proof. reflexivity. Qed.

Lemma well_formed_Arr l : well_formed (Arr l) <-> all_well_formed l.
Proof. reflexivity. Qed.

Lemma fst_map_members {A} (f : A -> value) (l : list (string * A)) :
  map fst (map (fun kx => (fst kx, f (snd kx))) l) = map fst l.
Proof. rewrite map_map. reflexivity. Qed.

Lemma three_keys_distinct (a b c : string) :
  a <> b -> a <> c -> b <> c -> NoDup [a; b; c].
Proof.
  intros Hab Hac Hbc. repeat constructor; simpl; intuition congruence.
Qed.

Lemma fk_to_value_wf fk : well_formed (Json.fk_to_value fk).
Proof.
  unfold Json.fk_to_value. apply well_formed_Obj. split.
  - apply three_keys_distinct; discriminate.
  - cbn. tauto.
Qed.

Lemma table_to_value_wf t :
  NoDup (keys (Json.columns t)) -> well_formed (Json.table_to_value t).
Proof.
  intros Hnd. unfold Json.table_to_value. apply well_formed_Obj. split.
  - apply three_keys_distinct; discriminate.
  - cbn [members_well_formed snd]. split; [|split; [|split; [|exact I]]].
    + apply well_formed_Obj. rewrite fst_map_members. split; [exact Hnd|].
      apply (all_wf_members Str). intros; exact I.
    + apply well_formed_Arr. apply (all_wf_items Str). intros; exact I.
    + apply well_formed_Arr. apply (all_wf_items Json.fk_to_value).
      apply fk_to_value_wf.
Qed.

Lemma to_value_wf j : keys_distinct j -> well_formed (Json.to_value j).
Proof.
  intros [Hnd Hcols]. unfold Json.to_value. apply well_formed_Obj. split.
  - repeat constructor. simpl. tauto.
  - cbn [members_well_formed snd]. split; [|exact I].
    apply well_formed_Obj. rewrite fst_map_members. split; [exact Hnd|].
    apply (all_wf_members Json.table_to_value). intros kx Hin.
    apply table_to_value_wf. rewrite Forall_forall in Hcols. now apply Hcols.
Qed.

(** A stored schema is read back as it was. *)
Lemma loaded_stored_schema j :
  keys_distinct j -> loaded_schema (stored_schema j) = Some j.
Proof.
  intros H. unfold loaded_schema, stored_schema.
  rewrite loads_dumps by now apply to_value_wf.
  cbn [Json.then_]. apply of_to_value.
Qed.


Lemma parse_item_columns acc item :
  NoDup (keys (acc_columns acc)) ->
  NoDup (keys (acc_columns (parse_item acc item))).
Proof.
  intros H. unfold parse_item.
  destruct (search IGNORECASE PK_RE _); [exact H|].
  destruct (search IGNORECASE FK_RE _); [exact H|].
  destruct (rematch IGNORECASE COLUMN_DEF_RE _); [|exact H].
  cbn [acc_columns]. now apply nodup_keys_set.
Qed.

Lemma parse_table_extracted M m : extracted M -> extracted (parse_table M m).
Proof.
  intros [Hnd Hall]. unfold parse_table. split; [now apply nodup_keys_set|].
  apply Forall_forall. intros [k t] Hin. revert k t Hin.
  apply set_sound.
  - cbn [fst snd name columns]. split; [reflexivity|].
    apply (fold_left_invariant (fun acc => NoDup (keys (acc_columns acc)))).
    + intros acc item. apply parse_item_columns.
    + constructor.
  - intros k t Hin. rewrite Forall_forall in Hall. exact (Hall (k, t) Hin).
Qed.

(** Every schema model the extractor builds is filed by table name,
    without repeated keys. *)
Lemma parse_schema_sql_extracted schema_sql : extracted (parse_schema_sql schema_sql).
Proof.
  unfold parse_schema_sql. apply (fold_left_invariant extracted).
  - intros M m. apply parse_table_extracted.
  - split; constructor.
Qed.

Lemma to_schema_json_keys M : keys (Json.tables (to_schema_json M)) = keys M.
Proof.
  unfold to_schema_json, keys. cbn [Json.tables]. rewrite map_map.
  apply map_ext. now intros [k t].
Qed.

Lemma to_schema_json_distinct M : extracted M -> keys_distinct (to_schema_json M).
Proof.
  intros [Hnd Hall]. split; [now rewrite to_schema_json_keys|].
  unfold to_schema_json. cbn [Json.tables]. apply Forall_map.
  eapply Forall_impl; [|exact Hall]. intros [k t] [_ H]. exact H.
Qed.

Lemma to_schema_json_same M : extracted M -> same_model M (to_schema_json M).
Proof.
  intros [_ Hall]. unfold same_model, to_schema_json. cbn [Json.tables].
  induction Hall as [|[k t] M [Hname _] _ IH]; cbn [map]; constructor; [|exact IH].
  cbn [fst snd Json.columns Json.primary_key Json.foreign_keys] in *.
  repeat split; try reflexivity.
  - now symmetry.
  - rewrite map_map. apply map_ext. now intros [].
Qed.

(** C8.  For every DDL text, the schema model built by the extractor,
    serialized with [to_schema_json], written as JSON text and read
    back, is a schema equal to the model field for field: the same
    tables, columns with their raw type text, primary keys and foreign
    keys, all in the same order. *)
Theorem extracted_schema_round_trips (schema_sql : string) :
  exists loaded,
    loaded_schema (stored_schema (to_schema_json (parse_schema_sql schema_sql)))
    = Some loaded /\
    same_model (parse_schema_sql schema_sql) loaded.
Proof.
  pose proof (parse_schema_sql_extracted schema_sql) as H.
  exists (to_schema_json (parse_schema_sql schema_sql)). split.
  - apply loaded_stored_schema. now apply to_schema_json_distinct.
  - now apply to_schema_json_same.
Qed.

End RoundTrip.

(* ================================================================== *)
(** ** What a validation report holds *)
(* ================================================================== *)

Module ReportFacts.
Import PyStr PyStrFacts PyDict PyDictFacts Re ReFacts Validator Spec Notions ValidateFacts.

Lemma mem_iff x l : mem x l = true <-> In x l.
Proof.
  unfold mem. rewrite existsb_exists. split.
  - intros (y & Hy & E). apply String.eqb_eq in E. now subst.
  - intros H. exists x. split; [exact H | apply String.eqb_refl].
Qed.

Lemma mem_false_iff x l : mem x l = false <-> ~ In x l.
Proof.
  rewrite <- mem_iff. destruct (mem x l); split; congruence.
Qed.

Lemma insert_sorted_In x l y : In y (insert_sorted x l) <-> y = x \/ In y l.
Proof.
  induction l as [|z l IH]; cbn [insert_sorted].
  - split; [intros [<- | []]; now left | intros [-> | []]; now left].
  - destruct (String.compare x z) eqn:E.
    + apply String.compare_eq_iff in E. subst z. split.
      * intros H; now right.
      * intros [-> | H]; [now left | exact H].
    + split; [intros [<- | H]; [now left | now right] |
              intros [-> | H]; [now left | now right]].
    + cbn [In]. rewrite IH. tauto.
Qed.

Lemma sorted_set_In l y : In y (sorted_set l) <-> In y l.
Proof.
  unfold sorted_set. induction l as [|x l IH]; cbn [fold_right]; [reflexivity|].
  rewrite insert_sorted_In, IH. cbn [In]. split; intros [H | H]; auto.
Qed.

(** The fields of the report, by the names of the intermediate values
    of [validate_against_schema]. *)
Lemma validate_fields sql s :
  tables_detected (validate_against_schema sql s) = tables_detected_of sql /\
  alias_map (validate_against_schema sql s) = alias_map_of sql /\
  missing_tables (validate_against_schema sql s) =
    filter (fun t => negb (mem t (map _lower (keys (Json.tables s)))))
      (tables_detected_of sql) /\
  unqualified_columns_resolved (validate_against_schema sql s) =
    snd (fst (unqualified_findings sql s)) /\
  invalid_joins (validate_against_schema sql s) =
    fst (fk_join_check (sql0_of sql) s (alias_map_of sql)) /\
  join_warnings (validate_against_schema sql s) =
    snd (fk_join_check (sql0_of sql) s (alias_map_of sql)) /\
  type_mismatches (validate_against_schema sql s) =
    firstn 50 (type_findings sql s).
Proof.
  unfold validate_against_schema, unqualified_findings, candidates_of,
    detected_tables_cols_of, tables_detected_of, alias_map_of,
    cols_by_table_of, type_findings, type_by_table_of, sql0_of.
  cbv zeta.
  destruct (qualified_loop _ _ _) as [[ua uc] ui].
  destruct (fold_left (unqualified_step _ _) _ _) as [[seen res] amb].
  repeat split; reflexivity.
Qed.

(** *** Unknown aliases *)

Lemma qualified_step_aliases am cbt st ref :
  (NoDup (fst (fst st)) /\
   forall a, In a (fst (fst st)) ->
             PyDict.get a am = None /\ has_key a cbt = false) ->
  NoDup (fst (fst (qualified_step am cbt st ref))) /\
  forall a, In a (fst (fst (qualified_step am cbt st ref))) ->
            PyDict.get a am = None /\ has_key a cbt = false.
Proof.
  destruct st as [[ua ucs] ui], ref as [a c]. unfold qualified_step.
  cbn [fst snd]. intros [Hnd Hall].
  destruct (PyDict.get (_lower a) am) as [t|] eqn:Eg.
  - destruct (negb (mem _ _)); cbn [fst snd]; now split.
  - destruct (has_key (_lower a) cbt) eqn:Ek; cbn [negb andb fst snd];
      [now split|].
    destruct (mem (_lower a) ua) eqn:Em; cbn [negb fst snd]; [now split|].
    apply mem_false_iff in Em. split.
    + apply NoDup_app; [exact Hnd | repeat constructor; intros [] |].
      intros x Hx [<- | []]. contradiction.
    + intros x Hx. apply in_app_or in Hx as [Hx | [<- | []]];
        [now apply Hall | now split].
Qed.

Lemma unknown_aliases_invariant sql s :
  NoDup (unknown_aliases (validate_against_schema sql s)) /\
  forall a, In a (unknown_aliases (validate_against_schema sql s)) ->
    PyDict.get a (alias_map_of sql) = None /\
    has_key a (cols_by_table_of s) = false.
Proof.
  destruct (validate_qualified_findings sql s) as [-> _].
  unfold qualified_findings, qualified_loop.
  apply (fold_left_invariant
           (fun st => NoDup (fst (fst st)) /\
                      forall a, In a (fst (fst st)) ->
                        PyDict.get a (alias_map_of sql) = None /\
                        has_key a (cols_by_table_of s) = false)).
  - intros st ref. apply qualified_step_aliases.
  - cbn [fst]. split; [constructor | intros a []].
Qed.

(** *** Unqualified columns *)

Lemma NoDup_snoc {A} (l : list A) x : NoDup l -> ~ In x l -> NoDup (l ++ [x]).
Proof.
  intros Hl Hx. apply NoDup_app; [exact Hl | repeat constructor; intros [] |].
  intros y Hy [<- | []]. contradiction.
Qed.

Lemma unqualified_step_owned sql_l dtc st tok :
  owned dtc st -> owned dtc (unqualified_step sql_l dtc st tok).
Proof.
  destruct st as [[seen res] amb]. unfold unqualified_step, owned.
  intros (Hres & Hamb & Hnr & Hna).
  destruct (mem tok seen) eqn:Em;
    [exact (conj Hres (conj Hamb (conj Hnr Hna)))|].
  apply mem_false_iff in Em.
  assert (Hres' : forall rc, In rc res ->
            In (resolved_column rc) (seen ++ [tok]) /\
            map fst (filter (fun tc => mem (resolved_column rc) (snd tc)) dtc) =
              [resolved_table rc]).
  { intros rc Hrc. destruct (Hres rc Hrc) as [H1 H2].
    split; [apply in_or_app; now left | exact H2]. }
  assert (Hamb' : forall ac, In ac amb ->
            In (ambiguous_column ac) (seen ++ [tok]) /\
            map fst (filter (fun tc => mem (ambiguous_column ac) (snd tc)) dtc) =
              ambiguous_tables ac /\
            2 <= List.length (ambiguous_tables ac)).
  { intros ac Hac. destruct (Hamb ac Hac) as (H1 & H2 & H3).
    split; [apply in_or_app; now left | now split]. }
  assert (Htr : ~ In tok (map resolved_column res)).
  { intros H. apply in_map_iff in H as (rc & <- & Hrc).
    apply Em. now apply Hres. }
  assert (Hta : ~ In tok (map ambiguous_column amb)).
  { intros H. apply in_map_iff in H as (ac & <- & Hac).
    apply Em. now apply Hamb. }
  destruct (search _ _ _); [exact (conj Hres' (conj Hamb' (conj Hnr Hna)))|].
  destruct (map fst (filter (fun tc => mem tok (snd tc)) dtc))
    as [|o [|o' os]] eqn:Eo.
  - exact (conj Hres' (conj Hamb' (conj Hnr Hna))).
  - split; [|split; [exact Hamb' | split; [|exact Hna]]].
    + intros rc Hrc. apply in_app_or in Hrc as [Hrc | [<- | []]];
        [now apply Hres'|].
      cbn [resolved_column resolved_table].
      split; [apply in_or_app; right; now left | exact Eo].
    + rewrite map_app. cbn [map resolved_column]. now apply NoDup_snoc.
  - split; [exact Hres' | split; [|split; [exact Hnr|]]].
    + intros ac Hac. apply in_app_or in Hac as [Hac | [<- | []]];
        [now apply Hamb'|].
      cbn [ambiguous_column ambiguous_tables].
      split; [apply in_or_app; right; now left|].
      split; [exact Eo | cbn [List.length]; lia].
    + rewrite map_app. cbn [map ambiguous_column]. now apply NoDup_snoc.
Qed.

Lemma unqualified_findings_owned sql s :
  owned (detected_tables_cols_of sql s) (unqualified_findings sql s).
Proof.
  unfold unqualified_findings.
  apply (fold_left_invariant (owned (detected_tables_cols_of sql s))).
  - intros st tok. apply unqualified_step_owned.
  - cbn. split; [intros ? []|]. split; [intros ? []|]. split; constructor.
Qed.

(** The tables among [detected_tables_cols_of] that have a column are
    the detected tables that declare it. *)
Lemma owners_iff sql s col t :
  In t (map fst (filter (fun tc => mem col (snd tc))
                        (detected_tables_cols_of sql s))) <->
  In t (tables_detected_of sql) /\ In col (get_set t (cols_by_table_of s)).
Proof.
  unfold detected_tables_cols_of. rewrite in_map_iff. split.
  - intros ([t' cols] & <- & H). apply filter_In in H as [H Hm].
    apply in_map_iff in H as (t0 & [= <- <-] & H).
    apply filter_In in H as [H _]. cbn [fst snd] in *.
    split; [exact H | now apply mem_iff].
  - intros [Ht Hc]. exists (t, get_set t (cols_by_table_of s)).
    split; [reflexivity|]. apply filter_In. split.
    + apply in_map_iff. exists t. split; [reflexivity|].
      apply filter_In. split; [exact Ht|].
      unfold get_set, has_key in *.
      destruct (PyDict.get t (cols_by_table_of s)); [reflexivity | destruct Hc].
    + cbn [snd]. now apply mem_iff.
Qed.

Lemma unqualified_columns_owned sql s :
  (forall rc,
     In rc (unqualified_columns_resolved (validate_against_schema sql s)) ->
     forall t,
       (In t (tables_detected (validate_against_schema sql s)) /\
        In (resolved_column rc) (get_set t (cols_by_table_of s))) <->
       t = resolved_table rc) /\
  (forall ac,
     In ac (ambiguous_unqualified_columns (validate_against_schema sql s)) ->
     2 <= List.length (ambiguous_tables ac) /\
     forall t,
       In t (ambiguous_tables ac) <->
       In t (tables_detected (validate_against_schema sql s)) /\
       In (ambiguous_column ac) (get_set t (cols_by_table_of s))).
Proof.
  destruct (validate_fields sql s) as (-> & _ & _ & -> & _).
  rewrite validate_unqualified_findings.
  pose proof (unqualified_findings_owned sql s) as H.
  destruct (unqualified_findings sql s) as [[seen res] amb].
  destruct H as (Hres & Hamb & _ & _). cbn [fst snd]. split.
  - intros rc Hrc t. rewrite <- owners_iff.
    destruct (Hres rc Hrc) as [_ ->]. cbn [In]. split; [intros [<- | []] | intros ->; left]; reflexivity.
  - intros ac Hac. destruct (Hamb ac Hac) as (_ & Ho & Hl).
    split; [exact Hl|]. intros t. rewrite <- owners_iff, Ho. reflexivity.
Qed.

Lemma unqualified_columns_once sql s :
  NoDup (map resolved_column
           (unqualified_columns_resolved (validate_against_schema sql s))) /\
  NoDup (map ambiguous_column
           (ambiguous_unqualified_columns (validate_against_schema sql s))) /\
  forall rc ac,
    In rc (unqualified_columns_resolved (validate_against_schema sql s)) ->
    In ac (ambiguous_unqualified_columns (validate_against_schema sql s)) ->
    resolved_column rc <> ambiguous_column ac.
Proof.
  destruct (validate_fields sql s) as (_ & _ & _ & -> & _).
  rewrite validate_unqualified_findings.
  pose proof (unqualified_findings_owned sql s) as H.
  destruct (unqualified_findings sql s) as [[seen res] amb].
  destruct H as (Hres & Hamb & Hnr & Hna). cbn [fst snd].
  split; [exact Hnr|]. split; [exact Hna|].
  intros rc ac Hrc Hac E.
  destruct (Hres rc Hrc) as [_ H1]. destruct (Hamb ac Hac) as (_ & H2 & H3).
  rewrite E, H2 in H1. rewrite H1 in H3. cbn in H3. lia.
Qed.

(** *** The alias map *)

Lemma get_set_same {V} k (v : V) d : PyDict.get k (PyDict.set k v d) = Some v.
Proof.
  induction d as [|[k' v'] d IH]; cbn [PyDict.get PyDict.set].
  - now rewrite String.eqb_refl.
  - destruct (String.eqb k' k) eqn:E; cbn [PyDict.get]; rewrite E;
      [reflexivity | exact IH].
Qed.

Lemma get_set_other {V} k k' (v : V) d :
  k <> k' -> PyDict.get k' (PyDict.set k v d) = PyDict.get k' d.
Proof.
  intros Hne. induction d as [|[k0 v0] d IH]; cbn [PyDict.get PyDict.set].
  - destruct (String.eqb_spec k k'); [contradiction | reflexivity].
  - destruct (String.eqb_spec k0 k) as [-> | Hk]; cbn [PyDict.get].
    + destruct (String.eqb_spec k k'); [contradiction | reflexivity].
    + destruct (String.eqb k0 k'); [reflexivity | exact IH].
Qed.

Lemma build_alias_map_bindings sql :
  build_alias_map sql =
  fold_left (fun d b => PyDict.set (fst b) (snd b) d) (bindings sql) [].
Proof.
  unfold build_alias_map, bindings.
  generalize (@nil (string * string)).
  induction (finditer IGNORECASE FROM_JOIN_RE sql) as [|m ms IH]; intros d;
    cbn [fold_left map]; [reflexivity | apply IH].
Qed.

Lemma get_fold_set (a : string) (bs : list (string * string)) :
  forall d,
    PyDict.get a (fold_left (fun d b => PyDict.set (fst b) (snd b) d) bs d) =
    fold_left (fun found b => if String.eqb (fst b) a then Some (snd b) else found)
      bs (PyDict.get a d).
Proof.
  induction bs as [|[k v] bs IH]; intros d; cbn [fold_left fst snd];
    [reflexivity|].
  rewrite IH. f_equal.
  destruct (String.eqb_spec k a) as [-> | Hne];
    [apply get_set_same | now apply get_set_other].
Qed.

Lemma alias_map_last_binding sql a :
  PyDict.get a (build_alias_map sql) = last_binding a (bindings sql).
Proof.
  rewrite build_alias_map_bindings. unfold last_binding.
  now rewrite get_fold_set.
Qed.

(** Aliases and tables are filed in lower case. *)
Lemma alias_map_lower sql a t :
  In (a, t) (build_alias_map sql) -> lower a = a /\ lower t = t.
Proof.
  unfold build_alias_map.
  apply (fold_left_invariant
           (fun d => forall a t, In (a, t) d -> lower a = a /\ lower t = t)).
  - intros d m Hd. apply set_sound; [|exact Hd].
    unfold _lower. split; apply lower_idem.
  - intros ? ? [].
Qed.

Lemma get_In {V} k (v : V) d : PyDict.get k d = Some v -> In (k, v) d.
Proof.
  induction d as [|[k' v'] d IH]; cbn [PyDict.get]; [discriminate|].
  destruct (String.eqb_spec k' k) as [-> | Hne].
  - intros [= ->]. now left.
  - intros H. right. now apply IH.
Qed.

(** *** Foreign keys and joins *)

Lemma edge_eqb_eq e1 e2 : edge_eqb e1 e2 = true <-> e1 = e2.
Proof.
  destruct e1 as [[[a1 b1] c1] d1], e2 as [[[a2 b2] c2] d2]. unfold edge_eqb.
  rewrite !andb_true_iff, !String.eqb_eq. split.
  - intros [[[-> ->] ->] ->]. reflexivity.
  - intros [= -> -> -> ->]. auto.
Qed.

Lemma declared_fk_iff s t1 c1 t2 c2 :
  existsb (edge_eqb (t1, c1, t2, c2)) (fk_edges_of (Json.tables s)) = true <->
  declared_fk s t1 c1 t2 c2.
Proof.
  rewrite existsb_exists. unfold declared_fk, fk_edges_of. split.
  - intros (e & He & E). apply edge_eqb_eq in E. subst e.
    apply in_flat_map in He as ([t meta] & Ht & He).
    apply in_map_iff in He as (fk & [= <- <- <- <-] & Hfk).
    exists t, meta, fk. repeat split; assumption.
  - intros (t & meta & fk & Ht & Hfk & <- & <- & <- & <-).
    eexists. split; [|apply edge_eqb_eq; reflexivity].
    apply in_flat_map. exists (t, meta). split; [exact Ht|].
    apply in_map_iff. exists fk. split; [reflexivity | exact Hfk].
Qed.

Lemma fk_join_step_no_fk s am acc m :
  (forall ij, In ij (fst acc) -> no_fk s am ij) ->
  forall ij,
    In ij (fst (fk_join_step (fk_edges_of (Json.tables s))
                  (pk_map_of (Json.tables s)) am acc m)) ->
    no_fk s am ij.
Proof.
  destruct acc as [invalid warnings]. cbn [fst]. intros Hacc ij.
  unfold fk_join_step.
  destruct (PyDict.get (_lower (group 1 m)) am) as [t1|] eqn:E1;
    [|cbn [fst]; apply Hacc].
  destruct (PyDict.get (_lower (group 3 m)) am) as [t2|] eqn:E2;
    [|cbn [fst]; apply Hacc].
  destruct (existsb (edge_eqb (_lower t1, _, _lower t2, _)) _) eqn:Ed;
    [cbn [orb fst]; apply Hacc|].
  destruct (existsb (edge_eqb (_lower t2, _, _lower t1, _)) _) eqn:Er;
    [cbn [orb fst]; apply Hacc|].
  cbn [orb]. destruct (_ && _ && _)%bool; cbn [fst]; [apply Hacc|].
  intros H. apply in_app_or in H as [H | [<- | []]]; [now apply Hacc|].
  exists (_lower (group 1 m)), (_lower (group 3 m)), t1,
    (_lower (group 2 m)), t2, (_lower (group 4 m)).
  cbn [left right reason]. unfold _lower in *.
  repeat split; try assumption.
  - intros Hd. apply declared_fk_iff in Hd. congruence.
  - intros Hd. apply declared_fk_iff in Hd. congruence.
Qed.

Lemma invalid_joins_no_fk sql s ij :
  In ij (invalid_joins (validate_against_schema sql s)) ->
  no_fk s (alias_map_of sql) ij.
Proof.
  destruct (validate_fields sql s) as (_ & _ & _ & _ & -> & _).
  unfold fk_join_check. revert ij.
  apply (fold_left_invariant
           (fun acc => forall ij, In ij (fst acc) -> no_fk s (alias_map_of sql) ij)).
  - intros acc m. apply fk_join_step_no_fk.
  - intros ij [].
Qed.

(** *** Type findings *)

Lemma Forall_snoc {A} (P : A -> Prop) l x : Forall P l -> P x -> Forall P (l ++ [x]).
Proof. intros Hl Hx. apply Forall_app. split; [exact Hl | now constructor]. Qed.

Lemma mem3_In x : mem x ["numeric"; "text"; "boolean"] = true ->
  In x ["numeric"; "text"; "boolean"].
Proof. apply mem_iff. Qed.

Lemma comparison_step_real am tbt l m :
  Forall real_mismatch l -> Forall real_mismatch (comparison_step am tbt l m).
Proof.
  intros Hl. unfold comparison_step.
  destruct (col_type am tbt _ _) as [ct|]; [|exact Hl].
  destruct (String.eqb_spec (literal_type (group 4 m)) "null") as [|Hnull];
    [exact Hl|].
  destruct (mem (lower (group 3 m)) [">"; "<"; ">="; "<="]).
  - destruct (String.eqb_spec ct "numeric"); cbn [negb]; [exact Hl|].
    apply Forall_snoc; [exact Hl|]. left. now repeat split.
  - destruct (mem (lower (group 3 m)) ["="; "!="; "<>"]); [|exact Hl].
    destruct (mem ct _) eqn:E1; cbn [andb]; [|exact Hl].
    destruct (mem (literal_type _) _) eqn:E2; cbn [andb]; [|exact Hl].
    destruct (String.eqb_spec ct (literal_type (group 4 m))); cbn [negb];
      [exact Hl|].
    apply Forall_snoc; [exact Hl|]. right; left.
    split; [reflexivity|]. split; [assumption|].
    split; now apply mem3_In.
Qed.

Lemma like_step_real am tbt l m :
  Forall real_mismatch l -> Forall real_mismatch (like_step am tbt l m).
Proof.
  intros Hl. unfold like_step.
  destruct (col_type am tbt _ _) as [ct|]; [|exact Hl].
  destruct (String.eqb_spec ct "text"); cbn [negb]; [exact Hl|].
  apply Forall_snoc; [exact Hl|]. right; right. now repeat split.
Qed.

Lemma join_type_step_real am tbt l m :
  Forall real_mismatch l -> Forall real_mismatch (join_type_step am tbt l m).
Proof.
  intros Hl. unfold join_type_step.
  destruct (col_type am tbt _ _) as [t1|]; [|exact Hl].
  destruct (col_type am tbt _ _) as [t2|]; [|exact Hl].
  destruct (String.eqb_spec t1 t2); cbn [negb andb]; [exact Hl|].
  destruct (String.eqb_spec t1 "other"); cbn [negb andb]; [exact Hl|].
  destruct (String.eqb_spec t2 "other"); cbn [negb andb]; [exact Hl|].
  apply Forall_snoc; [exact Hl|]. now repeat split.
Qed.

Lemma type_findings_real sql s : Forall real_mismatch (type_findings sql s).
Proof.
  unfold type_findings.
  apply (fold_left_invariant (Forall real_mismatch));
    [intros; now apply join_type_step_real|].
  apply (fold_left_invariant (Forall real_mismatch));
    [intros; now apply like_step_real|].
  apply (fold_left_invariant (Forall real_mismatch));
    [intros; now apply comparison_step_real|].
  constructor.
Qed.

Lemma In_firstn {A} n (l : list A) x : In x (firstn n l) -> In x l.
Proof.
  revert l. induction n as [|n IH]; intros [|y l]; cbn [firstn In]; try tauto.
  intros [H | H]; [now left | right; now apply IH].
Qed.

(** X16.  [type_mismatches] never has more than fifty entries, and
    every entry is a real mismatch: a comparison entry has a column
    type other than numeric, an equality entry two different types
    among numeric, text and boolean, a like entry a column type other
    than text, and a join entry two different types neither of which
    is other. *)
Theorem type_mismatches_are_real_and_capped (sql : string)
  (s : Json.schema_json) :
  List.length (type_mismatches (validate_against_schema sql s)) <= 50 /\
  forall m, In m (type_mismatches (validate_against_schema sql s)) ->
            real_mismatch m.
Proof.
  destruct (validate_fields sql s) as (_ & _ & _ & _ & _ & _ & ->).
  split; [apply firstn_le_length|].
  intros m Hm. apply In_firstn in Hm.
  pose proof (type_findings_real sql s) as H.
  rewrite Forall_forall in H. now apply H.
Qed.

(** *** Missing tables *)

(** X17.  A table is reported missing exactly when the query binds it
    to some alias and no table of the schema has its name, up to
    case. *)
Theorem missing_tables_are_the_unmatched_detected (sql : string)
  (s : Json.schema_json) (t : string) :
  In t (missing_tables (validate_against_schema sql s)) <->
  (exists a, In (a, t) (alias_map (validate_against_schema sql s))) /\
  forall k, In k (keys (Json.tables s)) -> lower k <> t.
Proof.
  destruct (validate_fields sql s) as (_ & -> & -> & _).
  rewrite filter_In. unfold tables_detected_of. rewrite sorted_set_In.
  unfold values. rewrite in_map_iff, negb_true_iff, mem_false_iff, in_map_iff.
  split.
  - intros [([a t'] & <- & Hin) Hno]. split; [now exists a|].
    intros k Hk E. apply Hno. now exists k.
  - intros [[a Hin] Hno]. split; [now exists (a, t)|].
    intros (k & E & Hk). now apply (Hno k).
Qed.

(** X12.  For every SQL text and schema, [unknown_aliases] lists no
    qualifier twice, and every qualifier it lists is neither bound in
    the alias map nor the name of a table of the schema, up to case. *)
Theorem unknown_aliases_are_unbound (sql : string) (schema_json : Json.schema_json) :
  NoDup (unknown_aliases (validate_against_schema sql schema_json)) /\
  forall a, In a (unknown_aliases (validate_against_schema sql schema_json)) ->
    PyDict.get a (alias_map (validate_against_schema sql schema_json)) = None /\
    forall t, In t (keys (Json.tables schema_json)) -> lower t <> a.
Proof.
  destruct (unknown_aliases_invariant sql schema_json) as [Hnd Hall].
  destruct (validate_fields sql schema_json) as (_ & Ham & _).
  split; [exact Hnd|]. intros a Ha. destruct (Hall a Ha) as [Hg Hk].
  rewrite Ham. split; [exact Hg|]. intros t Ht E.
  assert (Hin : has_key a (cols_by_table_of schema_json) = true).
  { apply has_key_iff. unfold cols_by_table_of. apply keys_comprehension.
    now exists t. }
  congruence.
Qed.

(** *** Unknown columns *)

Lemma qualified_step_unknown_columns am cbt st a c uc :
  In uc (snd (fst (qualified_step am cbt st (a, c)))) <->
  In uc (snd (fst st)) \/
  (alias uc = lower a /\ column uc = lower c /\
   PyDict.get (lower a) am = Some (table uc) /\
   ~ In (lower c) (get_set (table uc) cbt)).
Proof.
  destruct st as [[ua ucs] ui]. unfold qualified_step, _lower.
  destruct (PyDict.get (lower a) am) as [t|] eqn:Eg.
  - destruct (mem (lower c) (get_set t cbt)) eqn:Em; cbn [negb fst snd].
    + split; [now left|]. intros [H | (_ & _ & [= ->] & Hn)]; [exact H|].
      exfalso. apply Hn. now apply mem_iff.
    + rewrite in_app_iff. split.
      * intros [H | [<- | []]]; [now left | right]. cbn [alias column table].
        split; [reflexivity|]. split; [reflexivity|]. split; [reflexivity|].
        now apply mem_false_iff.
      * intros [H | (Ha & Hc & [= ->] & _)]; [now left | right; left].
        destruct uc as [t' a' c']. cbn [alias column table] in *. now subst.
  - split; [|intros [H | (_ & _ & H & _)]; [|discriminate]].
    + destruct (negb _ && negb _)%bool; cbn [fst snd]; now left.
    + destruct (negb _ && negb _)%bool; cbn [fst snd]; exact H.
Qed.

Lemma qualified_loop_unknown_columns am cbt refs :
  forall st uc,
    In uc (snd (fst (fold_left (qualified_step am cbt) refs st))) <->
    In uc (snd (fst st)) \/
    exists a c, In (a, c) refs /\
      alias uc = lower a /\ column uc = lower c /\
      PyDict.get (lower a) am = Some (table uc) /\
      ~ In (lower c) (get_set (table uc) cbt).
Proof.
  induction refs as [|[a c] refs IH]; intros st uc; cbn [fold_left].
  - split; [now left | intros [H | (a & c & [] & _)]; exact H].
  - rewrite IH, qualified_step_unknown_columns. split.
    + intros [[H | H] | (a' & c' & Hin & H)].
      * now left.
      * right. exists a, c. split; [now left | exact H].
      * right. exists a', c'. split; [now right | exact H].
    + intros [H | (a' & c' & [[= <- <-] | Hin] & Hc)].
      * left. now left.
      * left. now right.
      * right. now exists a', c'.
Qed.

(** X1.  For every SQL text and schema, [unknown_columns] has an entry
    exactly for the qualified references of the text whose qualifier
    is bound as an alias to a table that the schema gives no such
    column, up to case: the entry carries the lowercased alias and
    column and the table the alias is bound to.  The column names it
    lists are never empty and are in lower case. *)
Theorem unknown_columns_are_undeclared (sql : string)
  (schema_json : Json.schema_json) :
  (forall uc,
     In uc (unknown_columns (validate_against_schema sql schema_json)) <->
     undeclared_reference sql schema_json uc) /\
  (forall uc,
     In uc (unknown_columns (validate_against_schema sql schema_json)) ->
     column uc <> EmptyString /\ lower (column uc) = column uc).
Proof.
  split; [|intros uc; apply produced_unknown_columns].
  intros uc. destruct (validate_qualified_findings sql schema_json) as [_ ->].
  unfold qualified_findings, qualified_loop, undeclared_reference.
  rewrite qualified_loop_unknown_columns. cbn [fst snd]. split.
  - intros [[] | H]. exact H.
  - intros H. now right.
Qed.

(** X13.  For every SQL text and schema: a column listed in
    [unqualified_columns_resolved] is declared by exactly one detected
    table, the one the entry names; an entry of
    [ambiguous_unqualified_columns] names at least two tables, and they
    are exactly the detected tables that declare the column; no column
    is listed twice among the resolved columns, none twice among the
    ambiguous ones, and none is both resolved and ambiguous. *)
Theorem unqualified_columns_are_owned (sql : string) (schema_json : Json.schema_json) :
  (forall rc,
     In rc (unqualified_columns_resolved
              (validate_against_schema sql schema_json)) ->
     forall t,
       (In t (tables_detected (validate_against_schema sql schema_json)) /\
        In (resolved_column rc) (get_set t (cols_by_table_of schema_json))) <->
       t = resolved_table rc) /\
  (forall ac,
     In ac (ambiguous_unqualified_columns
              (validate_against_schema sql schema_json)) ->
     2 <= List.length (ambiguous_tables ac) /\
     forall t,
       In t (ambiguous_tables ac) <->
       In t (tables_detected (validate_against_schema sql schema_json)) /\
       In (ambiguous_column ac) (get_set t (cols_by_table_of schema_json))) /\
  NoDup (map resolved_column
           (unqualified_columns_resolved
              (validate_against_schema sql schema_json))) /\
  NoDup (map ambiguous_column
           (ambiguous_unqualified_columns
              (validate_against_schema sql schema_json))) /\
  (forall rc ac,
     In rc (unqualified_columns_resolved
              (validate_against_schema sql schema_json)) ->
     In ac (ambiguous_unqualified_columns
              (validate_against_schema sql schema_json)) ->
     resolved_column rc <> ambiguous_column ac).
Proof.
  destruct (unqualified_columns_owned sql schema_json) as [H1 H2].
  destruct (unqualified_columns_once sql schema_json) as (H3 & H4 & H5).
  auto.
Qed.

(** X15.  A join is reported invalid only between two bound aliases
    whose tables have no declared foreign key for the joined columns,
    in either direction. *)
Theorem invalid_join_matches_no_foreign_key
  (sql : string) (schema_json : Json.schema_json) (ij : InvalidJoin) :
  In ij (invalid_joins (validate_against_schema sql schema_json)) ->
  exists a1 a2 t1 c1 t2 c2,
    PyDict.get a1 (alias_map (validate_against_schema sql schema_json)) = Some t1 /\
    PyDict.get a2 (alias_map (validate_against_schema sql schema_json)) = Some t2 /\
    left ij = (t1 ++ "." ++ c1)%string /\
    right ij = (t2 ++ "." ++ c2)%string /\
    ~ declared_fk schema_json t1 c1 t2 c2 /\
    ~ declared_fk schema_json t2 c2 t1 c1.
Proof.
  intros H. apply invalid_joins_no_fk in H
    as (a1 & a2 & t1 & c1 & t2 & c2 & H1 & H2 & Hl & Hr & _ & Hd & Hrv).
  destruct (validate_fields sql schema_json) as (_ & -> & _).
  destruct (alias_map_lower _ _ _ (get_In _ _ _ H1)) as [_ E1].
  destruct (alias_map_lower _ _ _ (get_In _ _ _ H2)) as [_ E2].
  rewrite E1, E2 in *.
  exists a1, a2, t1, c1, t2, c2. repeat split; assumption.
Qed.

Lemma invalid_join_matches_no_foreign_key_witness :
  In {| left := "employees.emp_id"; right := "branches.branch_name";
        reason := "No FK relationship found for this join condition" |}
     (invalid_joins (validate_against_schema mismatched_join_sql employees_schema)) /\
  exists a1 a2 t1 c1 t2 c2,
    PyDict.get a1 (alias_map (validate_against_schema mismatched_join_sql
                                employees_schema)) = Some t1 /\
    PyDict.get a2 (alias_map (validate_against_schema mismatched_join_sql
                                employees_schema)) = Some t2 /\
    "employees.emp_id" = (t1 ++ "." ++ c1)%string /\
    "branches.branch_name" = (t2 ++ "." ++ c2)%string /\
    ~ declared_fk employees_schema t1 c1 t2 c2 /\
    ~ declared_fk employees_schema t2 c2 t1 c1.
Proof.
  split; [vm_compute; left; reflexivity|].
  apply (invalid_join_matches_no_foreign_key mismatched_join_sql employees_schema
           {| left := "employees.emp_id"; right := "branches.branch_name";
              reason := "No FK relationship found for this join condition" |}).
  vm_compute. left. reflexivity.
Defined.

(** X18.  The alias map binds every alias to the table of its last
    FROM or JOIN clause in the text, and holds aliases and tables in
    lower case. *)
Theorem alias_map_takes_the_last_binding (sql : string) :
  (forall a, PyDict.get a (build_alias_map sql) = last_binding a (bindings sql)) /\
  (forall a t, In (a, t) (build_alias_map sql) -> lower a = a /\ lower t = t).
Proof.
  split; [intros a; apply alias_map_last_binding | apply alias_map_lower].
Qed.

(** *** Unknown identifiers *)

Lemma validate_unknown_identifiers sql s :
  unknown_identifiers (validate_against_schema sql s) =
  unknown_identifiers_of sql s.
Proof.
  unfold validate_against_schema, unknown_identifiers_of, unqualified_findings,
    qualified_findings, candidates_of, detected_tables_cols_of,
    tables_detected_of, alias_map_of, cols_by_table_of, sql0_of.
  cbv zeta.
  destruct (qualified_loop _ _ _) as [[ua uc] ui].
  destruct (fold_left (unqualified_step _ _) _ _) as [[seen res] amb].
  reflexivity.
Qed.

Lemma append_new_In x l y : In y (append_new x l) <-> y = x \/ In y l.
Proof.
  unfold append_new. destruct (mem x l) eqn:E.
  - apply mem_iff in E. split; [now right | intros [-> | H]; assumption].
  - rewrite in_app_iff. cbn [In]. split.
    + intros [H | [<- | []]]; [now right | now left].
    + intros [-> | H]; [right; now left | now left].
Qed.

Lemma rest_fold_In (skip : string -> bool) seen : forall ui x,
  In x (fold_left (fun ui tok => if skip tok then ui else append_new tok ui)
          seen ui) <->
  In x ui \/ (In x seen /\ skip x = false).
Proof.
  induction seen as [|t seen IH]; intros ui x; cbn [fold_left In].
  - tauto.
  - rewrite IH. destruct (skip t) eqn:E.
    + split; [tauto|]. intros [H | [[<- | H] Hs]]; [tauto | congruence | tauto].
    + rewrite append_new_In. split.
      * intros [[-> | H] | H]; [right; tauto | tauto | tauto].
      * intros [H | [[<- | H] Hs]]; [tauto | left; now left | tauto].
Qed.

(** The loop over the candidates sees every candidate, and files a
    column as resolved or ambiguous only when it is not used in
    qualified form. *)
Lemma unqualified_step_seen sql_l dtc cands st tok :
  ((forall x, In x (fst (fst st)) <-> In x cands) /\
   (forall rc, In rc (snd (fst st)) ->
      search NOFLAGS (used_qualified_re (resolved_column rc)) sql_l = None) /\
   (forall ac, In ac (snd st) ->
      search NOFLAGS (used_qualified_re (ambiguous_column ac)) sql_l = None)) ->
  (forall x, In x (fst (fst (unqualified_step sql_l dtc st tok))) <->
             In x (cands ++ [tok])) /\
  (forall rc, In rc (snd (fst (unqualified_step sql_l dtc st tok))) ->
     search NOFLAGS (used_qualified_re (resolved_column rc)) sql_l = None) /\
  (forall ac, In ac (snd (unqualified_step sql_l dtc st tok)) ->
     search NOFLAGS (used_qualified_re (ambiguous_column ac)) sql_l = None).
Proof.
  destruct st as [[seen res] amb]. cbn [fst snd]. intros (Hs & Hr & Ha).
  unfold unqualified_step.
  destruct (mem tok seen) eqn:Em.
  - apply mem_iff in Em. cbn [fst snd]. split; [|now split].
    intros x. rewrite in_app_iff, <- Hs. cbn [In].
    split; [tauto | intros [H | [<- | []]]; assumption].
  - assert (Hs' : forall x, In x (seen ++ [tok]) <-> In x (cands ++ [tok])).
    { intros x. rewrite !in_app_iff, Hs. reflexivity. }
    destruct (search NOFLAGS (used_qualified_re tok) sql_l) eqn:Eq;
      [cbn [fst snd]; now split|].
    destruct (map fst (filter _ dtc)) as [|o [|o' os]]; cbn [fst snd].
    + now split.
    + split; [exact Hs'|]. split; [|exact Ha].
      intros rc Hrc. apply in_app_or in Hrc as [Hrc | [<- | []]];
        [now apply Hr | exact Eq].
    + split; [exact Hs'|]. split; [exact Hr|].
      intros ac Hac. apply in_app_or in Hac as [Hac | [<- | []]];
        [now apply Ha | exact Eq].
Qed.

Lemma unqualified_loop_seen sql_l dtc cands : forall done st,
  ((forall x, In x (fst (fst st)) <-> In x done) /\
   (forall rc, In rc (snd (fst st)) ->
      search NOFLAGS (used_qualified_re (resolved_column rc)) sql_l = None) /\
   (forall ac, In ac (snd st) ->
      search NOFLAGS (used_qualified_re (ambiguous_column ac)) sql_l = None)) ->
  (forall x, In x (fst (fst (fold_left (unqualified_step sql_l dtc) cands st))) <->
             In x (done ++ cands)) /\
  (forall rc, In rc (snd (fst (fold_left (unqualified_step sql_l dtc) cands st))) ->
     search NOFLAGS (used_qualified_re (resolved_column rc)) sql_l = None) /\
  (forall ac, In ac (snd (fold_left (unqualified_step sql_l dtc) cands st)) ->
     search NOFLAGS (used_qualified_re (ambiguous_column ac)) sql_l = None).
Proof.
  induction cands as [|tok cands IH]; intros done st H; cbn [fold_left].
  - rewrite app_nil_r. exact H.
  - apply (unqualified_step_seen sql_l dtc done st tok) in H.
    apply (IH (done ++ [tok])) in H. rewrite <- app_assoc in H. exact H.
Qed.

(** After the qualified checks, the unknown identifiers are the columns
    of the unknown columns. *)
Lemma qualified_step_identifiers am cbt st ref :
  (forall x, In x (snd st) <->
             exists uc, In uc (snd (fst st)) /\ column uc = x) ->
  forall x, In x (snd (qualified_step am cbt st ref)) <->
            exists uc, In uc (snd (fst (qualified_step am cbt st ref))) /\
                       column uc = x.
Proof.
  destruct st as [[ua ucs] ui], ref as [a c]. cbn [fst snd]. intros H x.
  unfold qualified_step.
  destruct (PyDict.get (_lower a) am) as [t|].
  - destruct (negb (mem (_lower c) (get_set t cbt))); cbn [fst snd]; [|apply H].
    rewrite append_new_In, H. split.
    + intros [-> | (uc & Hin & E)].
      * eexists. split; [apply in_or_app; right; now left | reflexivity].
      * exists uc. split; [apply in_or_app; now left | exact E].
    + intros (uc & Hin & E). apply in_app_or in Hin as [Hin | [<- | []]].
      * right. now exists uc.
      * left. now rewrite <- E.
  - destruct (negb _ && negb _)%bool; cbn [fst snd]; apply H.
Qed.

Lemma qualified_findings_identifiers sql s refs x :
  In x (snd (qualified_findings sql s refs)) <->
  exists uc, In uc (snd (fst (qualified_findings sql s refs))) /\ column uc = x.
Proof.
  revert x. unfold qualified_findings, qualified_loop.
  apply (fold_left_invariant
           (fun st => forall x, In x (snd st) <->
                        exists uc, In uc (snd (fst st)) /\ column uc = x)).
  - intros st ref. apply qualified_step_identifiers.
  - intros x. cbn. split; [intros [] | intros (uc & [] & _)].
Qed.

Lemma unknown_identifiers_iff sql s x :
  In x (unknown_identifiers (validate_against_schema sql s)) <->
  (exists uc, In uc (unknown_columns (validate_against_schema sql s)) /\
              column uc = x) \/
  (In x (candidates_of sql s) /\
   ~ In x (map resolved_column
             (unqualified_columns_resolved (validate_against_schema sql s))) /\
   ~ In x (map ambiguous_column
             (ambiguous_unqualified_columns (validate_against_schema sql s)))).
Proof.
  rewrite validate_unknown_identifiers.
  destruct (validate_qualified_findings sql s) as [_ ->].
  destruct (validate_fields sql s) as (_ & _ & _ & -> & _).
  rewrite validate_unqualified_findings.
  unfold unknown_identifiers_of.
  pose proof (unqualified_loop_seen (lower (sql0_of sql))
                (detected_tables_cols_of sql s) (candidates_of sql s) []
                ([], [], [])) as Hseen.
  fold (unqualified_findings sql s) in Hseen.
  destruct (unqualified_findings sql s) as [[seen res] amb]. cbn [fst snd] in *.
  destruct Hseen as (Hs & _ & _).
  { split; [intros x0; reflexivity|]. split; intros ? []. }
  rewrite (rest_fold_In
             (fun tok => (mem tok (map resolved_column res)
                          || mem tok (map ambiguous_column amb))%bool)).
  rewrite qualified_findings_identifiers, Hs. cbn [app].
  rewrite orb_false_iff, !mem_false_iff. reflexivity.
Qed.

Lemma qualified_use_is_unknown sql s tok :
  In tok (candidates_of sql s) -> used_qualified sql tok ->
  In tok (unknown_identifiers (validate_against_schema sql s)).
Proof.
  intros Hc Hu. apply unknown_identifiers_iff. right. split; [exact Hc|].
  destruct (validate_fields sql s) as (_ & _ & _ & -> & _).
  rewrite validate_unqualified_findings.
  pose proof (unqualified_loop_seen (lower (sql0_of sql))
                (detected_tables_cols_of sql s) (candidates_of sql s) []
                ([], [], [])) as Hseen.
  fold (unqualified_findings sql s) in Hseen.
  destruct (unqualified_findings sql s) as [[seen res] amb]. cbn [fst snd] in *.
  destruct Hseen as (_ & Hr & Ha).
  { split; [intros x0; reflexivity|]. split; intros ? []. }
  split; intros H; apply in_map_iff in H as (e & <- & He);
    [apply Hr in He | apply Ha in He]; now apply Hu.
Qed.

(** X14.  [unknown_identifiers] lists exactly the columns of the
    unknown columns and the candidates (the identifiers of the text
    that are no keyword, function, alias or table name) that are
    neither resolved nor ambiguous.  So a candidate that the text uses
    as the column of a qualified reference is always listed, whether
    or not the table of its alias declares it. *)
Theorem unknown_identifiers_are_the_rest
  (sql : string) (schema_json : Json.schema_json) :
  (forall x,
     In x (unknown_identifiers (validate_against_schema sql schema_json)) <->
     (exists uc,
        In uc (unknown_columns (validate_against_schema sql schema_json)) /\
        column uc = x) \/
     (In x (candidates_of sql schema_json) /\
      ~ In x (map resolved_column
                (unqualified_columns_resolved
                   (validate_against_schema sql schema_json))) /\
      ~ In x (map ambiguous_column
                (ambiguous_unqualified_columns
                   (validate_against_schema sql schema_json))))) /\
  (forall tok,
     In tok (candidates_of sql schema_json) -> used_qualified sql tok ->
     In tok (unknown_identifiers (validate_against_schema sql schema_json))).
Proof.
  split; [intros x; apply unknown_identifiers_iff|].
  intros tok. apply qualified_use_is_unknown.
Qed.

(** A declared column that the query only uses through its alias is
    listed as an unknown identifier. *)
Example qualified_column_is_listed_unknown :
  unknown_identifiers
    (validate_against_schema "SELECT e.emp_id FROM employees e" employees_schema) =
  ["emp_id"] /\
  unknown_columns
    (validate_against_schema "SELECT e.emp_id FROM employees e" employees_schema) =
  [].
Proof. split; vm_compute; reflexivity. Qed.

End ReportFacts.

(* ================================================================== *)
(** ** The classifier, rule by rule *)
(* ================================================================== *)

Module VerdictFacts.
Import PyStr PyStrFacts Validator Spec ValidateFacts ClassifyFacts.

(** X19.  The answer of [classify_issue] is one of three, decided by
    the hard signals alone: ok with action stop exactly when none of
    missing_tables, unknown_columns, unknown_aliases, invalid_joins and
    type_mismatches has an entry; schema_issue with action stop only
    with a missing table or an unknown column; ai_issue with action
    retry_ai only without a missing table.  Ambiguous columns and
    unknown identifiers have no influence. *)
Theorem classification_follows_the_hard_signals
  (validation : ValidationReport) (question : string)
  (schema_json : Json.schema_json) :
  (class (classify_issue validation question schema_json) = "ok" /\
   action (classify_issue validation question schema_json) = "stop" /\
   missing_tables validation = [] /\ unknown_columns validation = [] /\
   unknown_aliases validation = [] /\ invalid_joins validation = [] /\
   type_mismatches validation = []) \/
  (class (classify_issue validation question schema_json) = "schema_issue" /\
   action (classify_issue validation question schema_json) = "stop" /\
   (missing_tables validation <> [] \/ unknown_columns validation <> [])) \/
  (class (classify_issue validation question schema_json) = "ai_issue" /\
   action (classify_issue validation question schema_json) = "retry_ai" /\
   missing_tables validation = [] /\
   (unknown_columns validation <> [] \/ unknown_aliases validation <> [] \/
    invalid_joins validation <> [] \/ type_mismatches validation <> [])).
Proof.
  unfold classify_issue.
  destruct (missing_tables validation) as [|mt mts].
  2:{ right; left. cbn. split; [reflexivity|]. split; [reflexivity|].
      left. discriminate. }
  destruct (unknown_columns validation) as [|uc ucs].
  2:{ cbn [nonempty orb negb].
      destruct (existsb _ _); [right; left | right; right]; cbn.
      - split; [reflexivity|]. split; [reflexivity|]. right. discriminate.
      - split; [reflexivity|]. split; [reflexivity|]. split; [reflexivity|].
        left. discriminate. }
  destruct (invalid_joins validation) as [|ij ijs].
  2:{ right; right. rewrite !orb_true_r. cbn.
      split; [reflexivity|]. split; [reflexivity|]. split; [reflexivity|].
      do 2 right. left. discriminate. }
  destruct (type_mismatches validation) as [|tm tms].
  2:{ right; right. rewrite !orb_true_r. cbn.
      split; [reflexivity|]. split; [reflexivity|]. split; [reflexivity|].
      do 3 right. discriminate. }
  destruct (unknown_aliases validation) as [|ua uas].
  2:{ right; right. cbn.
      split; [reflexivity|]. split; [reflexivity|]. split; [reflexivity|].
      right; left. discriminate. }
  left. cbn. repeat (split; [reflexivity|]). reflexivity.
Qed.

End VerdictFacts.

(* ================================================================== *)
(** ** The schema extractor *)
(* ================================================================== *)

Module ParserFacts.
Import PyStr PyStrFacts PyDict PyDictFacts Re ReFacts SchemaParser Spec Notions ReportFacts RoundTrip.

Lemma advances_step ok st k res :
  step_char ok st k = Some res ->
  exists st', k st' = Some res /\
              exists read, rest st = (read ++ rest st')%string.
Proof.
  intros H. apply step_char_some in H as (x & s' & Hr & _ & Hk).
  eexists. split; [exact Hk|]. exists (String x EmptyString). now rewrite Hr.
Qed.

Lemma star_loop_advances greedy body k :
  advances body ->
  forall fuel st res,
    star_loop greedy body k fuel st = Some res ->
    exists st', k st' = Some res /\
                exists read, rest st = (read ++ rest st')%string.
Proof.
  intros Hbody. induction fuel as [|fuel IH]; intros st res H.
  - exists st. split; [exact H | now exists EmptyString].
  - cbn [star_loop] in H. cbv zeta in H.
    assert (Hagain :
      forall res',
        body st (fun st1 =>
          if Nat.ltb (String.length (rest st1)) (String.length (rest st))
          then star_loop greedy body k fuel st1 else None) = Some res' ->
        exists st', k st' = Some res' /\
                    exists read, rest st = (read ++ rest st')%string).
    { intros res' Ha. apply Hbody in Ha as (st1 & Ha & r1 & Hr1).
      destruct (Nat.ltb _ _); [|discriminate].
      apply IH in Ha as (st' & Ha & r2 & Hr2). exists st'. split; [exact Ha|].
      exists (r1 ++ r2)%string. now rewrite Hr1, Hr2, append_assoc. }
    destruct greedy.
    + destruct (body st _) as [res'|] eqn:Ea.
      * injection H as <-. now apply Hagain.
      * exists st. split; [exact H | now exists EmptyString].
    + destruct (k st) as [res'|] eqn:Ek.
      * injection H as <-. exists st. split; [exact Ek | now exists EmptyString].
      * now apply Hagain.
Qed.

(** Whatever the pattern, a match attempt reads the text from left to
    right. *)
Lemma run_advances fl r : advances (run fl r).
Proof.
  induction r as [| c | | neg items | r1 IH1 r2 IH2 | r1 IH1 r2 IH2
                 | greedy r1 IH1 | n r1 IH1 | | | | c];
    intros st k res H.
  - exists st. split; [exact H | now exists EmptyString].
  - now apply advances_step in H.
  - now apply advances_step in H.
  - now apply advances_step in H.
  - cbn [run] in H. apply IH1 in H as (st1 & H & x1 & Hl1).
    apply IH2 in H as (st2 & H & x2 & Hl2). exists st2. split; [exact H|].
    exists (x1 ++ x2)%string. now rewrite Hl1, Hl2, append_assoc.
  - apply run_Alt in H as [H | H]; [now apply IH1 | now apply IH2].
  - cbn [run] in H. eapply star_loop_advances; eassumption.
  - cbn [run] in H. apply IH1 in H as (st1 & H & Hl1).
    eexists. split; [exact H | exact Hl1].
  - cbn [run] in H. destruct (prev st); [discriminate|].
    exists st. split; [exact H | now exists EmptyString].
  - cbn [run] in H. exists st. split; [|now exists EmptyString].
    destruct (rest st) as [|c s]; [exact H|].
    destruct c as [[] [] [] [] [] [] [] []]; try discriminate.
    destruct s; [exact H | discriminate].
  - cbn [run] in H. destruct (xorb _ _); [|discriminate].
    exists st. split; [exact H | now exists EmptyString].
  - cbn [run] in H. exists st. split; [|now exists EmptyString].
    destruct (prev st) as [d|]; [|exact H].
    destruct (Ascii.eqb c d); [discriminate | exact H].
Qed.

Lemma has_char_app c s t :
  has_char c (s ++ t) = (has_char c s || has_char c t)%bool.
Proof.
  induction s as [|d s IH]; cbn [append has_char]; [reflexivity|].
  now rewrite IH, orb_assoc.
Qed.

Lemma semicolon_only x : chr_match IGNORECASE_DOTALL ";" x = true -> x = ";"%char.
Proof.
  destruct x as [[] [] [] [] [] [] [] []]; vm_compute; congruence.
Qed.

(** A CREATE TABLE statement is matched only in a text that has a
    semicolon. *)
Lemma create_table_needs_semicolon st res :
  run IGNORECASE_DOTALL CREATE_TABLE_RE st Some = Some res ->
  has_char ";" (rest st) = true.
Proof.
  unfold CREATE_TABLE_RE. cbn [Seq]. intros H.
  assert (Hstep : forall r1 r2 st0 k,
            run IGNORECASE_DOTALL (Cat r1 r2) st0 k = Some res ->
            exists st1, run IGNORECASE_DOTALL r2 st1 k = Some res /\
                        (has_char ";" (rest st1) = true ->
                         has_char ";" (rest st0) = true)).
  { intros r1 r2 st0 k H0. rewrite run_Cat in H0.
    apply run_advances in H0 as (st1 & H0 & read & Hr).
    exists st1. split; [exact H0|]. intros Hc.
    rewrite Hr, has_char_app, Hc. apply orb_true_r. }
  repeat (apply Hstep in H as (?st & H & ?Himp); apply Himp; clear Himp).
  rewrite run_Chr in H. apply step_char_some in H as (c0 & s' & Hr & Hx & _).
  apply semicolon_only in Hx. subst c0.
  rewrite Hr. cbn [has_char]. now rewrite Ascii.eqb_refl.
Qed.

Lemma has_char_tail c d s : has_char c (String d s) = false -> has_char c s = false.
Proof. cbn [has_char]. intros H. now apply orb_false_iff in H. Qed.

Lemma search_needs_semicolon s :
  has_char ";" s = false ->
  forall p, search_from IGNORECASE_DOTALL CREATE_TABLE_RE p s = None.
Proof.
  assert (Hat : forall p t, has_char ";" t = false ->
                  match_at IGNORECASE_DOTALL CREATE_TABLE_RE p t = None).
  { intros p t Ht. unfold match_at.
    destruct (run _ _ _ Some) as [st1|] eqn:E; [|reflexivity].
    apply create_table_needs_semicolon in E. cbn [rest] in E. congruence. }
  induction s as [|c s IH]; intros Hs p; cbn [search_from].
  - now rewrite Hat.
  - rewrite Hat by exact Hs. rewrite IH; [reflexivity|].
    now apply has_char_tail in Hs.
Qed.

(** X20.  A DDL text without a semicolon yields no table: a CREATE
    TABLE statement is only recognised up to its terminating
    semicolon. *)
Theorem unterminated_ddl_yields_no_table (text : string) :
  has_char ";" text = false -> parse_schema_sql text = [].
Proof.
  intros H. unfold parse_schema_sql, finditer. cbn [scan].
  now rewrite search_needs_semicolon.
Qed.

(** *** Duplicates of a primary key *)

Lemma dedup_from_spec l :
  forall seen,
    NoDup (dedup_from seen l) /\
    forall x, In x (dedup_from seen l) <-> In x l /\ ~ In x seen.
Proof.
  induction l as [|y l IH]; intros seen; cbn [dedup_from].
  - split; [constructor | intros x; cbn; tauto].
  - destruct (mem y seen) eqn:E.
    + apply mem_iff in E. destruct (IH seen) as [Hnd Hin]. split; [exact Hnd|].
      intros x. rewrite Hin. cbn [In]. split; [tauto|].
      intros [[<- | H] Hn]; [contradiction | tauto].
    + apply mem_false_iff in E. destruct (IH (y :: seen)) as [Hnd Hin]. split.
      * constructor; [|exact Hnd]. rewrite Hin. cbn [In]. tauto.
      * intros x. cbn [In]. rewrite Hin. cbn [In]. split.
        -- intros [<- | [H Hn]]; [tauto | tauto].
        -- intros [[<- | H] Hn]; [now left|].
           destruct (string_dec y x) as [-> | Hne]; [now left | right; tauto].
Qed.

Lemma dedup_spec l :
  NoDup (dedup l) /\ forall x, In x (dedup l) <-> In x l.
Proof.
  unfold dedup. destruct (dedup_from_spec l []) as [H1 H2]. split; [exact H1|].
  intros x. rewrite H2. cbn [In]. tauto.
Qed.

Lemma parse_table_primary_key M m :
  (forall k t, In (k, t) M -> NoDup (primary_key t)) ->
  forall k t, In (k, t) (parse_table M m) -> NoDup (primary_key t).
Proof.
  intros H. unfold parse_table. apply set_sound; [|exact H].
  cbn [primary_key]. apply dedup_spec.
Qed.

Lemma parse_schema_sql_primary_key schema_sql k t :
  In (k, t) (parse_schema_sql schema_sql) -> NoDup (primary_key t).
Proof.
  revert k t. unfold parse_schema_sql.
  apply (fold_left_invariant
           (fun M => forall k t, In (k, t) M -> NoDup (primary_key t))).
  - intros M m. apply parse_table_primary_key.
  - intros k t [].
Qed.

(** *** Stripping *)

Lemma has_char_lstrip_keeps c s :
  is_space c = false -> has_char c (lstrip s) = has_char c s.
Proof.
  intros Hc. induction s as [|d s IH]; [reflexivity|].
  cbn [lstrip]. destruct (is_space d) eqn:Ed; [|reflexivity].
  rewrite IH. cbn [has_char].
  destruct (Ascii.eqb_spec c d) as [-> | _]; [congruence | reflexivity].
Qed.

Lemma has_char_rstrip_keeps c s :
  is_space c = false -> has_char c (rstrip s) = has_char c s.
Proof.
  intros Hc. induction s as [|d s IH]; [reflexivity|].
  cbn [rstrip]. destruct (rstrip s) as [|e r] eqn:E.
  - cbn [has_char] in *. rewrite <- IH, orb_false_r.
    destruct (is_space d) eqn:Ed; cbn [has_char]; [|now rewrite orb_false_r].
    destruct (Ascii.eqb_spec c d) as [-> | _]; [congruence | reflexivity].
  - cbn [has_char] in *. now rewrite IH.
Qed.

Lemma has_char_strip_keeps c s :
  is_space c = false -> has_char c (strip s) = has_char c s.
Proof.
  intros Hc. unfold strip.
  now rewrite has_char_rstrip_keeps, has_char_lstrip_keeps.
Qed.

(** *** The splitting loop *)

Lemma split_loop_app s t : forall st,
  split_loop st (s ++ t) = split_loop (split_loop st s) t.
Proof. induction s as [|c s IH]; intros st; cbn; [reflexivity | apply IH]. Qed.

Lemma split_loop_plain s : forall st,
  in_str st = false -> plain s ->
  (depth st = 0 -> has_char "," s = false) ->
  split_loop st s =
    {| parts := parts st; buf := (buf st ++ s)%string; depth := depth st;
       in_str := false; before := before_after (before st) s |}.
Proof.
  induction s as [|ch s IH]; intros st Hq Hp Hc.
  - cbn. rewrite append_nil_r. destruct st; cbn in *. now subst.
  - destruct Hp as (H1 & H2 & H3). cbn [has_char] in H1, H2, H3.
    apply orb_false_iff in H1 as [Hq1 H1], H2 as [Hq2 H2], H3 as [Hq3 H3].
    cbn [split_loop].
    assert (Hs : split_step st ch =
              {| parts := parts st; buf := push ch (buf st); depth := depth st;
                 in_str := false; before := Some ch |}).
    { unfold split_step. rewrite Ascii.eqb_sym, Hq1. cbn [andb]. rewrite Hq.
      cbn [negb]. rewrite Ascii.eqb_sym, Hq2, Ascii.eqb_sym, Hq3.
      destruct (Ascii.eqb ch ",") eqn:Ec; cbn [andb]; [|reflexivity].
      destruct (Nat.eqb_spec (depth st) 0) as [Hd | Hd]; [|reflexivity].
      specialize (Hc Hd). cbn [has_char] in Hc.
      rewrite Ascii.eqb_sym, Ec in Hc. discriminate. }
    rewrite Hs. rewrite IH; cbn [parts buf depth in_str before].
    + unfold push. rewrite append_assoc. cbn [append]. f_equal.
      unfold before_after. cbn [last_char].
      destruct s as [|d s']; [reflexivity|].
      destruct (last_char (String d s')) eqn:E; [reflexivity|].
      exfalso. clear -E. revert d E. induction s' as [|e s' IH]; intros d E;
        cbn [last_char] in E; [discriminate | now apply (IH e)].
    + reflexivity.
    + now repeat split.
    + intros Hd. specialize (Hc Hd). cbn [has_char] in Hc.
      now apply orb_false_iff in Hc.
Qed.

(** The parts collected before a piece of text stay in front of those
    collected in it, and only whether the character before is a
    backslash matters. *)
Lemma split_loop_parts s : forall ps1 ps2 b d q o o',
  match o with Some p => Ascii.eqb p "\" | None => false end =
  match o' with Some p => Ascii.eqb p "\" | None => false end ->
  parts (split_loop {| parts := ps1 ++ ps2; buf := b; depth := d; in_str := q;
                       before := o |} s) =
    ps1 ++ parts (split_loop {| parts := ps2; buf := b; depth := d; in_str := q;
                                before := o' |} s) /\
  buf (split_loop {| parts := ps1 ++ ps2; buf := b; depth := d; in_str := q;
                     before := o |} s) =
    buf (split_loop {| parts := ps2; buf := b; depth := d; in_str := q;
                       before := o' |} s).
Proof.
  induction s as [|ch s IH]; intros ps1 ps2 b d q o o' He; [now split|].
  cbn [split_loop]. unfold split_step. cbn [parts buf depth in_str before].
  rewrite He.
  destruct (Ascii.eqb ch "'" && negb _)%bool; [now apply IH|].
  destruct (negb q); [|now apply IH].
  destruct (Ascii.eqb ch "("); [now apply IH|].
  destruct (Ascii.eqb ch ")"); [now apply IH|].
  destruct (Ascii.eqb ch "," && Nat.eqb d 0)%bool; [|now apply IH].
  rewrite <- app_assoc. now apply IH.
Qed.

(** X22.  A comma outside quotes and parentheses ends an item: when
    the text before the comma has no quote, parenthesis or comma, the
    items are that text stripped, then the items of the text after the
    comma. *)
Theorem top_level_comma_splits (a : string) (rest : string) :
  plain a -> has_char "," a = false ->
  _split_top_level_commas (a ++ "," ++ rest) =
  strip a :: _split_top_level_commas rest.
Proof.
  intros Hp Hc. unfold _split_top_level_commas.
  assert (E : split_loop {| parts := []; buf := EmptyString; depth := 0;
                            in_str := false; before := None |}
                (a ++ "," ++ rest) =
              split_loop {| parts := [strip a]; buf := EmptyString; depth := 0;
                            in_str := false; before := Some ","%char |} rest).
  { rewrite split_loop_app, (split_loop_plain a) by (auto; reflexivity).
    cbn [parts buf depth in_str before append split_loop]. f_equal. }
  rewrite E.
  destruct (split_loop_parts rest [strip a] [] EmptyString 0 false
              (Some ","%char) None eq_refl) as [Hparts Hbuf].
  cbn [app] in Hparts, Hbuf. rewrite Hparts, Hbuf.
  now destruct (truthy _).
Qed.

(** X23.  A comma between parentheses does not end an item: a text
    with one parenthesised group, without quotes and without a comma
    outside the group, is a single item. *)
Theorem comma_in_parentheses_does_not_split (a : string) (b : string)
  (c : string) :
  plain a -> plain b -> plain c ->
  has_char "," a = false -> has_char "," c = false ->
  _split_top_level_commas (a ++ "(" ++ b ++ ")" ++ c) =
  [strip (a ++ "(" ++ b ++ ")" ++ c)].
Proof.
  intros Ha Hb Hc Hca Hcc. unfold _split_top_level_commas.
  assert (E : exists o,
            split_loop {| parts := []; buf := EmptyString; depth := 0;
                          in_str := false; before := None |}
              (a ++ "(" ++ b ++ ")" ++ c) =
            {| parts := []; buf := (a ++ "(" ++ b ++ ")" ++ c)%string;
               depth := 0; in_str := false; before := o |}).
  { eexists.
    rewrite split_loop_app, (split_loop_plain a) by (auto; reflexivity).
    cbn [parts buf depth in_str before append split_loop].
    assert (E1 : forall o,
              split_step {| parts := []; buf := a; depth := 0; in_str := false;
                            before := o |} "(" =
              {| parts := []; buf := (a ++ "(")%string; depth := 1;
                 in_str := false; before := Some "("%char |})
      by reflexivity.
    rewrite E1.
    rewrite split_loop_app, (split_loop_plain b)
      by (auto; cbn [depth]; discriminate).
    cbn [parts buf depth in_str before append split_loop].
    assert (E2 : forall o x,
              split_step {| parts := []; buf := x; depth := 1; in_str := false;
                            before := o |} ")" =
              {| parts := []; buf := (x ++ ")")%string; depth := 0;
                 in_str := false; before := Some ")"%char |})
      by reflexivity.
    rewrite E2.
    rewrite (split_loop_plain c) by auto.
    cbn [parts buf depth in_str before].
    rewrite !append_assoc. cbn [append]. reflexivity. }
  destruct E as [o ->]. cbn [parts buf app].
  set (whole := (a ++ "(" ++ b ++ ")" ++ c)%string).
  assert (Hw : has_char "(" (strip whole) = true).
  { rewrite has_char_strip_keeps by reflexivity. unfold whole.
    rewrite has_char_app. cbn [append has_char]. rewrite Ascii.eqb_refl.
    cbn [orb]. apply orb_true_r. }
  destruct (strip whole); [discriminate | reflexivity].
Qed.

Lemma unterminated_ddl_yields_no_table_witness :
  parse_schema_sql "CREATE TABLE t (a INT PRIMARY KEY)" = [].
Proof.
  apply (unterminated_ddl_yields_no_table "CREATE TABLE t (a INT PRIMARY KEY)").
  reflexivity.
Defined.

(** X21.  For every DDL text, the extractor files each table under its
    own name, no table and no column of a table twice, and the primary
    key of a table lists no column twice. *)
Theorem parsed_tables_are_well_keyed (schema_sql : string) :
  extracted (parse_schema_sql schema_sql) /\
  forall k t, In (k, t) (parse_schema_sql schema_sql) -> NoDup (primary_key t).
Proof.
  split; [apply parse_schema_sql_extracted|].
  intros k t. apply parse_schema_sql_primary_key.
Qed.

Lemma top_level_comma_splits_witness :
  _split_top_level_commas ("a INT" ++ "," ++ " b NUMERIC(10,2), c TEXT") =
  strip "a INT" :: _split_top_level_commas " b NUMERIC(10,2), c TEXT".
Proof.
  apply (top_level_comma_splits "a INT" " b NUMERIC(10,2), c TEXT").
  - repeat split.
  - reflexivity.
Defined.

Lemma comma_in_parentheses_does_not_split_witness :
  _split_top_level_commas (" price NUMERIC" ++ "(" ++ "10,2" ++ ")" ++ " NOT NULL") =
  [strip (" price NUMERIC" ++ "(" ++ "10,2" ++ ")" ++ " NOT NULL")].
Proof.
  apply (comma_in_parentheses_does_not_split " price NUMERIC" "10,2" " NOT NULL");
    try reflexivity; repeat split.
Defined.

End ParserFacts.

(* ================================================================== *)
(** ** The retry wrapper and the generation handler *)
(* ================================================================== *)

Module ControllerFacts.
Import PyStr PyStrFacts Validator App Spec Notions ExtractFacts RepairFacts.

(** *** Completion requests *)

Lemma api_at_most_weaken {A} n m (c : M A) :
  n <= m -> api_at_most n c -> api_at_most m c.
Proof. intros Hnm H w. specialize (H w). lia. Qed.

Lemma api_at_most_ret {A} (a : A) : api_at_most 0 (ret a).
Proof. intros w. simpl. lia. Qed.

Lemma api_at_most_raise {A} e : api_at_most 0 (@raise A e).
Proof. intros w. simpl. lia. Qed.

Lemma api_at_most_lift {A} (r : result A) : api_at_most 0 (lift r).
Proof. intros w. simpl. lia. Qed.

Lemma api_at_most_emit e : api_at_most 0 (emit e).
Proof. intros w. simpl. lia. Qed.

Lemma api_at_most_bind {A B} n m (c : M A) (f : A -> M B) :
  api_at_most n c -> (forall a, api_at_most m (f a)) ->
  api_at_most (n + m) (bind c f).
Proof.
  intros Hc Hf w. unfold bind. specialize (Hc w).
  destruct (c w) as [[a | e] w']; simpl in *.
  - specialize (Hf a w'). lia.
  - lia.
Qed.

Lemma api_at_most_chat r : api_at_most 1 (chat r).
Proof.
  intros w. unfold chat.
  destruct (oracle w (api_calls w) r); cbn [snd api_calls]; lia.
Qed.

(** [retries] attempts of a call that makes at most [n] requests make
    at most [retries * n]. *)
Lemma api_at_most_retry {A} (fn : M A) n :
  api_at_most n fn ->
  forall retries i last_err,
    api_at_most (retries * n) (retry_from fn retries i last_err).
Proof.
  intros Hfn. induction retries as [|k IH]; intros i last_err.
  - destruct last_err; apply api_at_most_raise.
  - intros w. cbn [retry_from]. specialize (Hfn w).
    destruct (fn w) as [[a | e] w'] eqn:E; cbn [snd] in *; [lia|].
    destruct e; cbn [snd]; try lia.
    pose proof (api_at_most_bind 0 (k * n) (emit (Slept (2 ^ i)))
                  (fun _ => retry_from fn k (S i) (Some (RateLimitError msg)))
                  (api_at_most_emit (Slept (2 ^ i))) (fun _ => IH _ _) w') as H.
    simpl in H. simpl. lia.
Qed.

Lemma api_at_most_checked (sql : string) (e : exn) :
  api_at_most 0 (if negb (truthy sql) then raise e
                 else bind (lift (reject_disallowed_sql sql)) (fun _ => ret sql)).
Proof.
  destruct (negb (truthy sql)); [apply api_at_most_raise|].
  apply (api_at_most_bind 0 0);
    [apply api_at_most_lift | intros; apply api_at_most_ret].
Qed.

Lemma api_at_most_ai_generate_sql s q : api_at_most 3 (ai_generate_sql s q).
Proof.
  unfold ai_generate_sql.
  apply (api_at_most_bind 0 3); [apply api_at_most_emit|].
  intros _. apply (api_at_most_bind 3 0).
  - apply (api_at_most_retry _ 1), api_at_most_chat.
  - intros raw. apply api_at_most_checked.
Qed.

Lemma api_at_most_ai_fix_sql s q bad v : api_at_most 3 (ai_fix_sql s q bad v).
Proof.
  unfold ai_fix_sql.
  apply (api_at_most_bind 0 3); [apply api_at_most_emit|].
  intros _. apply (api_at_most_bind 3 0).
  - apply (api_at_most_retry _ 1), api_at_most_chat.
  - intros raw. apply api_at_most_checked.
Qed.

Lemma api_at_most_fix_loop n s q :
  forall c, api_at_most (n * 3) (fix_loop n s q c).
Proof.
  induction n as [|n IH]; intros c; cbn [fix_loop].
  - apply api_at_most_ret.
  - destruct (negb (String.eqb _ _)).
    { eapply api_at_most_weaken; [|apply api_at_most_ret]. lia. }
    destruct (negb (needs_fix _)).
    { eapply api_at_most_weaken; [|apply api_at_most_ret]. lia. }
    apply (api_at_most_bind 3 (n * 3)); [apply api_at_most_ai_fix_sql|].
    intros sql. apply IH.
Qed.

(** X4.  Whatever the generator answers, one call through
    [call_openai_with_retry] sends at most three completion requests,
    and one run of the generation handler at most nine: three for the
    first candidate and three for each of the two repairs. *)
Theorem generate_sends_at_most_nine_requests :
  (forall (r : request) (w : world),
     api_calls (snd (call_openai_with_retry (chat r) w)) <= api_calls w + 3) /\
  (forall (schema_json : Json.schema_json) (q : string) (w : world),
     api_calls (snd (generate schema_json q w)) <= api_calls w + 9).
Proof.
  split.
  - intros r w. apply (api_at_most_retry (chat r) 1 (api_at_most_chat r) 3).
  - intros s q w. unfold generate.
    pose proof (api_at_most_ai_generate_sql s q w) as Hg.
    destruct (ai_generate_sql s q w) as [[sql | e] w'] eqn:E; cbn [snd] in Hg.
    + pose proof (api_at_most_bind 6 0
                    (fix_loop 2 s q (assess s q sql))
                    (fun c => ret (ok_response c None))
                    (api_at_most_fix_loop 2 s q _)
                    (fun c => api_at_most_ret _) w') as H.
      simpl in H. simpl. lia.
    + destruct e; cbn [snd]; lia.
Qed.

(** *** The retry wrapper *)

Lemma retry_from_S {A} (fn : M A) n i last_err w :
  retry_from fn (S n) i last_err w =
  match fn w with
  | (Raise (RateLimitError msg), w') =>
      (emit (Slept (2 ^ i)) ;;;
       retry_from fn n (S i) (Some (RateLimitError msg))) w'
  | other => other
  end.
Proof. reflexivity. Qed.

Lemma retry_exhausted (r : request) (w : world) (m0 m1 m2 : string) :
  oracle w (api_calls w) r = RateLimited m0 ->
  oracle w (S (api_calls w)) r = RateLimited m1 ->
  oracle w (S (S (api_calls w))) r = RateLimited m2 ->
  call_openai_with_retry (chat r) w =
    (Raise (RateLimitError m2),
     {| oracle := oracle w; api_calls := S (S (S (api_calls w)));
        trace := trace w ++ [Called_api r; Slept 1; Called_api r; Slept 2;
                             Called_api r; Slept 4] |}).
Proof.
  intros H0 H1 H2. unfold call_openai_with_retry.
  cbn [retry_from]. unfold chat at 1. rewrite H0.
  unfold bind at 1, emit at 1. cbn [oracle api_calls trace].
  unfold chat at 1. cbn [oracle api_calls trace]. rewrite H1.
  unfold bind at 1, emit at 1. cbn [oracle api_calls trace].
  unfold chat at 1. cbn [oracle api_calls trace]. rewrite H2.
  unfold bind, emit, raise. cbn [oracle api_calls trace].
  repeat rewrite <- app_assoc. reflexivity.
Qed.

Lemma first_reply (r : request) (w : world) :
  let w1 := {| oracle := oracle w; api_calls := S (api_calls w);
               trace := trace w ++ [Called_api r] |} in
  match oracle w (api_calls w) r with
  | Content raw => call_openai_with_retry (chat r) w = (Return raw, w1)
  | Failed ty msg =>
      call_openai_with_retry (chat r) w = (Raise (OtherError ty msg), w1)
  | RateLimited msg =>
      call_openai_with_retry (chat r) w =
      retry_from (chat r) 2 1 (Some (RateLimitError msg))
        {| oracle := oracle w; api_calls := S (api_calls w);
           trace := trace w ++ [Called_api r; Slept 1] |}
  end.
Proof.
  intros w1. unfold call_openai_with_retry.
  rewrite (retry_from_S (chat r) 2 0 None w).
  destruct (chat r w) as [res w'] eqn:C. unfold chat in C. fold w1 in C.
  destruct (oracle w (api_calls w) r) eqn:E; inversion C; subst res w';
    try reflexivity.
  unfold bind at 1, emit at 1. unfold w1. cbn [oracle api_calls trace].
  now rewrite <- app_assoc.
Qed.

(** X5.  [call_openai_with_retry] retries only a rate limit, and at
    most twice.  A reply is returned, and any other error is raised,
    after the one request and without a sleep; after a rate-limited
    first attempt the call sleeps one second and goes on with the two
    attempts left.  When all three attempts are rate limited, it has
    sent three requests and slept 1, 2 and 4 seconds (the last sleep
    after the last attempt), and raises the error of the third
    attempt. *)
Theorem only_rate_limits_are_retried :
  (forall (r : request) (w : world),
     let w1 := {| oracle := oracle w; api_calls := S (api_calls w);
                  trace := trace w ++ [Called_api r] |} in
     match oracle w (api_calls w) r with
     | Content raw => call_openai_with_retry (chat r) w = (Return raw, w1)
     | Failed ty msg =>
         call_openai_with_retry (chat r) w = (Raise (OtherError ty msg), w1)
     | RateLimited msg =>
         call_openai_with_retry (chat r) w =
         retry_from (chat r) 2 1 (Some (RateLimitError msg))
           {| oracle := oracle w; api_calls := S (api_calls w);
              trace := trace w ++ [Called_api r; Slept 1] |}
     end) /\
  (forall (r : request) (w : world) (m0 m1 m2 : string),
     oracle w (api_calls w) r = RateLimited m0 ->
     oracle w (S (api_calls w)) r = RateLimited m1 ->
     oracle w (S (S (api_calls w))) r = RateLimited m2 ->
     call_openai_with_retry (chat r) w =
       (Raise (RateLimitError m2),
        {| oracle := oracle w; api_calls := S (S (S (api_calls w)));
           trace := trace w ++ [Called_api r; Slept 1; Called_api r; Slept 2;
                                Called_api r; Slept 4] |})).
Proof. split; [exact first_reply | exact retry_exhausted]. Qed.

Lemma only_rate_limits_are_retried_witness :
  call_openai_with_retry
    (chat (GenerateRequest employees_schema "list employees"))
    (new_world always_rate_limited) =
  (Raise (RateLimitError "quota"),
   {| oracle := always_rate_limited; api_calls := 3;
      trace := [Called_api (GenerateRequest employees_schema "list employees");
                Slept 1;
                Called_api (GenerateRequest employees_schema "list employees");
                Slept 2;
                Called_api (GenerateRequest employees_schema "list employees");
                Slept 4] |}).
Proof.
  apply (proj2 only_rate_limits_are_retried
           (GenerateRequest employees_schema "list employees")
           (new_world always_rate_limited) "quota" "quota" "quota");
    reflexivity.
Defined.

(** *** Exact counts of repairs *)

Lemma repairs_ret {A} (a : A) : repairs 0 (ret a).
Proof. intros w. simpl. lia. Qed.

Lemma repairs_raise {A} e : repairs 0 (@raise A e).
Proof. intros w. simpl. lia. Qed.

Lemma repairs_lift {A} (r : result A) : repairs 0 (lift r).
Proof. intros w. simpl. lia. Qed.

Lemma repairs_emit e :
  repairs (match e with Called_ai_fix_sql => 1 | _ => 0 end) (emit e).
Proof. intros w. unfold emit. cbn [snd]. apply fix_calls_snoc. Qed.

(** A step that does not repair, after [c]. *)
Lemma repairs_bind_0 {A B} n (c : M A) (f : A -> M B) :
  repairs n c -> (forall a, repairs 0 (f a)) -> repairs n (bind c f).
Proof.
  intros Hc Hf w. unfold bind. specialize (Hc w).
  destruct (c w) as [[a | e] w']; simpl in *.
  - specialize (Hf a w'). lia.
  - lia.
Qed.

Lemma repairs_chat r : repairs 0 (chat r).
Proof.
  intros w. unfold chat.
  assert (H : fix_calls {| oracle := oracle w; api_calls := S (api_calls w);
                           trace := trace w ++ [Called_api r] |} = fix_calls w).
  { unfold fix_calls. cbn [trace]. rewrite filter_app, length_app. simpl. lia. }
  destruct (oracle w (api_calls w) r); cbn [snd]; rewrite H; lia.
Qed.

Lemma repairs_retry {A} (fn : M A) :
  repairs 0 fn ->
  forall retries i last_err, repairs 0 (retry_from fn retries i last_err).
Proof.
  intros Hfn. induction retries as [|n IH]; intros i last_err.
  - destruct last_err; apply repairs_raise.
  - intros w. rewrite retry_from_S. specialize (Hfn w).
    destruct (fn w) as [[a | e] w'] eqn:E; cbn [snd] in *; [lia|].
    destruct e; cbn [snd]; try lia.
    pose proof (repairs_bind_0 0 (emit (Slept (2 ^ i)))
                  (fun _ => retry_from fn n (S i) (Some (RateLimitError msg)))
                  (repairs_emit (Slept (2 ^ i))) (fun _ => IH _ _) w') as H.
    lia.
Qed.

Lemma repairs_checked (sql : string) (e : exn) :
  repairs 0 (if negb (truthy sql) then raise e
             else bind (lift (reject_disallowed_sql sql)) (fun _ => ret sql)).
Proof.
  destruct (negb (truthy sql)); [apply repairs_raise|].
  apply repairs_bind_0; [apply repairs_lift | intros; apply repairs_ret].
Qed.

Lemma repairs_after_emit {A} e (c : M A) n :
  repairs n c ->
  repairs (match e with Called_ai_fix_sql => 1 | _ => 0 end + n) (emit e ;;; c).
Proof.
  intros Hc w. unfold bind, emit.
  match goal with |- context [c ?W] => specialize (Hc W) end.
  rewrite Hc, fix_calls_snoc. lia.
Qed.

Lemma repairs_ai_generate_sql s q : repairs 0 (ai_generate_sql s q).
Proof.
  unfold ai_generate_sql.
  apply (repairs_after_emit Called_ai_generate_sql).
  apply repairs_bind_0.
  - apply repairs_retry, repairs_chat.
  - intros raw. apply repairs_checked.
Qed.

(** Whether it returns or raises, [ai_fix_sql] counts as one repair. *)
Lemma repairs_ai_fix_sql s q bad v : repairs 1 (ai_fix_sql s q bad v).
Proof.
  unfold ai_fix_sql.
  apply (repairs_after_emit Called_ai_fix_sql _ 0).
  apply repairs_bind_0.
  - apply repairs_retry, repairs_chat.
  - intros raw. apply repairs_checked.
Qed.

(** *** What the two generator calls return *)

(** The policy gate lets every extracted statement through. *)
Lemma gate_open t :
  truthy (extract_sql t) = true ->
  reject_disallowed_sql (extract_sql t) = Return tt.
Proof.
  intros Hne. apply truthy_iff in Hne.
  destruct (extract_sql_structure t)
    as [H | (body & others & _ & H & Hsemi & Hs & _ & Hkw)]; [contradiction|].
  rewrite H. unfold reject_disallowed_sql. rewrite Hs.
  rewrite (keyword_not_disallowed _ Hkw).
  change (body ++ ";")%string with (body ++ String ";" EmptyString)%string.
  now rewrite drop_last_snoc, Hsemi.
Qed.

Lemma extracted_single_statement t :
  extract_sql t <> EmptyString -> single_statement (extract_sql t).
Proof.
  intros Hne.
  destruct (extract_sql_structure t)
    as [H | (body & others & _ & H & Hsemi & Hs & Hm & Hkw)]; [contradiction|].
  rewrite H. split; [now exists body|]. split; [exact Hm|].
  now apply select_with_prefix_ascii.
Qed.

(** The tail shared by [ai_generate_sql] and [ai_fix_sql]. *)
Lemma checked_returns raw e w :
  (if negb (truthy (extract_sql raw)) then raise e
   else bind (lift (reject_disallowed_sql (extract_sql raw)))
          (fun _ => ret (extract_sql raw))) w =
  (if truthy (extract_sql raw) then Return (extract_sql raw) else Raise e, w).
Proof.
  destruct (truthy (extract_sql raw)) eqn:T; cbn [negb]; [|reflexivity].
  unfold bind, lift. now rewrite (gate_open raw T).
Qed.

Lemma ai_generate_sql_returns s q w sql :
  fst (ai_generate_sql s q w) = Return sql ->
  exists raw, sql = extract_sql raw /\ sql <> EmptyString.
Proof.
  unfold ai_generate_sql. unfold bind at 1. cbn [emit]. unfold bind at 1.
  destruct (call_openai_with_retry _ _) as [[raw | e] w']; [|discriminate].
  rewrite checked_returns.
  destruct (truthy (extract_sql raw)) eqn:T; cbn [fst]; [|discriminate].
  intros H; injection H as <-. exists raw. split; [reflexivity|].
  now apply truthy_iff.
Qed.

Lemma ai_fix_sql_returns s q bad v w sql :
  fst (ai_fix_sql s q bad v w) = Return sql ->
  exists raw, sql = extract_sql raw /\ sql <> EmptyString.
Proof.
  unfold ai_fix_sql. unfold bind at 1. cbn [emit]. unfold bind at 1.
  destruct (call_openai_with_retry _ _) as [[raw | e] w']; [|discriminate].
  rewrite checked_returns.
  destruct (truthy (extract_sql raw)) eqn:T; cbn [fst]; [|discriminate].
  intros H; injection H as <-. exists raw. split; [reflexivity|].
  now apply truthy_iff.
Qed.

(** *** The loop *)

(** A report classified as the generator's fault always has something to
    fix: the second [break] of the loop is never taken. *)
Lemma ai_issue_needs_fix v q s :
  class (classify_issue v q s) = "ai_issue" -> needs_fix v = true.
Proof.
  unfold classify_issue, needs_fix.
  destruct (missing_tables v); [|reflexivity].
  destruct (unknown_columns v); [|reflexivity].
  destruct (unknown_aliases v); [|reflexivity].
  destruct (invalid_joins v); [|intros _; apply orb_true_iff; left;
                                apply orb_true_r].
  destruct (type_mismatches v); [|intros _; apply orb_true_r].
  cbn. discriminate.
Qed.

(** What a loop of [n] rounds started on the candidate for [sql] does. *)
Lemma fix_loop_spec n s q :
  forall sql w,
    match fix_loop n s q (assess s q sql) w with
    | (Return c, w') =>
        c = assess s q (cand_sql c) /\
        (cand_sql c = sql \/
         exists raw, cand_sql c = extract_sql raw /\ extract_sql raw <> EmptyString) /\
        (class (cand_classification c) = "ai_issue" ->
         fix_calls w' = fix_calls w + n)
    | (Raise e, w') => fix_calls w + 1 <= fix_calls w'
    end.
Proof.
  induction n as [|n IH]; intros sql w; cbn [fix_loop].
  - cbn [ret]. split; [reflexivity|]. split; [now left|]. intros _. lia.
  - destruct (String.eqb (class (cand_classification (assess s q sql))) "ai_issue")
      eqn:Ec; cbn [negb].
    2:{ cbn [ret]. split; [reflexivity|]. split; [now left|].
        intros H. apply String.eqb_eq in H. congruence. }
    apply String.eqb_eq in Ec.
    assert (Hnf : needs_fix (cand_validation (assess s q sql)) = true)
      by exact (ai_issue_needs_fix _ q s Ec).
    rewrite Hnf. cbn [negb].
    unfold bind.
    pose proof (repairs_ai_fix_sql s q (cand_sql (assess s q sql))
                  (cand_validation (assess s q sql)) w) as Hr.
    pose proof (ai_fix_sql_returns s q (cand_sql (assess s q sql))
                  (cand_validation (assess s q sql)) w) as Hret.
    destruct (ai_fix_sql s q _ _ w) as [[sql' | e] w1]; cbn [snd fst] in *.
    2:{ lia. }
    destruct (Hret sql' eq_refl) as (raw & -> & Hne).
    specialize (IH (extract_sql raw) w1).
    destruct (fix_loop n s q (assess s q (extract_sql raw)) w1) as [[c | e] w2].
    + destruct IH as (Hc & Hsql & Hn). split; [exact Hc|]. split.
      * right. destruct Hsql as [-> | Hsql]; [now exists raw | exact Hsql].
      * intros H. rewrite (Hn H). lia.
    + lia.
Qed.

(** *** The handler *)

(** The three ways out of step 1. *)
Lemma generate_cases s q w :
  (exists sql w1,
     ai_generate_sql s q w = (Return sql, w1) /\ fix_calls w1 = fix_calls w /\
     (exists raw, sql = extract_sql raw /\ sql <> EmptyString) /\
     generate s q w =
       (c <- fix_loop 2 s q (assess s q sql) ;; ret (ok_response c None)) w1) \/
  (exists msg w1,
     ai_generate_sql s q w = (Raise (RateLimitError msg), w1) /\
     fix_calls w1 = fix_calls w /\
     generate s q w =
       (Return (ok_response (assess s q (smart_sql_generator s q))
                  (Some ("AI unreachable; fallback used. Error: " ++
                         exn_text (RateLimitError msg))%string)), w1)) \/
  (exists e w1,
     ai_generate_sql s q w = (Raise e, w1) /\ fix_calls w1 = fix_calls w /\
     generate s q w =
       (Return (ErrorResponse "ai_issue"
                  "AI returned invalid output. Try again or simplify your question."
                  ("AI returned invalid output: " ++ exn_text e)%string), w1)).
Proof.
  pose proof (repairs_ai_generate_sql s q w) as Hr.
  pose proof (ai_generate_sql_returns s q w) as Hret.
  unfold generate.
  destruct (ai_generate_sql s q w) as [[sql | e] w1]; cbn [fst snd] in *.
  - left. exists sql, w1. repeat split; try lia. now apply Hret.
  - destruct e.
    + right; right. exists (ValueError msg), w1. repeat split; lia.
    + right; left. exists msg, w1. repeat split; lia.
    + right; right. exists (OtherError type_name msg), w1. repeat split; lia.
Qed.

(** X6.  The handler lets an exception escape only from a repair: when
    it raises, [ai_fix_sql] has been entered.  Every failure of the
    first generation is answered with a response. *)
Theorem generate_raises_only_from_a_repair (s : Json.schema_json)
  (q : string) (w : world) (e : exn) :
  fst (generate s q w) = Raise e ->
  fix_calls w + 1 <= fix_calls (snd (generate s q w)).
Proof.
  destruct (generate_cases s q w)
    as [(sql & w1 & _ & Hf & _ & ->) | [(msg & w1 & _ & _ & ->) |
                                        (e' & w1 & _ & _ & ->)]];
    try discriminate.
  unfold bind. pose proof (fix_loop_spec 2 s q sql w1) as H.
  destruct (fix_loop 2 s q (assess s q sql) w1) as [[c | e'] w2];
    cbn [fst snd ret]; [discriminate|]. intros _. lia.
Qed.

Lemma generate_ok_response s q w sql v c msg note :
  fst (generate s q w) = Return (OkResponse sql v c msg note) ->
  v = validate_against_schema sql s /\
  c = classify_issue v q s /\
  msg = ux_message (class c) v /\
  match note with
  | None =>
      single_statement sql /\
      (class c = "ai_issue" ->
       fix_calls (snd (generate s q w)) = fix_calls w + 2)
  | Some _ =>
      sql = smart_sql_generator s q /\
      fix_calls (snd (generate s q w)) = fix_calls w
  end.
Proof.
  destruct (generate_cases s q w)
    as [(sql0 & w1 & _ & Hf & (raw & -> & Hne) & ->) |
        [(m & w1 & _ & Hf & ->) | (e' & w1 & _ & _ & ->)]];
    try discriminate.
  - unfold bind. pose proof (fix_loop_spec 2 s q (extract_sql raw) w1) as H.
    destruct (fix_loop 2 s q (assess s q (extract_sql raw)) w1) as [[c0 | e'] w2];
      cbn [fst snd ret]; [|discriminate].
    destruct H as (Hc & Hsql & Hn). unfold ok_response.
    intros E. injection E as <- <- <- <- <-.
    rewrite Hc. cbn [assess cand_sql cand_validation cand_classification].
    split; [reflexivity|]. split; [reflexivity|]. split; [reflexivity|].
    split.
    + destruct Hsql as [-> | (raw' & -> & Hne')];
        now apply extracted_single_statement.
    + intros Hcl. rewrite Hc in Hn.
      cbn [assess cand_sql cand_validation cand_classification] in Hn.
      rewrite (Hn Hcl). lia.
  - cbn [fst snd]. unfold ok_response.
    cbn [assess cand_sql cand_validation cand_classification].
    intros E. injection E as <- <- <- <- <-.
    split; [reflexivity|]. split; [reflexivity|]. split; [reflexivity|].
    split; [reflexivity | exact Hf].
Qed.

Lemma answered (r : request) (w : world) raw :
  oracle w (api_calls w) r = Content raw ->
  call_openai_with_retry (chat r) w =
    (Return raw,
     {| oracle := oracle w; api_calls := S (api_calls w);
        trace := trace w ++ [Called_api r] |}).
Proof. intros H. pose proof (first_reply r w) as F. now rewrite H in F. Qed.

Lemma ai_generate_sql_answered s q w raw :
  oracle w (api_calls w) (GenerateRequest s q) = Content raw ->
  extract_sql raw <> EmptyString ->
  ai_generate_sql s q w =
    (Return (extract_sql raw),
     {| oracle := oracle w; api_calls := S (api_calls w);
        trace := trace w ++ [Called_ai_generate_sql;
                             Called_api (GenerateRequest s q)] |}).
Proof.
  intros H Hne. apply truthy_iff in Hne.
  unfold ai_generate_sql. unfold bind at 1. cbn [emit]. unfold bind at 1.
  rewrite (answered _ _ raw) by exact H.
  rewrite checked_returns, Hne. cbn [oracle api_calls trace].
  now rewrite <- app_assoc.
Qed.

Lemma ai_fix_sql_answered s q bad v w raw :
  oracle w (api_calls w) (FixRequest s q bad v) = Content raw ->
  extract_sql raw <> EmptyString ->
  ai_fix_sql s q bad v w =
    (Return (extract_sql raw),
     {| oracle := oracle w; api_calls := S (api_calls w);
        trace := trace w ++ [Called_ai_fix_sql;
                             Called_api (FixRequest s q bad v)] |}).
Proof.
  intros H Hne. apply truthy_iff in Hne.
  unfold ai_fix_sql. unfold bind at 1. cbn [emit]. unfold bind at 1.
  rewrite (answered _ _ raw) by exact H.
  rewrite checked_returns, Hne. cbn [oracle api_calls trace].
  now rewrite <- app_assoc.
Qed.

Lemma ai_fix_sql_exhausted s q bad v w m0 m1 m2 :
  oracle w (api_calls w) (FixRequest s q bad v) = RateLimited m0 ->
  oracle w (S (api_calls w)) (FixRequest s q bad v) = RateLimited m1 ->
  oracle w (S (S (api_calls w))) (FixRequest s q bad v) = RateLimited m2 ->
  fst (ai_fix_sql s q bad v w) = Raise (RateLimitError m2).
Proof.
  intros H0 H1 H2.
  unfold ai_fix_sql. unfold bind at 1. cbn [emit]. unfold bind at 1.
  now rewrite (retry_exhausted _ _ m0 m1 m2).
Qed.

(** One round of the loop on a candidate that is the generator's
    fault. *)
Lemma fix_loop_round n s q sql :
  class (classify_issue (validate_against_schema sql s) q s) = "ai_issue" ->
  fix_loop (S n) s q (assess s q sql) =
  (sql' <- ai_fix_sql s q sql (validate_against_schema sql s) ;;
   fix_loop n s q (assess s q sql')).
Proof.
  intros Hc. cbn [fix_loop].
  assert (Hnf : needs_fix (cand_validation (assess s q sql)) = true)
    by exact (ai_issue_needs_fix _ q s Hc).
  rewrite Hnf.
  cbn [assess cand_classification cand_sql cand_validation].
  rewrite Hc. reflexivity.
Qed.

Lemma bind_returned {A B} (c : M A) (f : A -> M B) w a w' :
  c w = (Return a, w') -> bind c f w = f a w'.
Proof. intros H. unfold bind. now rewrite H. Qed.

Lemma bind_raised {A B} (c : M A) (f : A -> M B) w e w' :
  c w = (Raise e, w') -> bind c f w = (Raise e, w').
Proof. intros H. unfold bind. now rewrite H. Qed.

(** X11.  The bound of two repairs is reached whenever the generator
    keeps failing: if every reply extracts to a query that the
    classifier blames on the generator, the handler enters [ai_fix_sql]
    exactly twice, sends exactly three requests and returns an answer
    still classified ai_issue. *)
Theorem failing_generator_is_asked_twice (s : Json.schema_json) (q : string)
  (w : world) :
  keeps_failing s q w ->
  fix_calls (snd (generate s q w)) = fix_calls w + 2 /\
  api_calls (snd (generate s q w)) = api_calls w + 3 /\
  exists sql validation classification message,
    fst (generate s q w) =
      Return (OkResponse sql validation classification message None) /\
    class classification = "ai_issue".
Proof.
  intros K.
  destruct (K (api_calls w) (GenerateRequest s q)) as (raw0 & H0 & Hne0 & Hc0).
  destruct (generate_cases s q w)
    as [(sql0 & w1 & Hg & Hf & _ & Hrun) | [(m & w1 & Hg & _) |
                                           (e' & w1 & Hg & _)]];
    rewrite (ai_generate_sql_answered s q w raw0 H0 Hne0) in Hg;
    try discriminate.
  injection Hg as <- <-. rewrite Hrun. clear Hrun Hf.
  set (w1 := {| oracle := oracle w; api_calls := S (api_calls w);
                trace := trace w ++ [Called_ai_generate_sql;
                                     Called_api (GenerateRequest s q)] |}).
  set (sql0 := extract_sql raw0) in *.
  set (v0 := validate_against_schema sql0 s).
  destruct (K (api_calls w1) (FixRequest s q sql0 v0)) as (raw1 & H1 & Hne1 & Hc1).
  set (w2 := {| oracle := oracle w1; api_calls := S (api_calls w1);
                trace := trace w1 ++ [Called_ai_fix_sql;
                                      Called_api (FixRequest s q sql0 v0)] |}).
  set (sql1 := extract_sql raw1) in *.
  set (v1 := validate_against_schema sql1 s).
  destruct (K (api_calls w2) (FixRequest s q sql1 v1)) as (raw2 & H2 & Hne2 & Hc2).
  set (w3 := {| oracle := oracle w2; api_calls := S (api_calls w2);
                trace := trace w2 ++ [Called_ai_fix_sql;
                                      Called_api (FixRequest s q sql1 v1)] |}).
  assert (E : fix_loop 2 s q (assess s q sql0) w1 =
              (Return (assess s q (extract_sql raw2)), w3)).
  { rewrite (fix_loop_round 1 s q sql0 Hc0).
    rewrite (bind_returned _ _ w1 sql1 w2)
      by exact (ai_fix_sql_answered s q sql0 v0 w1 raw1 H1 Hne1).
    rewrite (fix_loop_round 0 s q sql1 Hc1).
    rewrite (bind_returned _ _ w2 (extract_sql raw2) w3)
      by exact (ai_fix_sql_answered s q sql1 v1 w2 raw2 H2 Hne2).
    reflexivity. }
  rewrite (bind_returned _ _ w1 _ w3 E). cbn [ret fst snd].
  split.
  - unfold fix_calls. cbn [trace w3 w2 w1].
    rewrite !filter_app, !length_app. cbn. lia.
  - split; [cbn [api_calls w3 w2 w1]; lia|].
    do 4 eexists. split; [reflexivity|].
    cbn [assess cand_classification]. exact Hc2.
Qed.

(** X7.  A rate limit during a repair is not caught.  When the first
    reply extracts to a query that is the generator's fault and the
    three attempts of the repair are rate limited, the handler raises
    that error: the heuristic fallback of step 1 is not used. *)
Theorem rate_limit_during_repair_escapes (s : Json.schema_json) (q : string)
  (w : world) (raw : string) (m0 : string) (m1 : string) (m2 : string) :
  oracle w (api_calls w) (GenerateRequest s q) = Content raw ->
  extract_sql raw <> EmptyString ->
  class (classify_issue (validate_against_schema (extract_sql raw) s) q s) =
    "ai_issue" ->
  oracle w (1 + api_calls w)
    (FixRequest s q (extract_sql raw)
       (validate_against_schema (extract_sql raw) s)) = RateLimited m0 ->
  oracle w (2 + api_calls w)
    (FixRequest s q (extract_sql raw)
       (validate_against_schema (extract_sql raw) s)) = RateLimited m1 ->
  oracle w (3 + api_calls w)
    (FixRequest s q (extract_sql raw)
       (validate_against_schema (extract_sql raw) s)) = RateLimited m2 ->
  fst (generate s q w) = Raise (RateLimitError m2).
Proof.
  intros H Hne Hc H0 H1 H2.
  destruct (generate_cases s q w)
    as [(sql0 & w1 & Hg & _ & _ & Hrun) | [(m & w1 & Hg & _) |
                                          (e' & w1 & Hg & _)]];
    rewrite (ai_generate_sql_answered s q w raw H Hne) in Hg;
    try discriminate.
  injection Hg as <- <-. rewrite Hrun. clear Hrun.
  rewrite (fix_loop_round 1 s q _ Hc).
  match goal with
  | |- fst (bind (bind ?c ?f) ?g ?w1) = _ =>
      pose proof (ai_fix_sql_exhausted s q (extract_sql raw)
                    (validate_against_schema (extract_sql raw) s) w1
                    m0 m1 m2 H0 H1 H2) as E;
      destruct (c w1) as [r w2] eqn:Ec; cbn [fst] in E; subst r;
      rewrite (bind_raised _ g w1 (RateLimitError m2) w2);
      [reflexivity | now apply bind_raised]
  end.
Qed.

Lemma generate_raises_only_from_a_repair_witness :
  fst (generate employees_schema "list employees"
         (new_world exhausted_after_one)) = Raise (RateLimitError "quota") /\
  fix_calls (new_world exhausted_after_one) + 1 <=
  fix_calls (snd (generate employees_schema "list employees"
                    (new_world exhausted_after_one))).
Proof.
  split; [vm_compute; reflexivity|].
  apply (generate_raises_only_from_a_repair employees_schema "list employees"
           (new_world exhausted_after_one) (RateLimitError "quota")).
  vm_compute. reflexivity.
Defined.

Lemma rate_limit_during_repair_escapes_witness :
  fst (generate employees_schema "list employees"
         (new_world exhausted_after_one)) = Raise (RateLimitError "quota").
Proof.
  apply (rate_limit_during_repair_escapes employees_schema "list employees"
           (new_world exhausted_after_one) mismatched_join_sql
           "quota" "quota" "quota");
    vm_compute; (reflexivity || discriminate).
Defined.

(** X8.  Every ok response is consistent: its validation report is the
    report of the SQL it carries, its classification the
    classification of that report for the request, and its message the
    message for the two. *)
Theorem response_reports_on_its_own_sql
  (schema_json : Json.schema_json) (q : string) (w : world)
  (sql : string) (v : ValidationReport) (c : Classification)
  (msg : string) (note : option string) :
  fst (generate schema_json q w) = Return (OkResponse sql v c msg note) ->
  v = validate_against_schema sql schema_json /\
  c = classify_issue v q schema_json /\
  msg = ux_message (class c) v.
Proof.
  intros H.
  destruct (generate_ok_response schema_json q w sql v c msg note H)
    as (Hv & Hc & Hm & _).
  auto.
Qed.

Lemma response_reports_on_its_own_sql_witness :
  exists v c msg,
    fst (generate employees_schema "list employees" (new_world stubborn)) =
      Return (OkResponse mismatched_join_sql v c msg None) /\
    v = validate_against_schema mismatched_join_sql employees_schema /\
    c = classify_issue v "list employees" employees_schema /\
    msg = ux_message (class c) v.
Proof.
  do 3 eexists. split; [vm_compute; reflexivity|].
  refine (response_reports_on_its_own_sql employees_schema "list employees"
            (new_world stubborn) mismatched_join_sql _ _ _ None _).
  vm_compute. reflexivity.
Defined.

(** X9.  An ok response without a note carries one statement as the
    extractor lets it through: its only semicolon is its last
    character and the pattern [^(select|with)\b] accepts its first
    word without regard to case, so that an ASCII statement starts
    with SELECT or WITH in some letter case.  An ok response with a
    note carries the query of the heuristic fallback, and no repair
    was tried. *)
Theorem answer_is_one_statement_or_the_fallback
  (schema_json : Json.schema_json) (q : string) (w : world)
  (sql : string) (v : ValidationReport) (c : Classification)
  (msg : string) (note : option string) :
  fst (generate schema_json q w) = Return (OkResponse sql v c msg note) ->
  match note with
  | None => single_statement sql
  | Some _ =>
      sql = smart_sql_generator schema_json q /\
      fix_calls (snd (generate schema_json q w)) = fix_calls w
  end.
Proof.
  intros H.
  destruct (generate_ok_response schema_json q w sql v c msg note H)
    as (_ & _ & _ & Hn).
  destruct note; [exact Hn | exact (proj1 Hn)].
Qed.

Lemma answer_is_one_statement_or_the_fallback_witness :
  exists v c msg,
    fst (generate employees_schema "list employees" (new_world stubborn)) =
      Return (OkResponse mismatched_join_sql v c msg None) /\
    single_statement mismatched_join_sql.
Proof.
  do 3 eexists. split; [vm_compute; reflexivity|].
  refine (answer_is_one_statement_or_the_fallback employees_schema
            "list employees" (new_world stubborn) mismatched_join_sql
            _ _ _ None _).
  vm_compute. reflexivity.
Defined.

(** A reply whose first word is [with] spelt with U+0130 is let
    through as it is: the answer is ok, without a note and without a
    repair. *)
Example dotted_with_is_answered :
  (exists v msg,
     fst (generate employees_schema "employees of a branch"
            (new_world (fun _ _ => Content dotted_with))) =
     Return (OkResponse (dotted_with ++ ";") v
               {| class := "ok";
                  class_reason := "No major validation issues detected.";
                  action := "stop" |} msg None)) /\
  fix_calls (snd (generate employees_schema "employees of a branch"
                    (new_world (fun _ _ => Content dotted_with)))) = 0.
Proof. split; [do 2 eexists|]; vm_compute; reflexivity. Qed.

(** X10.  An answer of step 3 that is still classified as the
    generator's fault is returned only when the budget is spent: both
    repairs were tried. *)
Theorem ai_issue_answer_means_budget_spent
  (schema_json : Json.schema_json) (q : string) (w : world)
  (sql : string) (v : ValidationReport) (c : Classification) (msg : string) :
  fst (generate schema_json q w) = Return (OkResponse sql v c msg None) ->
  class c = "ai_issue" ->
  fix_calls (snd (generate schema_json q w)) = fix_calls w + 2.
Proof.
  intros H Hc.
  destruct (generate_ok_response schema_json q w sql v c msg None H)
    as (_ & _ & _ & _ & Hn).
  exact (Hn Hc).
Qed.

Lemma ai_issue_answer_means_budget_spent_witness :
  exists v c msg,
    fst (generate employees_schema "list employees" (new_world stubborn)) =
      Return (OkResponse mismatched_join_sql v c msg None) /\
    class c = "ai_issue" /\
    fix_calls (snd (generate employees_schema "list employees"
                      (new_world stubborn))) =
    fix_calls (new_world stubborn) + 2.
Proof.
  do 3 eexists. split; [vm_compute; reflexivity|].
  split; [vm_compute; reflexivity|].
  refine (ai_issue_answer_means_budget_spent employees_schema "list employees"
            (new_world stubborn) mismatched_join_sql _ _ _ _ _);
    vm_compute; reflexivity.
Defined.

Lemma failing_generator_is_asked_twice_witness :
  fix_calls (snd (generate employees_schema "list employees"
                    (new_world stubborn))) =
    fix_calls (new_world stubborn) + 2 /\
  api_calls (snd (generate employees_schema "list employees"
                    (new_world stubborn))) =
    api_calls (new_world stubborn) + 3 /\
  exists sql validation classification message,
    fst (generate employees_schema "list employees" (new_world stubborn)) =
      Return (OkResponse sql validation classification message None) /\
    class classification = "ai_issue".
Proof.
  apply (failing_generator_is_asked_twice employees_schema "list employees"
           (new_world stubborn)).
  intros n r. exists mismatched_join_sql.
  split; [reflexivity|]. split; [vm_compute; discriminate | vm_compute; reflexivity].
Defined.

(** *** The message of an answer *)

Lemma class_is_one_of_three v q s :
  class (classify_issue v q s) = "ok" \/
  class (classify_issue v q s) = "schema_issue" \/
  class (classify_issue v q s) = "ai_issue".
Proof.
  unfold classify_issue.
  destruct (missing_tables v); [|right; left; reflexivity].
  destruct (unknown_columns v).
  2:{ cbn [nonempty orb negb].
      destruct (existsb _ _); [right; left | right; right]; reflexivity. }
  destruct (invalid_joins v); [|right; right; now rewrite !orb_true_r].
  destruct (type_mismatches v); [|right; right; now rewrite !orb_true_r].
  destruct (unknown_aliases v); [left | right; right]; reflexivity.
Qed.

(** X3.  The message of an ok response is one of four.  It is the
    schema message exactly for class schema_issue; otherwise the
    missing-column message when the report has an unknown column or an
    unknown identifier (also for class ok), else the type-mismatch
    message when it has a type mismatch, else the message that the
    query was generated and validated.  The messages for user_issue
    and system_issue are never sent. *)
Theorem answer_message_is_one_of_four
  (schema_json : Json.schema_json) (q : string) (w : world)
  (sql : string) (v : ValidationReport) (c : Classification)
  (msg : string) (note : option string) :
  fst (generate schema_json q w) = Return (OkResponse sql v c msg note) ->
  (class c = "schema_issue" /\
   msg = "Your schema looks incomplete or inconsistent. Re-upload the correct schema.sql.") \/
  (class c <> "schema_issue" /\
   (unknown_columns v <> [] \/ unknown_identifiers v <> []) /\
   msg = "The query referenced a missing column/identifier. It was corrected or flagged.") \/
  (class c <> "schema_issue" /\
   unknown_columns v = [] /\ unknown_identifiers v = [] /\
   type_mismatches v <> [] /\
   msg = "A type mismatch was detected (e.g., comparing text to numbers). Adjust the condition.") \/
  (class c <> "schema_issue" /\
   unknown_columns v = [] /\ unknown_identifiers v = [] /\
   type_mismatches v = [] /\
   msg = "Query generated and validated.").
Proof.
  intros H.
  destruct (generate_ok_response schema_json q w sql v c msg note H)
    as (_ & Hc & Hm & _).
  rewrite Hm. clear Hm H.
  destruct (class_is_one_of_three v q schema_json) as [E | [E | E]];
    rewrite <- Hc in E; rewrite E; unfold ux_message; cbn [String.eqb Ascii.eqb Bool.eqb].
  2:{ left. split; reflexivity. }
  all: right.
  all: destruct (unknown_columns v) as [|uc ucs];
         [|left; split; [discriminate|]; split; [left; discriminate | reflexivity]].
  all: destruct (unknown_identifiers v) as [|ui uis];
         [|left; split; [discriminate|]; split; [right; discriminate | reflexivity]].
  all: right.
  all: destruct (type_mismatches v) as [|tm tms];
         [right | left]; repeat (split; [discriminate || reflexivity|]);
         (discriminate || reflexivity).
Qed.

Lemma answer_message_is_one_of_four_witness :
  exists v c msg,
    fst (generate employees_schema "list employees" (new_world stubborn)) =
      Return (OkResponse mismatched_join_sql v c msg None) /\
    ((class c = "schema_issue" /\
      msg = "Your schema looks incomplete or inconsistent. Re-upload the correct schema.sql.") \/
     (class c <> "schema_issue" /\
      (unknown_columns v <> [] \/ unknown_identifiers v <> []) /\
      msg = "The query referenced a missing column/identifier. It was corrected or flagged.") \/
     (class c <> "schema_issue" /\
      unknown_columns v = [] /\ unknown_identifiers v = [] /\
      type_mismatches v <> [] /\
      msg = "A type mismatch was detected (e.g., comparing text to numbers). Adjust the condition.") \/
     (class c <> "schema_issue" /\
      unknown_columns v = [] /\ unknown_identifiers v = [] /\
      type_mismatches v = [] /\
      msg = "Query generated and validated.")).
Proof.
  do 3 eexists. split; [vm_compute; reflexivity|].
  refine (answer_message_is_one_of_four employees_schema "list employees"
            (new_world stubborn) mismatched_join_sql _ _ _ None _).
  vm_compute. reflexivity.
Defined.

End ControllerFacts.

(* ================================================================== *)
(** ** Limits, counters and stored schemas *)
(* ================================================================== *)

Module ServerFacts.
Import PyStr PyStrFacts PyDict PyDictFacts SchemaParser Validator App Server Spec Notions ReportFacts RoundTrip.

Local Open Scope Z_scope.

(** *** Usage buckets *)

Lemma bucket_of_get_usage_bucket tk cid tk' cid' usage :
  bucket_of tk' cid' (get_usage_bucket tk cid usage) = bucket_of tk' cid' usage.
Proof.
  unfold bucket_of, get_usage_bucket.
  destruct (String.eqb_spec tk tk') as [<- | Htk].
  - rewrite get_set_same.
    destruct (PyDict.get tk usage) as [day|] eqn:Ed.
    + destruct (PyDict.get cid day) as [b|] eqn:Eb; [reflexivity|].
      destruct (String.eqb_spec cid cid') as [<- | Hc].
      * now rewrite get_set_same, Eb.
      * now rewrite get_set_other.
    + cbn [PyDict.get PyDict.set].
      destruct (String.eqb cid cid'); reflexivity.
  - now rewrite get_set_other.
Qed.

Lemma bucket_of_store_bucket tk cid b usage :
  bucket_of tk cid (store_bucket tk cid b usage) = b.
Proof. unfold bucket_of, store_bucket. now rewrite !get_set_same. Qed.

Lemma bucket_of_store_bucket_other tk cid tk' cid' b usage :
  (tk', cid') <> (tk, cid) ->
  bucket_of tk' cid' (store_bucket tk cid b usage) = bucket_of tk' cid' usage.
Proof.
  intros Hne. unfold bucket_of, store_bucket.
  destruct (String.eqb_spec tk tk') as [<- | Htk].
  - rewrite get_set_same.
    assert (Hc : cid <> cid') by (intros ->; now apply Hne).
    rewrite get_set_other by exact Hc.
    destruct (PyDict.get tk usage); reflexivity.
  - now rewrite get_set_other.
Qed.

(** *** The column count of step 3 *)

Lemma len_nonneg {A} (l : list A) : 0 <= len l.
Proof. unfold len. lia. Qed.

Lemma total_columns_nonneg tables : 0 <= total_columns tables.
Proof.
  induction tables as [|kt l IH]; cbn [total_columns fold_right]; [lia|].
  fold (total_columns l). pose proof (len_nonneg (Json.columns (snd kt))). lia.
Qed.

Lemma count_columns_accepts tables : forall acc,
  0 <= acc ->
  (exists t, count_columns tables acc = inl t) <->
  Forall (fun kt => len (Json.columns (snd kt)) <= MAX_COLUMNS_PER_TABLE) tables /\
  (tables <> [] -> acc + total_columns tables <= MAX_TOTAL_COLUMNS).
Proof.
  induction tables as [|[tname tmeta] l IH]; intros acc Hacc.
  - cbn. split; [intros _; split; [constructor | congruence] | intros _; eauto].
  - cbn [count_columns total_columns fold_right snd]. fold (total_columns l).
    pose proof (len_nonneg (Json.columns tmeta)) as Hl.
    pose proof (total_columns_nonneg l) as Ht.
    destruct (Z.gtb_spec (len (Json.columns tmeta)) MAX_COLUMNS_PER_TABLE) as [Hc | Hc].
    { split; [intros [t Ht']; discriminate|].
      intros [Hall _]. inversion Hall; subst. cbn [snd] in *. lia. }
    destruct (Z.gtb_spec (acc + len (Json.columns tmeta)) MAX_TOTAL_COLUMNS) as [Hs | Hs].
    { split; [intros [t Ht']; discriminate|].
      intros [_ Hsum]. specialize (Hsum ltac:(discriminate)). lia. }
    rewrite IH by lia. split.
    + intros [Hall Hsum]. split; [constructor; [exact Hc | exact Hall]|].
      intros _. destruct l as [|kt l']; [cbn; lia|].
      specialize (Hsum ltac:(discriminate)). lia.
    + intros [Hall Hsum]. inversion Hall; subst. split; [assumption|].
      intros _. specialize (Hsum ltac:(discriminate)). lia.
Qed.

Lemma count_columns_total tables : forall acc t,
  count_columns tables acc = inl t -> t = acc + total_columns tables.
Proof.
  induction tables as [|[tname tmeta] l IH]; intros acc t.
  - cbn. intros [= <-]. lia.
  - cbn [count_columns total_columns fold_right snd]. fold (total_columns l).
    destruct (Z.gtb _ _); [discriminate|].
    destruct (Z.gtb _ _); [discriminate|].
    intros H. apply IH in H. lia.
Qed.

Lemma count_columns_rejects tables : forall acc code detail,
  count_columns tables acc = inr (code, detail) -> code = 422.
Proof.
  induction tables as [|[tname tmeta] l IH]; intros acc code detail.
  - discriminate.
  - cbn [count_columns].
    destruct (Z.gtb _ _); [now intros [= <- _]|].
    destruct (Z.gtb _ _); [now intros [= <- _]|].
    apply IH.
Qed.

Lemma require_limit_cases count limit label :
  (count < limit /\ require_limit count limit label = None) \/
  (limit <= count /\
   require_limit count limit label =
     Some (429, ("Usage limit reached: " ++ label ++ " (" ++ str limit ++
                 "/day).")%string)).
Proof.
  unfold require_limit. destruct (Z.geb_spec count limit); [right | left];
    split; (lia || reflexivity).
Qed.

Lemma nonempty_len {A} (l : list A) : nonempty l = true <-> 1 <= len l.
Proof.
  destruct l; cbn; split; try discriminate; try reflexivity; try lia.
Qed.

(** The two ways out of [upload_schema]. *)
Lemma upload_schema_cases env raw srv :
  let tk := today_key env in
  let cid := client_of env in
  let usage := get_usage_bucket tk cid (USAGE srv) in
  let b := counters env srv in
  let j := uploaded raw in
  (schemas b < MAX_SCHEMAS_PER_DAY /\ strlen raw <= MAX_UPLOAD_BYTES /\
   within_limits j /\
   exists resp,
     upload_schema env raw srv =
     (Respond {| up_request_id := uuid4 env 1;
                 up_schema_id := uuid4 env 0;
                 summary_tables := len (Json.tables j);
                 summary_columns := total_columns (Json.tables j);
                 schema_preview := firstn 10 (keys (Json.tables j)) |},
      resp,
      {| SCHEMAS := PyDict.set (uuid4 env 0) j (SCHEMAS srv);
         schema_files :=
           PyDict.set (uuid4 env 0) (stored_schema j) (schema_files srv);
         USAGE := store_bucket tk cid
                    {| schemas := schemas b + 1; generates := generates b |}
                    usage |})) \/
  (~ (schemas b < MAX_SCHEMAS_PER_DAY /\ strlen raw <= MAX_UPLOAD_BYTES /\
      within_limits j) /\
   exists code detail resp,
     upload_schema env raw srv =
     (HTTPException code detail, resp,
      {| SCHEMAS := SCHEMAS srv; schema_files := schema_files srv;
         USAGE := usage |}) /\
     In code [429; 413; 400; 422] /\
     (MAX_SCHEMAS_PER_DAY <= schemas b ->
      code = 429 /\
      detail = "Usage limit reached: schema uploads (5/day).")).
Proof.
  intros tk cid usage b j.
  assert (Hb : bucket_of tk cid usage = b)
    by apply bucket_of_get_usage_bucket.
  unfold upload_schema. unfold client_of in cid.
  destruct (get_or_set_client_id env new_response) as [cid0 resp0] eqn:Ec.
  cbn [fst] in cid. fold tk. subst cid. fold usage. rewrite Hb.
  destruct (require_limit_cases (schemas b) MAX_SCHEMAS_PER_DAY "schema uploads")
    as [[Hq ->] | [Hq ->]].
  2:{ right. split; [lia|]. do 3 eexists. split; [reflexivity|].
      split; [now left | intros _; split; reflexivity]. }
  destruct (Z.gtb_spec (strlen raw) MAX_UPLOAD_BYTES) as [Hs | Hs].
  { right. split; [lia|]. do 3 eexists. split; [reflexivity|].
    split; [right; now left | intros; exfalso; lia]. }
  destruct (truthy (strip raw)) eqn:Et; cbn [negb].
  2:{ right. split.
      - intros (_ & _ & [Hl _] & _). unfold j, uploaded in Hl.
        destruct (strip raw); [|discriminate].
        assert (E0 : parse_schema_sql EmptyString = []) by reflexivity.
        rewrite E0 in Hl. cbn in Hl. lia.
      - do 3 eexists. split; [reflexivity|].
        split; [do 2 right; now left | intros; exfalso; lia]. }
  fold (uploaded raw). fold j.
  destruct (nonempty (Json.tables j)) eqn:En; cbn [negb].
  2:{ right. split.
      - intros (_ & _ & [Hl _] & _). apply nonempty_len in Hl. congruence.
      - do 3 eexists. split; [reflexivity|].
        split; [do 3 right; now left | intros; exfalso; lia]. }
  apply nonempty_len in En.
  destruct (Z.gtb_spec (len (Json.tables j)) MAX_TABLES) as [Hn | Hn].
  { right. split; [intros (_ & _ & [_ Hl] & _); lia|].
    do 3 eexists. split; [reflexivity|].
    split; [do 3 right; now left | intros; exfalso; lia]. }
  assert (Hne : Json.tables j <> [])
    by (intros E; rewrite E in En; cbn in En; lia).
  pose proof (count_columns_accepts (Json.tables j) 0 ltac:(lia)) as Hacc.
  destruct (count_columns (Json.tables j) 0) as [t | [code detail]] eqn:Ecc.
  - left. destruct Hacc as [Hacc _].
    destruct (Hacc (ex_intro _ t eq_refl)) as [Hall Hsum].
    specialize (Hsum Hne).
    apply count_columns_total in Ecc. subst t.
    split; [exact Hq|]. split; [exact Hs|]. split.
    + split; [lia|]. split; [exact Hall | lia].
    + eexists. reflexivity.
  - right. split.
    + intros (_ & _ & _ & Hall & Hsum). destruct Hacc as [_ Hacc].
      destruct Hacc as [t Ht]; [split; [exact Hall | intros _; lia]|].
      discriminate.
    + apply count_columns_rejects in Ecc. subst code.
      do 3 eexists. split; [reflexivity|].
      split; [do 3 right; now left | intros; exfalso; lia].
Qed.

Lemma uploaded_keys_distinct raw : keys_distinct (uploaded raw).
Proof. apply to_schema_json_distinct, parse_schema_sql_extracted. Qed.

Lemma find_schema_usage schema_id srv found srv' :
  find_schema schema_id srv = Some (found, srv') -> USAGE srv' = USAGE srv.
Proof.
  unfold find_schema.
  destruct (PyDict.get schema_id (SCHEMAS srv)); [now intros [= <- <-]|].
  destruct (PyDict.get schema_id (schema_files srv)); [|now intros [= <- <-]].
  destruct (loaded_schema _); [|discriminate]. now intros [= <- <-].
Qed.


(** X25.  An accepted upload answers with the numbers of tables and
    columns and the first ten table names of the parsed schema, caches
    that schema under the new schema id, and writes it to a file from
    which [get_schema] reads the same schema back after a restart,
    when the cache is empty. *)
Theorem accepted_upload_is_stored_and_survives_restart (env : request_env)
  (raw : string) (srv : server) (body : upload_body) :
  fst (fst (upload_schema env raw srv)) = Respond body ->
  summary_tables body = len (Json.tables (uploaded raw)) /\
  summary_columns body = total_columns (Json.tables (uploaded raw)) /\
  schema_preview body = firstn 10 (keys (Json.tables (uploaded raw))) /\
  PyDict.get (up_schema_id body) (SCHEMAS (snd (upload_schema env raw srv))) =
    Some (uploaded raw) /\
  forall env2,
    exists resp srv2,
      get_schema env2 (up_schema_id body)
        (restarted (snd (upload_schema env raw srv))) =
      Some (SchemaFound (uuid4 env2 0) (up_schema_id body) (uploaded raw),
            resp, srv2).
Proof.
  destruct (upload_schema_cases env raw srv)
    as [(H1 & H2 & H3 & resp & ->) | (Hn & code & detail & resp & -> & _)];
    cbn [fst snd]; [|discriminate].
  intros [= <-]. cbn [summary_tables summary_columns schema_preview up_schema_id
                      SCHEMAS].
  repeat (split; [reflexivity|]). split; [apply get_set_same|].
  intros env2. unfold get_schema, restarted.
  destruct (get_or_set_client_id env2 new_response) as [cid2 resp2].
  unfold find_schema. cbn [SCHEMAS schema_files USAGE PyDict.get].
  rewrite get_set_same.
  rewrite (loaded_stored_schema _ (uploaded_keys_distinct raw)).
  eauto.
Qed.

(** X26.  An upload changes the counters of no other client and no
    other day, and never the count of generations.  An accepted upload
    adds one to the client's uploads of the day; a refused one leaves
    the count, the cache and the files as they were. *)
Theorem upload_counts_successes_only (env : request_env) (raw : string)
  (srv : server) :
  (forall tk cid,
     (tk, cid) <> (today_key env, client_of env) ->
     bucket_of tk cid (USAGE (snd (upload_schema env raw srv))) =
     bucket_of tk cid (USAGE srv)) /\
  generates (counters env (snd (upload_schema env raw srv))) =
    generates (counters env srv) /\
  match fst (fst (upload_schema env raw srv)) with
  | Respond _ =>
      schemas (counters env (snd (upload_schema env raw srv))) =
        schemas (counters env srv) + 1
  | _ =>
      schemas (counters env (snd (upload_schema env raw srv))) =
        schemas (counters env srv) /\
      SCHEMAS (snd (upload_schema env raw srv)) = SCHEMAS srv /\
      schema_files (snd (upload_schema env raw srv)) = schema_files srv
  end.
Proof.
  destruct (upload_schema_cases env raw srv)
    as [(H1 & H2 & H3 & resp & ->) | (Hn & code & detail & resp & -> & _)];
    cbn [fst snd]; unfold counters; cbn [USAGE SCHEMAS schema_files].
  - split.
    + intros tk cid Hne. rewrite bucket_of_store_bucket_other by exact Hne.
      apply bucket_of_get_usage_bucket.
    + now rewrite bucket_of_store_bucket.
  - split; [intros; apply bucket_of_get_usage_bucket|].
    rewrite bucket_of_get_usage_bucket. auto.
Qed.

(** X27.  Once a client has five uploads on a day, every further
    upload of that day is refused with status 429, whatever the
    file. *)
Theorem upload_at_the_daily_limit_is_refused (env : request_env)
  (raw : string) (srv : server) :
  MAX_SCHEMAS_PER_DAY <= schemas (counters env srv) ->
  fst (fst (upload_schema env raw srv)) =
    HTTPException 429 "Usage limit reached: schema uploads (5/day).".
Proof.
  intros H.
  destruct (upload_schema_cases env raw srv)
    as [(H1 & _) | (_ & code & detail & resp & -> & _ & Hc)]; [lia|].
  destruct (Hc H) as [-> ->]. reflexivity.
Qed.

(** X28.  The generation endpoint changes the counters of no other
    client and never the count of uploads.  It counts a generation
    exactly when it answers with the outcome of steps 1 to 3, which
    needs generations left for the day and a stripped question of 1 to
    500 characters; when an exception leaves those steps nothing is
    counted; and when it refuses the request or does not know the
    schema, nothing is counted and no completion request is sent. *)
Theorem generation_is_counted_once_per_answer (env : request_env)
  (schema_id : string) (question : string) (srv : server) (w : world)
  (o : outcome generate_body) (resp : response) (srv' : server) (w' : world) :
  generate_endpoint env schema_id question srv w = Some (o, resp, srv', w') ->
  (forall tk cid,
     (tk, cid) <> (today_key env, client_of env) ->
     bucket_of tk cid (USAGE srv') = bucket_of tk cid (USAGE srv)) /\
  schemas (counters env srv') = schemas (counters env srv) /\
  match o with
  | Respond (Generated _ r) =>
      generates (counters env srv') = generates (counters env srv) + 1 /\
      generates (counters env srv) < MAX_GENERATES_PER_DAY /\
      strip question <> EmptyString /\
      strlen (strip question) <= MAX_QUESTION_CHARS /\
      exists schema_json,
        generate schema_json (strip question) w = (Return r, w')
  | Unhandled e =>
      generates (counters env srv') = generates (counters env srv) /\
      exists schema_json,
        generate schema_json (strip question) w = (Raise e, w')
  | _ =>
      generates (counters env srv') = generates (counters env srv) /\ w' = w
  end.
Proof.
  unfold generate_endpoint, counters, client_of.
  destruct (get_or_set_client_id env new_response) as [cid resp0]. cbn [fst].
  set (tk := today_key env).
  set (usage := get_usage_bucket tk cid (USAGE srv)).
  assert (Hb : forall tk' cid',
            bucket_of tk' cid' usage = bucket_of tk' cid' (USAGE srv))
    by (intros; apply bucket_of_get_usage_bucket).
  rewrite (Hb tk cid).
  set (b := bucket_of tk cid (USAGE srv)).
  destruct (require_limit_cases (generates b) MAX_GENERATES_PER_DAY
              "query generations") as [[Hq ->] | [Hq ->]].
  2:{ intros [= <- <- <- <-]. cbn [USAGE]. rewrite Hb. fold b. auto. }
  destruct (truthy (strip question)) eqn:Et; cbn [negb].
  2:{ intros [= <- <- <- <-]. cbn [USAGE]. rewrite Hb. fold b. auto. }
  destruct (Z.gtb_spec (strlen (strip question)) MAX_QUESTION_CHARS) as [Hl | Hl].
  { intros [= <- <- <- <-]. cbn [USAGE]. rewrite Hb. fold b. auto. }
  destruct (find_schema schema_id _) as [[[j|] srv2]|] eqn:Ef; [| |discriminate].
  - apply find_schema_usage in Ef. cbn [USAGE] in Ef.
    destruct (generate j (strip question) w) as [[r | e] w1] eqn:Eg.
    + intros [= <- <- <- <-]. cbn [USAGE]. rewrite Ef. split.
      * intros tk' cid' Hne. rewrite bucket_of_store_bucket_other by exact Hne.
        apply Hb.
      * rewrite bucket_of_store_bucket. cbn [schemas generates].
        split; [reflexivity|]. split; [reflexivity|]. split; [exact Hq|].
        split; [now apply truthy_iff|]. split; [exact Hl | now exists j].
    + intros [= <- <- <- <-]. rewrite Ef. rewrite Hb. fold b.
      split; [intros; apply Hb|]. split; [reflexivity|].
      split; [reflexivity | now exists j].
  - apply find_schema_usage in Ef. cbn [USAGE] in Ef.
    intros [= <- <- <- <-]. rewrite Ef, Hb. fold b. auto.
Qed.

(** *** The summary *)

Lemma firstn_firstn_same {A} n (l : list A) : firstn n (firstn n l) = firstn n l.
Proof. rewrite firstn_firstn. now rewrite Nat.min_id. Qed.

Lemma nonempty_firstn {A} n (l : list A) :
  nonempty (firstn (S n) l) = nonempty l.
Proof. destruct l; reflexivity. Qed.

Lemma table_lines_cut table : table_lines (cut_table table) = table_lines table.
Proof.
  destruct table as [name meta]. unfold cut_table, table_lines.
  cbn [fst snd Json.columns Json.primary_key Json.foreign_keys].
  rewrite <- firstn_map, !firstn_firstn_same.
  rewrite (nonempty_firstn 29 (Json.foreign_keys meta)).
  reflexivity.
Qed.

(** X30.  [schema_summary] reads at most the first forty columns and
    the first thirty foreign keys of a table: the summary of a schema
    is the summary of the schema cut down to those. *)
Theorem summary_reads_forty_columns_and_thirty_keys
  (schema_json : Json.schema_json) :
  schema_summary (cut_schema schema_json) = schema_summary schema_json.
Proof.
  unfold schema_summary, cut_schema. cbn [Json.tables]. f_equal. f_equal.
  induction (Json.tables schema_json) as [|t l IH]; [reflexivity|].
  cbn [map flat_map]. now rewrite table_lines_cut, IH.
Qed.

Lemma accepted_upload_is_stored_and_survives_restart_witness :
  exists body,
    fst (fst (upload_schema first_visit employees_ddl new_server)) =
      Respond body /\
    summary_tables body = len (Json.tables (uploaded employees_ddl)) /\
    summary_columns body = total_columns (Json.tables (uploaded employees_ddl)) /\
    schema_preview body = firstn 10 (keys (Json.tables (uploaded employees_ddl))) /\
    PyDict.get (up_schema_id body)
      (SCHEMAS (snd (upload_schema first_visit employees_ddl new_server))) =
      Some (uploaded employees_ddl) /\
    forall env2,
      exists resp srv2,
        get_schema env2 (up_schema_id body)
          (restarted (snd (upload_schema first_visit employees_ddl new_server))) =
        Some (SchemaFound (uuid4 env2 0) (up_schema_id body)
                (uploaded employees_ddl),
              resp, srv2).
Proof.
  eexists. split; [vm_compute; reflexivity|].
  refine (accepted_upload_is_stored_and_survives_restart
            first_visit employees_ddl new_server _ _).
  vm_compute. reflexivity.
Defined.

Lemma upload_at_the_daily_limit_is_refused_witness :
  fst (fst (upload_schema return_visit employees_ddl at_the_limit)) =
    HTTPException 429 "Usage limit reached: schema uploads (5/day).".
Proof.
  apply (upload_at_the_daily_limit_is_refused return_visit employees_ddl
           at_the_limit).
  vm_compute. discriminate.
Defined.

Lemma generation_is_counted_once_per_answer_witness :
  exists o resp srv' w',
    generate_endpoint return_visit "uuid-a" " list employees " with_employees
      (new_world stubborn) = Some (o, resp, srv', w') /\
    generates (counters return_visit srv') =
      generates (counters return_visit with_employees) + 1.
Proof.
  do 4 eexists. split; [vm_compute; reflexivity|].
  refine (proj1 (proj2 (proj2
            (generation_is_counted_once_per_answer return_visit "uuid-a"
               " list employees " with_employees (new_world stubborn)
               (Respond (Generated _ _)) _ _ _ _)))).
  vm_compute. reflexivity.
Defined.

(** *** The lookup endpoints *)

Lemma find_schema_found schema_id srv schema_json srv' :
  find_schema schema_id srv = Some (Some schema_json, srv') ->
  PyDict.get schema_id (SCHEMAS srv') = Some schema_json /\
  (PyDict.get schema_id (SCHEMAS srv) = Some schema_json \/
   exists file_text,
     PyDict.get schema_id (SCHEMAS srv) = None /\
     PyDict.get schema_id (schema_files srv) = Some file_text /\
     loaded_schema file_text = Some schema_json).
Proof.
  unfold find_schema.
  destruct (PyDict.get schema_id (SCHEMAS srv)) as [j|] eqn:Ec.
  - intros [= <- <-]. split; [exact Ec | now left].
  - destruct (PyDict.get schema_id (schema_files srv)) as [text|] eqn:Ef;
      [|discriminate].
    destruct (loaded_schema text) as [j|] eqn:El; [|discriminate].
    intros [= <- <-]. cbn [SCHEMAS]. split; [apply get_set_same|].
    right. now exists text.
Qed.

(** X29.  The lookup endpoints count nothing and write no file.
    [get_schema] and [validate] leave the counters of every client and
    the schema files as they were; [validate] answers with the report
    of [validate_against_schema] for the schema it then holds in the
    cache under the schema id, and leaves the cache alone when it does
    not know the id. *)
Theorem lookups_are_not_counted :
  (forall env schema_id srv body resp srv',
     get_schema env schema_id srv = Some (body, resp, srv') ->
     schema_files srv' = schema_files srv /\
     forall tk cid, bucket_of tk cid (USAGE srv') = bucket_of tk cid (USAGE srv)) /\
  (forall env schema_id sql srv body resp srv',
     validate env schema_id sql srv = Some (body, resp, srv') ->
     schema_files srv' = schema_files srv /\
     (forall tk cid,
        bucket_of tk cid (USAGE srv') = bucket_of tk cid (USAGE srv)) /\
     match body with
     | Validated _ _ validation =>
         exists schema_json,
           PyDict.get schema_id (SCHEMAS srv') = Some schema_json /\
           validation = validate_against_schema sql schema_json
     | ValidateUnknown _ => SCHEMAS srv' = SCHEMAS srv
     end).
Proof.
  assert (Hfiles : forall schema_id srv found srv',
            find_schema schema_id srv = Some (found, srv') ->
            schema_files srv' = schema_files srv).
  { intros schema_id srv found srv'. unfold find_schema.
    destruct (PyDict.get schema_id (SCHEMAS srv)); [now intros [= <- <-]|].
    destruct (PyDict.get schema_id (schema_files srv)); [|now intros [= <- <-]].
    destruct (loaded_schema _); [|discriminate]. now intros [= <- <-]. }
  split.
  - intros env schema_id srv body resp srv'. unfold get_schema.
    destruct (get_or_set_client_id env new_response) as [cid0 resp0].
    destruct (find_schema schema_id _) as [[[j|] srv2]|] eqn:Ef; [| |discriminate];
      intros [= <- <- <-];
      pose proof (Hfiles _ _ _ _ Ef) as Hf;
      apply find_schema_usage in Ef; cbn [USAGE schema_files] in *;
      (split; [exact Hf|]); intros tk cid1; rewrite Ef;
      apply bucket_of_get_usage_bucket.
  - intros env schema_id sql srv body resp srv'. unfold validate.
    destruct (get_or_set_client_id env new_response) as [cid0 resp0].
    destruct (find_schema schema_id _) as [[[j|] srv2]|] eqn:Ef; [| |discriminate];
      intros [= <- <- <-];
      pose proof (Hfiles _ _ _ _ Ef) as Hf;
      pose proof (find_schema_usage _ _ _ _ Ef) as Hu;
      cbn [USAGE schema_files] in *;
      (split; [exact Hf|]);
      (split; [intros tk cid1; rewrite Hu;
               now rewrite !bucket_of_get_usage_bucket|]).
    + apply find_schema_found in Ef as [Hg _]. now exists j.
    + unfold find_schema in Ef. cbn [SCHEMAS schema_files] in Ef.
      destruct (PyDict.get schema_id (SCHEMAS srv)); [discriminate|].
      destruct (PyDict.get schema_id (schema_files srv)); [|now injection Ef as <-].
      destruct (loaded_schema _); discriminate.
Qed.

End ServerFacts.
